(** * profiles-config: the ConfigHandler of wolfsoftware.profiles_config

    A shallow embedding of [src/wolfsoftware/profiles_config/parser.py]
    and of the parts of CPython's [configparser] (3.9 - 3.12) that the
    handler drives, followed by the properties of the handler.

    Conventions of the embedding.
    - A Python [str] is a [list ascii]; the development covers ASCII
      text: a character above 127 is neither whitespace nor cased here,
      and [repr] leaves it as it is.
    - A Python [dict] is an association list in insertion order with
      unique keys ([dict_set] overwrites in place or appends).
    - A call that may raise returns a [result]; [Raise e] carries the
      exception class and its message.
    - A [filesystem] says what is at each path: nothing, a text, or
      something that [open] or [readlines] fails on; the exception of
      that failure is a [ReadError] with its class and its message. *)

From Stdlib Require Import String Ascii List Bool Arith Lia.
Import ListNotations.

Open Scope string_scope.
Open Scope nat_scope.
Open Scope list_scope.

(** ** Python strings *)

Definition str := list ascii.

Coercion list_ascii_of_string : string >-> list.

Definition NL : ascii := "010"%char.
Definition CR : ascii := "013"%char.

Fixpoint str_eqb (a b : str) : bool :=
  match a, b with
  | [], [] => true
  | x :: a', y :: b' => Ascii.eqb x y && str_eqb a' b'
  | _, _ => false
  end.

(** [str.isspace] on one character: TAB, LF, VT, FF, CR, FS, GS, RS, US
    and SPACE.  The regular expression class [\s] is the same set. *)
Definition isspace (c : ascii) : bool :=
  let n := nat_of_ascii c in
  ((9 <=? n) && (n <=? 13)) || ((28 <=? n) && (n <=? 32)).

Definition lower_char (c : ascii) : ascii :=
  let n := nat_of_ascii c in
  if (65 <=? n) && (n <=? 90) then ascii_of_nat (n + 32) else c.

(** [str.lower] *)
Definition lower (s : str) : str := map lower_char s.

(** [str.lstrip], [str.rstrip], [str.strip] *)
Fixpoint lstrip (s : str) : str :=
  match s with
  | [] => []
  | c :: r => if isspace c then lstrip r else s
  end.

Definition rstrip (s : str) : str := rev (lstrip (rev s)).

Definition strip (s : str) : str := rstrip (lstrip s).

(** [sep.join(l)] *)
Fixpoint join (sep : str) (l : list str) : str :=
  match l with
  | [] => []
  | x :: r => match r with [] => x | _ => x ++ sep ++ join sep r end
  end.

(** [c in s] for a one-character [c] *)
Definition has_char (c : ascii) (s : str) : bool := existsb (Ascii.eqb c) s.

Definition nonempty (s : str) : bool :=
  match s with [] => false | _ => true end.

(** ** Reading text *)

(** Universal newlines of a file opened in text mode: CR LF and a lone
    CR are read as LF. *)
Fixpoint universal_newlines (s : str) : str :=
  match s with
  | [] => []
  | c :: r =>
      if Ascii.eqb c CR
      then NL :: match r with
                 | c' :: r' => if Ascii.eqb c' NL then universal_newlines r'
                               else universal_newlines r
                 | [] => []
                 end
      else c :: universal_newlines r
  end.

(** The lines of a text stream, each with its line feed kept. *)
Fixpoint iter_lines (s : str) : list str :=
  match s with
  | [] => []
  | c :: r =>
      if Ascii.eqb c NL then [NL] :: iter_lines r
      else match iter_lines r with
           | [] => [[c]]
           | l :: ls => (c :: l) :: ls
           end
  end.

(** [file.readlines()] of a file whose decoded content is [content] *)
Definition readlines (content : str) : list str :=
  iter_lines (universal_newlines content).

(** ** The two regular expressions of the preprocessor *)

(** [.*$] tried at the start of [rest]: [.] does not match a line feed
    and [$] holds at the end of the text or before a final line feed.
    The result is what follows the match. *)
Fixpoint dot_star_eol (rest : str) : option str :=
  match rest with
  | [] => Some []
  | c :: r =>
      if Ascii.eqb c NL
      then match r with [] => Some [NL] | _ => None end
      else dot_star_eol r
  end.

(** [re.sub(p + r'.*$', '', s)] for a one-character [p] *)
Fixpoint re_sub_to_eol (p : ascii) (s : str) : str :=
  match s with
  | [] => []
  | c :: r =>
      if Ascii.eqb c p
      then match dot_star_eol r with
           | Some tail => tail
           | None => c :: re_sub_to_eol p r
           end
      else c :: re_sub_to_eol p r
  end.

(** ** ConfigHandler.preprocess_file *)

Definition preprocess_step (processed_lines : list str) (line : str)
  : list str :=
  let line1 := re_sub_to_eol ";"%char line in
  let line2 := re_sub_to_eol "#"%char line1 in
  let stripped_line := strip line2 in
  if nonempty stripped_line then processed_lines ++ [stripped_line]
  else processed_lines.

Definition processed_lines_of (content : str) : list str :=
  fold_left preprocess_step (readlines content) [].

Definition preprocess_file (content : str) : str :=
  join [NL] (processed_lines_of content).

(** ** [repr] and number formatting, as used in the error messages *)

Definition DQUOTE : ascii := "034"%char.
Definition SQUOTE : ascii := "'"%char.
Definition BACKSLASH : ascii := "\"%char.
Definition TAB : ascii := "009"%char.
Definition PERCENT : ascii := "%"%char.

Definition hex_digit (n : nat) : ascii :=
  nth n (list_ascii_of_string "0123456789abcdef") "0"%char.

Definition repr_char (quote c : ascii) : str :=
  let n := nat_of_ascii c in
  if Ascii.eqb c quote || Ascii.eqb c BACKSLASH then [BACKSLASH; c]
  else if Ascii.eqb c TAB then [BACKSLASH; "t"%char]
  else if Ascii.eqb c NL then [BACKSLASH; "n"%char]
  else if Ascii.eqb c CR then [BACKSLASH; "r"%char]
  else if (n <? 32) || (n =? 127)
       then [BACKSLASH; "x"%char; hex_digit (n / 16); hex_digit (n mod 16)]
       else [c].

(** [repr(s)]: single quotes, unless [s] holds a single quote and no
    double quote. *)
Definition repr (s : str) : str :=
  let quote := if has_char SQUOTE s && negb (has_char DQUOTE s)
               then DQUOTE else SQUOTE in
  quote :: flat_map (repr_char quote) s ++ [quote].

Fixpoint uint_str (u : Decimal.uint) : str :=
  match u with
  | Decimal.Nil => []
  | Decimal.D0 r => "0"%char :: uint_str r
  | Decimal.D1 r => "1"%char :: uint_str r
  | Decimal.D2 r => "2"%char :: uint_str r
  | Decimal.D3 r => "3"%char :: uint_str r
  | Decimal.D4 r => "4"%char :: uint_str r
  | Decimal.D5 r => "5"%char :: uint_str r
  | Decimal.D6 r => "6"%char :: uint_str r
  | Decimal.D7 r => "7"%char :: uint_str r
  | Decimal.D8 r => "8"%char :: uint_str r
  | Decimal.D9 r => "9"%char :: uint_str r
  end.

(** ["%d" % n] *)
Definition format_d (n : nat) : str := uint_str (Nat.to_uint n).

(** ["{0:2d}".format(n)] and ["%2d" % n] *)
Definition format_2d (n : nat) : str :=
  let s := format_d n in
  if length s <? 2 then " " ++ s else s.

(** ** Python dictionaries *)

Definition dict (V : Type) := list (str * V).

Fixpoint dict_get {V} (d : dict V) (k : str) : option V :=
  match d with
  | [] => None
  | (k', v) :: r => if str_eqb k' k then Some v else dict_get r k
  end.

Definition dict_mem {V} (d : dict V) (k : str) : bool :=
  match dict_get d k with Some _ => true | None => false end.

(** [d[k] = v] *)
Fixpoint dict_set {V} (d : dict V) (k : str) (v : V) : dict V :=
  match d with
  | [] => [(k, v)]
  | (k', v') :: r =>
      if str_eqb k' k then (k', v) :: r else (k', v') :: dict_set r k v
  end.

Definition dict_keys {V} (d : dict V) : list str := map fst d.

(** [d.update(other)] *)
Definition dict_update {V} (d other : dict V) : dict V :=
  fold_left (fun acc kv => dict_set acc (fst kv) (snd kv)) other d.

(** [x in s] for a set of strings kept as a list *)
Definition set_mem (x : str) (s : list str) : bool := existsb (str_eqb x) s.

Definition pair_mem (x : str * str) (s : list (str * str)) : bool :=
  existsb (fun y => str_eqb (fst x) (fst y) && str_eqb (snd x) (snd y)) s.

(** ** configparser: errors *)

Definition default_section : str := "DEFAULT".

Definition MAX_INTERPOLATION_DEPTH : nat := 10.

(** The source name [read_string] passes to [_read]. *)
Definition string_source : str := "<string>".

Inductive Error : Type :=
| NoSectionError (section : str)
| DuplicateSectionError (section : str) (lineno : option nat)
| DuplicateOptionError (section option : str) (lineno : nat)
| NoOptionError (option section : str)
| InterpolationMissingOptionError (option section rawval reference : str)
| InterpolationSyntaxError (option section msg : str)
| InterpolationDepthError (option section rawval : str)
| ParsingError (errors : list (nat * str))
| MissingSectionHeaderError (lineno : nat) (line : str).

(** [str(e)] *)
Definition Error_str (e : Error) : str :=
  match e with
  | NoSectionError section => "No section: " ++ repr section
  | DuplicateSectionError section None =>
      "Section " ++ repr section ++ " already exists"
  | DuplicateSectionError section (Some lineno) =>
      "While reading from " ++ repr string_source
        ++ " [line " ++ format_2d lineno ++ "]" ++ ": section "
        ++ repr section ++ " already exists"
  | DuplicateOptionError section option lineno =>
      "While reading from " ++ repr string_source
        ++ " [line " ++ format_2d lineno ++ "]" ++ ": option "
        ++ repr option ++ " in section " ++ repr section
        ++ " already exists"
  | NoOptionError option section =>
      "No option " ++ repr option ++ " in section: " ++ repr section
  | InterpolationMissingOptionError option section rawval reference =>
      "Bad value substitution: option " ++ repr option ++ " in section "
        ++ repr section ++ " contains an interpolation key "
        ++ repr reference ++ " which is not a valid option name. Raw value: "
        ++ repr rawval
  | InterpolationSyntaxError _ _ msg => msg
  | InterpolationDepthError option section rawval =>
      "Recursion limit exceeded in value substitution: option "
        ++ repr option ++ " in section " ++ repr section
        ++ " contains an interpolation key which cannot be substituted in "
        ++ format_d MAX_INTERPOLATION_DEPTH ++ " steps. Raw value: "
        ++ repr rawval
  | ParsingError errors =>
      "Source contains parsing errors: " ++ repr string_source
        ++ flat_map (fun le => [NL; TAB] ++ "[line " ++ format_2d (fst le)
                                 ++ "]: " ++ repr (snd le)) errors
  | MissingSectionHeaderError lineno line =>
      "File contains no section headers." ++ [NL] ++ "file: "
        ++ repr string_source ++ ", line: " ++ format_d lineno ++ [NL]
        ++ repr line
  end.

(** ** Exceptions and results *)

Inductive exn : Type :=
| FileNotFoundError (msg : str)
| ValueError (msg : str)
| KeyError (msg : str)
| ConfigParserError (e : Error)
| ReadError (class_name msg : str).

Inductive result (A : Type) : Type :=
| Ok (a : A)
| Raise (e : exn).

Arguments Ok {A} a.
Arguments Raise {A} e.

Definition bind {A B} (r : result A) (k : A -> result B) : result B :=
  match r with
  | Ok a => k a
  | Raise e => Raise e
  end.

Notation "x <- r ;; k" := (bind r (fun x => k))
  (at level 61, r at next level, right associativity).

(** A loop whose body may raise. *)
Fixpoint for_each {S X} (body : S -> X -> result S) (xs : list X) (s : S)
  : result S :=
  match xs with
  | [] => Ok s
  | x :: r => s' <- body s x ;; for_each body r s'
  end.

(** ** configparser: the line grammar

    The parser is the one [RawConfigParser()] and [ConfigParser()] build
    with no arguments: delimiters [=] and [:], full-line comment
    prefixes [#] and [;], no inline comment prefixes, [strict=True],
    [allow_no_value=False], [empty_lines_in_values=True]. *)

(** [optionxform]: [str] when the handler preserves case, the default
    [str.lower] otherwise. *)
Definition optionxform (preserve_case : bool) (option : str) : str :=
  if preserve_case then option else lower option.

Definition is_delim (c : ascii) : bool :=
  Ascii.eqb c "="%char || Ascii.eqb c ":"%char.

Definition is_comment_char (c : ascii) : bool :=
  Ascii.eqb c "#"%char || Ascii.eqb c ";"%char.

(** The text before the last occurrence of [c] in [s]. *)
Fixpoint before_last (c : ascii) (s : str) : option str :=
  match s with
  | [] => None
  | x :: r =>
      match before_last c r with
      | Some p => Some (x :: p)
      | None => if Ascii.eqb x c then Some [] else None
      end
  end.

(** [SECTCRE.match(value)], giving the [header] group: an opening
    bracket, then as many characters as possible (at least one), then a
    closing bracket.  [value] is one stripped line and holds no line
    feed. *)
Definition SECTCRE (value : str) : option str :=
  match value with
  | c :: body =>
      if Ascii.eqb c "["%char
      then match before_last "]"%char body with
           | Some (h :: t) => Some (h :: t)
           | _ => None
           end
      else None
  | [] => None
  end.

(** The text before and after the first delimiter of [s]. *)
Fixpoint split_delim (s : str) : option (str * str) :=
  match s with
  | [] => None
  | c :: r =>
      if is_delim c then Some ([], r)
      else match split_delim r with
           | Some (a, b) => Some (c :: a, b)
           | None => None
           end
  end.

(** [OPTCRE.match(value)], giving the [option] and [value] groups: the
    shortest text that whitespace and a delimiter follow, and what comes
    after the delimiter and the whitespace behind it.  [value] is one
    stripped line and holds no line feed. *)
Definition OPTCRE (value : str) : option (str * str) :=
  match split_delim value with
  | Some (before, after) => Some (rstrip before, lstrip after)
  | None => None
  end.

(** [NONSPACECRE.search(line).start()] *)
Fixpoint first_nonspace (line : str) : option nat :=
  match line with
  | [] => None
  | c :: r => if isspace c then option_map S (first_nonspace r) else Some 0
  end.

(** ** configparser: [RawConfigParser._read] *)

(** The local variables of [_read] and the two dictionaries of the
    parser it fills.  While reading, a value is the list of its lines.
    [cursect] is an alias of [self._defaults] when [sectname] is the
    default section and of [self._sections[sectname]] otherwise, so the
    state keeps [sectname] ([None] while [cursect] is [None]) and writes
    go through it.  [elements_added] holds section names and
    (section, option) pairs; the two kinds are kept apart. *)
Record read_state : Type := mkReadState {
  rs_defaults : dict (list str);
  rs_sections : dict (dict (list str));
  rs_added_sections : list str;
  rs_added_options : list (str * str);
  rs_sectname : option str;
  rs_optname : option str;
  rs_indent_level : nat;
  rs_e : list (nat * str)
}.

Definition read_state_init : read_state :=
  mkReadState [] [] [] [] None None 0 [].

(** [cursect[optname]] *)
Definition cursect_get (st : read_state) (sectname optname : str)
  : option (list str) :=
  if str_eqb sectname default_section then dict_get (rs_defaults st) optname
  else match dict_get (rs_sections st) sectname with
       | Some d => dict_get d optname
       | None => None
       end.

(** [cursect[optname] = val] *)
Definition cursect_set (st : read_state) (sectname optname : str)
  (val : list str) : read_state :=
  if str_eqb sectname default_section
  then mkReadState (dict_set (rs_defaults st) optname val) (rs_sections st)
         (rs_added_sections st) (rs_added_options st) (rs_sectname st)
         (rs_optname st) (rs_indent_level st) (rs_e st)
  else match dict_get (rs_sections st) sectname with
       | Some d =>
           mkReadState (rs_defaults st)
             (dict_set (rs_sections st) sectname (dict_set d optname val))
             (rs_added_sections st) (rs_added_options st) (rs_sectname st)
             (rs_optname st) (rs_indent_level st) (rs_e st)
       | None => st
       end.

(** [cursect[optname].append(value)] *)
Definition cursect_append (st : read_state) (sectname optname value : str)
  : read_state :=
  match cursect_get st sectname optname with
  | Some val => cursect_set st sectname optname (val ++ [value])
  | None => st
  end.

(** The section and option a continuation line or an empty line would
    extend: [cursect is not None and optname]. *)
Definition open_option (st : read_state) : option (str * str) :=
  match rs_sectname st, rs_optname st with
  | Some sectname, Some optname =>
      if nonempty optname then Some (sectname, optname) else None
  | _, _ => None
  end.

(** [_handle_error] *)
Definition handle_error (e : list (nat * str)) (lineno : nat) (line : str)
  : list (nat * str) :=
  e ++ [(lineno, line)].

Definition starts_with_comment (s : str) : bool :=
  match s with
  | c :: _ => is_comment_char c
  | [] => false
  end.

(** A section header line with the header [sectname]. *)
Definition read_header (st : read_state) (lineno indent : nat)
  (sectname : str) : result read_state :=
  if dict_mem (rs_sections st) sectname then
    if set_mem sectname (rs_added_sections st)
    then Raise (ConfigParserError (DuplicateSectionError sectname (Some lineno)))
    else Ok (mkReadState (rs_defaults st) (rs_sections st)
               (sectname :: rs_added_sections st) (rs_added_options st)
               (Some sectname) None indent (rs_e st))
  else if str_eqb sectname default_section then
    Ok (mkReadState (rs_defaults st) (rs_sections st)
          (rs_added_sections st) (rs_added_options st)
          (Some sectname) None indent (rs_e st))
  else
    Ok (mkReadState (rs_defaults st) (rs_sections st ++ [(sectname, [])])
          (sectname :: rs_added_sections st) (rs_added_options st)
          (Some sectname) None indent (rs_e st)).

(** A line that is neither a continuation nor a section header, read
    while [cursect] is the section [sectname]. *)
Definition read_option (preserve_case : bool) (st : read_state)
  (lineno indent : nat) (line value sectname : str) : result read_state :=
  match OPTCRE value with
  | Some (optname0, optval) =>
      let e := if nonempty optname0 then rs_e st
               else handle_error (rs_e st) lineno line in
      let optname := optionxform preserve_case (rstrip optname0) in
      if pair_mem (sectname, optname) (rs_added_options st)
      then Raise (ConfigParserError
                    (DuplicateOptionError sectname optname lineno))
      else
        Ok (cursect_set
              (mkReadState (rs_defaults st) (rs_sections st)
                 (rs_added_sections st)
                 ((sectname, optname) :: rs_added_options st)
                 (rs_sectname st) (Some optname) indent e)
              sectname optname [strip optval])
  | None =>
      Ok (mkReadState (rs_defaults st) (rs_sections st)
            (rs_added_sections st) (rs_added_options st)
            (rs_sectname st) (rs_optname st) indent
            (handle_error (rs_e st) lineno line))
  end.

(** One turn of the loop of [_read]. *)
Definition read_line (preserve_case : bool) (st : read_state)
  (lineno : nat) (line : str) : result read_state :=
  let is_comment := starts_with_comment (strip line) in
  let value := if is_comment then [] else strip line in
  if negb (nonempty value) then
    match open_option st with
    | Some (sectname, optname) =>
        if is_comment then Ok st
        else Ok (cursect_append st sectname optname [])
    | None => Ok st
    end
  else
    let cur_indent_level :=
      match first_nonspace line with Some n => n | None => 0 end in
    match open_option st with
    | Some (sectname, optname) =>
        if rs_indent_level st <? cur_indent_level
        then Ok (cursect_append st sectname optname value)
        else match SECTCRE value with
             | Some header => read_header st lineno cur_indent_level header
             | None => read_option preserve_case st lineno cur_indent_level
                         line value sectname
             end
    | None =>
        match SECTCRE value with
        | Some header => read_header st lineno cur_indent_level header
        | None =>
            match rs_sectname st with
            | None => Raise (ConfigParserError
                               (MissingSectionHeaderError lineno line))
            | Some sectname =>
                read_option preserve_case st lineno cur_indent_level
                  line value sectname
            end
        end
    end.

Fixpoint read_lines (preserve_case : bool) (st : read_state) (lineno : nat)
  (lines : list str) : result read_state :=
  match lines with
  | [] => Ok st
  | line :: rest =>
      st' <- read_line preserve_case st lineno line ;;
      read_lines preserve_case st' (S lineno) rest
  end.

(** [_join_multiline_values] on one dictionary *)
Definition join_values (options : dict (list str)) : dict str :=
  map (fun kv => (fst kv, rstrip (join [NL] (snd kv)))) options.

(** ** configparser: the parser object *)

Inductive interpolation_kind : Type :=
| NoInterpolation      (* [RawConfigParser]: [Interpolation()] *)
| BasicInterpolation.  (* [ConfigParser]: [BasicInterpolation()] *)

Record parser : Type := mkParser {
  p_preserve_case : bool;
  p_interpolation : interpolation_kind;
  _defaults : dict str;
  _sections : dict (dict str)
}.

(** [RawConfigParser()], with [optionxform = str] when the handler
    preserves case *)
Definition RawConfigParser (preserve_case : bool) : parser :=
  mkParser preserve_case NoInterpolation [] [].

(** [ConfigParser()], likewise *)
Definition ConfigParser (preserve_case : bool) : parser :=
  mkParser preserve_case BasicInterpolation [] [].

(** [_read] on a parser that holds nothing yet: the loop, then
    [_join_multiline_values], then the parsing errors collected on the
    way, if any. *)
Definition _read (preserve_case : bool) (lines : list str) : result parser :=
  st <- read_lines preserve_case read_state_init 1 lines ;;
  match rs_e st with
  | [] => Ok (mkParser preserve_case NoInterpolation
                (join_values (rs_defaults st))
                (map (fun so => (fst so, join_values (snd so)))
                   (rs_sections st)))
  | errors => Raise (ConfigParserError (ParsingError errors))
  end.

(** [read_string(string)] on the [RawConfigParser] that [__init__]
    made: the lines of [io.StringIO(string)] go through [_read]. *)
Definition read_string (preserve_case : bool) (string : str)
  : result parser :=
  _read preserve_case (iter_lines string).

(** [sections()] *)
Definition sections (p : parser) : list str := dict_keys (_sections p).

(** [has_section(section)] *)
Definition has_section (p : parser) (section : str) : bool :=
  dict_mem (_sections p) section.

(** [key in parser] *)
Definition contains (p : parser) (key : str) : bool :=
  str_eqb key default_section || has_section p key.

(** [has_option(section, option)] *)
Definition has_option (p : parser) (section option : str) : bool :=
  if negb (nonempty section) || str_eqb section default_section
  then dict_mem (_defaults p) (optionxform (p_preserve_case p) option)
  else match dict_get (_sections p) section with
       | None => false
       | Some d =>
           let option := optionxform (p_preserve_case p) option in
           dict_mem d option || dict_mem (_defaults p) option
       end.

(** The defaults overlaid with the options of [section]: the dictionary
    [d] of [items] and the chain map of [_unify_values]. *)
Definition unify_values (p : parser) (section : str) : result (dict str) :=
  match dict_get (_sections p) section with
  | Some d => Ok (dict_update (_defaults p) d)
  | None =>
      if str_eqb section default_section then Ok (_defaults p)
      else Raise (ConfigParserError (NoSectionError section))
  end.

(** [get(section, option, raw=True, fallback=fallback)] *)
Definition get_raw_fallback (p : parser) (section option fallback : str)
  : str :=
  match unify_values p section with
  | Ok d =>
      match dict_get d (optionxform (p_preserve_case p) option) with
      | Some value => value
      | None => fallback
      end
  | Raise _ => fallback
  end.

(** ** configparser: [BasicInterpolation] *)

(** The text before the first closing parenthesis. *)
Fixpoint until_rparen (s : str) : option (str * str) :=
  match s with
  | [] => None
  | c :: r =>
      if Ascii.eqb c ")"%char then Some ([], r)
      else match until_rparen r with
           | Some (a, b) => Some (c :: a, b)
           | None => None
           end
  end.

(** [_KEYCRE.match(rest)] for the pattern [%\(([^)]+)\)s]: the name in
    the parentheses and the length of the match. *)
Definition KEYCRE_match (rest : str) : option (str * nat) :=
  match rest with
  | c1 :: c2 :: r =>
      if Ascii.eqb c1 PERCENT && Ascii.eqb c2 "("%char then
        match until_rparen r with
        | Some (name, c3 :: _) =>
            if nonempty name && Ascii.eqb c3 "s"%char
            then Some (name, length name + 4)
            else None
        | _ => None
        end
      else None
  | _ => None
  end.

(** The [while rest:] loop of [_interpolate_some].  The loop is written
    one character at a time: [skip] counts the characters that the
    previous turn has consumed beyond the first.  [deeper] is the
    recursive call of [_interpolate_some] one level down; [accum] is the
    text joined so far. *)
Fixpoint interpolate_loop (deeper : str -> str -> result str)
  (preserve_case : bool) (option section rawval : str) (map : dict str)
  (skip : nat) (rest accum : str) : result str :=
  match rest with
  | [] => Ok accum
  | c :: r =>
      match skip with
      | S k =>
          interpolate_loop deeper preserve_case option section rawval map
            k r accum
      | O =>
          if negb (Ascii.eqb c PERCENT) then
            interpolate_loop deeper preserve_case option section rawval map
              0 r (accum ++ [c])
          else
            match r with
            | c' :: _ =>
                if Ascii.eqb c' PERCENT then
                  interpolate_loop deeper preserve_case option section
                    rawval map 1 r (accum ++ [PERCENT])
                else if Ascii.eqb c' "("%char then
                  match KEYCRE_match rest with
                  | None =>
                      Raise (ConfigParserError
                        (InterpolationSyntaxError option section
                           ("bad interpolation variable reference "
                              ++ repr rest)))
                  | Some (name, m_end) =>
                      let var := optionxform preserve_case name in
                      match dict_get map var with
                      | None =>
                          Raise (ConfigParserError
                            (InterpolationMissingOptionError option section
                               rawval var))
                      | Some v =>
                          accum' <- (if has_char PERCENT v
                                     then deeper v accum
                                     else Ok (accum ++ v)) ;;
                          interpolate_loop deeper preserve_case option
                            section rawval map (m_end - 1) r accum'
                      end
                  end
                else
                  Raise (ConfigParserError
                    (InterpolationSyntaxError option section
                       ("'%' must be followed by '%' or '(', found: "
                          ++ repr rest)))
            | [] =>
                Raise (ConfigParserError
                  (InterpolationSyntaxError option section
                     ("'%' must be followed by '%' or '(', found: "
                        ++ repr rest)))
            end
      end
  end.

(** [_interpolate_some]; [fuel] is the number of levels left, so that
    the call at depth [d] has [fuel = MAX_INTERPOLATION_DEPTH + 1 - d]
    and the depth error is raised at [fuel = 0]. *)
Fixpoint _interpolate_some (fuel : nat) (p : parser)
  (option : str) (accum rest section : str) (map : dict str) : result str :=
  let rawval := get_raw_fallback p section option rest in
  match fuel with
  | O => Raise (ConfigParserError
                  (InterpolationDepthError option section rawval))
  | S fuel' =>
      interpolate_loop
        (fun v acc => _interpolate_some fuel' p option acc v section map)
        (p_preserve_case p) option section rawval map 0 rest accum
  end.

(** [self._interpolation.before_get(self, section, option, value, d)] *)
Definition before_get (p : parser) (section option value : str)
  (d : dict str) : result str :=
  match p_interpolation p with
  | NoInterpolation => Ok value
  | BasicInterpolation =>
      _interpolate_some MAX_INTERPOLATION_DEPTH p option [] value section d
  end.

(** [value.replace('%%', '')] *)
Fixpoint remove_escaped_percent (s : str) : str :=
  match s with
  | [] => []
  | c :: r =>
      match r with
      | c' :: r' =>
          if Ascii.eqb c PERCENT && Ascii.eqb c' PERCENT
          then remove_escaped_percent r'
          else c :: remove_escaped_percent r
      | [] => [c]
      end
  end.

(** [_KEYCRE.sub('', s)]; [skip] as in [interpolate_loop]. *)
Fixpoint KEYCRE_sub (skip : nat) (s : str) : str :=
  match s with
  | [] => []
  | c :: r =>
      match skip with
      | S k => KEYCRE_sub k r
      | O =>
          match KEYCRE_match s with
          | Some (_, m_end) => KEYCRE_sub (m_end - 1) r
          | None => c :: KEYCRE_sub 0 r
          end
      end
  end.

(** [s.find(c)] when [c] occurs in [s] *)
Fixpoint find_char (c : ascii) (s : str) : nat :=
  match s with
  | [] => 0
  | x :: r => if Ascii.eqb x c then 0 else S (find_char c r)
  end.

(** [self._interpolation.before_set(self, section, option, value)] *)
Definition before_set (p : parser) (value : str) : result str :=
  match p_interpolation p with
  | NoInterpolation => Ok value
  | BasicInterpolation =>
      let tmp_value := KEYCRE_sub 0 (remove_escaped_percent value) in
      if has_char PERCENT tmp_value
      then Raise (ValueError
                    ("invalid interpolation syntax in " ++ repr value
                       ++ " at position "
                       ++ format_d (find_char PERCENT tmp_value)))
      else Ok value
  end.

(** ** configparser: reading and writing a parser *)

(** [items(section)], the list of (option, value) pairs *)
Definition items (p : parser) (section : str) : result (dict str) :=
  d <- unify_values p section ;;
  for_each (fun acc option =>
              match dict_get d option with
              | Some raw =>
                  value <- before_get p section option raw d ;;
                  Ok (acc ++ [(option, value)])
              | None => Ok acc
              end)
    (dict_keys d) [].

(** [get(section, option)] *)
Definition get (p : parser) (section option : str) : result str :=
  d <- unify_values p section ;;
  let option := optionxform (p_preserve_case p) option in
  match dict_get d option with
  | Some value => before_get p section option value d
  | None => Raise (ConfigParserError (NoOptionError option section))
  end.

(** [add_section(section)] *)
Definition add_section (p : parser) (section : str) : result parser :=
  if str_eqb section default_section
  then Raise (ValueError ("Invalid section name: " ++ repr section))
  else if dict_mem (_sections p) section
  then Raise (ConfigParserError (DuplicateSectionError section None))
  else Ok (mkParser (p_preserve_case p) (p_interpolation p) (_defaults p)
             (_sections p ++ [(section, [])])).

(** [set(section, option, value)]; the method is named [set] in
    Python. *)
Definition set_option (p : parser) (section option value : str)
  : result parser :=
  value <- (if nonempty value then before_set p value else Ok value) ;;
  if negb (nonempty section) || str_eqb section default_section then
    Ok (mkParser (p_preserve_case p) (p_interpolation p)
          (dict_set (_defaults p) (optionxform (p_preserve_case p) option)
             value)
          (_sections p))
  else
    match dict_get (_sections p) section with
    | Some sectdict =>
        Ok (mkParser (p_preserve_case p) (p_interpolation p) (_defaults p)
              (dict_set (_sections p) section
                 (dict_set sectdict (optionxform (p_preserve_case p) option)
                    value)))
    | None => Raise (ConfigParserError (NoSectionError section))
    end.

(** [proxy[key]] for the section proxy of [section] *)
Definition proxy_getitem (p : parser) (section key : str) : result str :=
  if has_option p section key then get p section key
  else Raise (KeyError key).

(** ** ConfigHandler *)

(** What [os.path.exists], [open] and [readlines] find at a path:
    nothing; something that exists and cannot be opened or decoded (a
    directory, a file without read permission, bytes that are no
    UTF-8), with the class and the message of the exception that [open]
    or [readlines] raises; or a file with its decoded content. *)
Inductive path_state : Type :=
| NoSuchPath
| Unreadable (class_name msg : str)
| TextFile (content : str).

Definition filesystem := str -> path_state.

Record ConfigHandler : Type := mkConfigHandler {
  filepath : str;
  preserve_case : bool;
  config : parser
}.

(** [section.strip().lower() if not self.preserve_case else
    section.strip()] *)
Definition clean_section_name (preserve_case : bool) (section : str) : str :=
  if negb preserve_case then lower (strip section) else strip section.

(** The body of the inner loop of [load_config], over the pairs of
    [self.config.items(section)]. *)
Definition clean_option (clean_section : str)
  (state : list str * parser) (kv : str * str)
  : result (list str * parser) :=
  let '(keys_seen, cleaned_config) := state in
  let clean_key := strip (fst kv) in
  let clean_value := strip (snd kv) in
  if set_mem clean_key keys_seen
  then Raise (ValueError ("Duplicate key '" ++ clean_key
                            ++ "' found in section '" ++ clean_section ++ "'"))
  else
    cleaned_config' <-
      set_option cleaned_config clean_section clean_key clean_value ;;
    Ok (clean_key :: keys_seen, cleaned_config').

(** The body of the outer loop of [load_config], over
    [self.config.sections()]. *)
Definition clean_section (preserve_case : bool) (raw : parser)
  (state : list str * parser) (section : str)
  : result (list str * parser) :=
  let '(seen_sections, cleaned_config) := state in
  let clean_section := clean_section_name preserve_case section in
  if set_mem clean_section seen_sections
  then Raise (ValueError ("Duplicate profile name '" ++ clean_section
                            ++ "' found."))
  else
    cleaned_config1 <-
      (if negb (contains cleaned_config clean_section)
       then add_section cleaned_config clean_section
       else Ok cleaned_config) ;;
    pairs <- items raw section ;;
    state' <- for_each (clean_option clean_section) pairs
                ([], cleaned_config1) ;;
    Ok (clean_section :: seen_sections, snd state').

(** The [try] block of [load_config]. *)
Definition load_config_try (preserve_case : bool) (content : str)
  : result parser :=
  let config_string := preprocess_file content in
  raw <- read_string preserve_case config_string ;;
  state <- for_each (clean_section preserve_case raw) (sections raw)
             ([], ConfigParser preserve_case) ;;
  Ok (snd state).

(** [load_config]: the new value of [self.config].  [preprocess_file]
    runs inside the [try]: the exception of [open] or [readlines] is no
    [configparser.Error], so the [except] clause lets it pass. *)
Definition load_config (fs : filesystem) (filepath : str)
  (preserve_case : bool) : result parser :=
  match fs filepath with
  | NoSuchPath =>
      Raise (FileNotFoundError
               ("Config file '" ++ filepath ++ "' does not exist."))
  | Unreadable class_name msg => Raise (ReadError class_name msg)
  | TextFile content =>
      match load_config_try preserve_case content with
      | Raise (ConfigParserError e) =>
          Raise (ValueError ("Error parsing config file: " ++ Error_str e))
      | r => r
      end
  end.

(** [ConfigHandler(filepath, preserve_case)] *)
Definition ConfigHandler_init (fs : filesystem) (filepath : str)
  (preserve_case : bool) : result ConfigHandler :=
  cfg <- load_config fs filepath preserve_case ;;
  Ok (mkConfigHandler filepath preserve_case cfg).

Definition get_config (self : ConfigHandler) : result (dict (dict str)) :=
  for_each (fun config_dict section =>
              pairs <- items (config self) section ;;
              Ok (dict_set config_dict section pairs))
    (sections (config self)) [].

Definition get_profile (self : ConfigHandler) (profile_name : str)
  : result (dict str) :=
  let profile_name := strip profile_name in
  if contains (config self) profile_name
  then items (config self) profile_name
  else Raise (KeyError ("Profile '" ++ profile_name ++ "' not found")).

Definition get_value (self : ConfigHandler) (profile_name key_name : str)
  : result str :=
  let profile_name := strip profile_name in
  let key_name := strip key_name in
  if contains (config self) profile_name then
    if has_option (config self) profile_name key_name
    then proxy_getitem (config self) profile_name key_name
    else Raise (KeyError ("Key '" ++ key_name ++ "' not found in profile '"
                            ++ profile_name ++ "'"))
  else Raise (KeyError ("Profile '" ++ profile_name ++ "' not found")).

Definition list_profiles (self : ConfigHandler) : list str :=
  sections (config self).

Definition display_section (p : parser) (config_str : list str)
  (section : str) : result (list str) :=
  pairs <- items p section ;;
  Ok (config_str ++ ["[" ++ section ++ "]"]
        ++ map (fun kv => fst kv ++ " = " ++ snd kv) pairs ++ [[]]).

Definition display_config (self : ConfigHandler) : result str :=
  config_str <- for_each (display_section (config self))
                  (sections (config self)) [] ;;
  Ok (strip (join [NL] config_str)).

(** ** Definitions used to state the properties *)

(** The text of a line before its first [;] or [#]. *)
Fixpoint cut_comment (line : str) : str :=
  match line with
  | [] => []
  | c :: r => if is_comment_char c then [] else c :: cut_comment r
  end.

(** The preprocessor in the words of the specification: per line, drop
    the suffix that starts at the first [;] or [#], trim, discard the
    line if nothing is left; join the surviving lines with line
    feeds. *)
Definition preprocess_spec (content : str) : str :=
  join [NL]
    (filter nonempty
       (map (fun line => strip (cut_comment line)) (readlines content))).

(** A character that can occur inside a preprocessed line. *)
Definition text_char (c : ascii) : bool :=
  negb (Ascii.eqb c NL) && negb (Ascii.eqb c CR) && negb (is_comment_char c).

(** A line as the preprocessor leaves it: not empty, trimmed, free of
    line ends and comment characters. *)
Definition clean_line (l : str) : Prop :=
  l <> [] /\ lstrip l = l /\ rstrip l = l /\ forallb text_char l = true.

(** The lines of [io.StringIO("\n".join(ls))] for clean lines [ls]. *)
Fixpoint with_newlines (ls : list str) : list str :=
  match ls with
  | [] => []
  | x :: r => match r with [] => [x] | _ => (x ++ [NL]) :: with_newlines r end
  end.

(** The text of [s] before its first [p]. *)
Fixpoint cut_at (p : ascii) (s : str) : str :=
  match s with
  | [] => []
  | c :: r => if Ascii.eqb c p then [] else c :: cut_at p r
  end.

(** What [preprocess_file] makes of one line. *)
Definition preprocess_line (line : str) : str :=
  strip (re_sub_to_eol "#"%char (re_sub_to_eol ";"%char line)).

(** The end of a line of a text stream: nothing, or one line feed. *)
Definition eol (e : str) : Prop := e = [] \/ e = [NL].

(** One turn of the loop of [_read] for a line whose stripped text
    [value] is a clean line: it is not empty, not a comment and not
    indented, which leaves the section header and the option line. *)
Definition read_clean (preserve_case : bool) (st : read_state)
  (lineno : nat) (line value : str) : result read_state :=
  match SECTCRE value with
  | Some header => read_header st lineno 0 header
  | None =>
      match rs_sectname st with
      | None => Raise (ConfigParserError
                         (MissingSectionHeaderError lineno line))
      | Some sectname =>
          read_option preserve_case st lineno 0 line value sectname
      end
  end.

(** A blank line or a comment line of the input file. *)
Definition blank_or_comment (line : str) : bool :=
  match lstrip line with
  | [] => true
  | c :: _ => is_comment_char c
  end.

(** A file system that holds one file. *)
Definition single_file (path content : str) : filesystem :=
  fun p => if str_eqb p path then TextFile content else NoSuchPath.

(** Lines of text, each ended by a line feed. *)
Definition text_of (lines : list string) : str :=
  flat_map (fun l => list_ascii_of_string l ++ [NL]) lines.

(** [read_lines] over the lines of a preprocessed text. *)
Fixpoint read_clean_lines (pc : bool) (st : read_state) (n : nat)
  (ls : list str) : result read_state :=
  match ls with
  | [] => Ok st
  | x :: r =>
      st' <- read_clean pc st n
               (match r with [] => x | _ => x ++ [NL] end) x ;;
      read_clean_lines pc st' (S n) r
  end.

Definition is_default (s : str) : bool := str_eqb s default_section.

(** The names in the section headers of preprocessed lines, in order. *)
Fixpoint header_names (ls : list str) : list str :=
  match ls with
  | [] => []
  | l :: r =>
      match SECTCRE l with
      | Some h => h :: header_names r
      | None => header_names r
      end
  end.

(** The option and the value that an assignment line sets under the
    case mode of the handler. *)
Definition entry_of (preserve_case : bool) (l : str) : option (str * str) :=
  match SECTCRE l with
  | Some _ => None
  | None =>
      match OPTCRE l with
      | Some (k0, v0) => Some (optionxform preserve_case k0, v0)
      | None => None
      end
  end.

(** The (option, value) pairs held anywhere in [_read]'s state. *)
Definition stored (st : read_state) (k : str) (val : list str) : Prop :=
  In (k, val) (rs_defaults st)
  \/ exists s d, In (s, d) (rs_sections st) /\ In (k, val) d.

(** What holds of the state of [_read] after the clean lines [ls]. *)
Record read_inv (pc : bool) (ls : list str) (st : read_state) : Prop := {
  ri_sections :
    dict_keys (rs_sections st)
    = filter (fun h => negb (is_default h)) (header_names ls);
  ri_nodup : NoDup (dict_keys (rs_sections st));
  ri_added :
    forall s, dict_mem (rs_sections st) s = true ->
              set_mem s (rs_added_sections st) = true;
  ri_sectname :
    forall s, rs_sectname st = Some s ->
              s = default_section \/ dict_mem (rs_sections st) s = true;
  ri_pairs :
    forall k val, stored st k val ->
      exists l k0 v0,
        In l ls /\ SECTCRE l = None /\ OPTCRE l = Some (k0, v0)
        /\ k = optionxform pc k0 /\ val = [v0]
        /\ (rs_e st = [] -> k0 <> []);
  ri_keys_defaults : NoDup (dict_keys (rs_defaults st));
  ri_keys_sections :
    forall s d, In (s, d) (rs_sections st) -> NoDup (dict_keys d)
}.

(** The (option, value) pairs held anywhere in a parser. *)
Definition parser_pairs (p : parser) (k v : str) : Prop :=
  In (k, v) (_defaults p)
  \/ exists s d, In (s, d) (_sections p) /\ In (k, v) d.

(** Every pair of the parser is the entry of one of the lines [ls], and
    no dictionary of the parser repeats a key. *)
Record pairs_inv (pc : bool) (ls : list str) (p : parser) : Prop := {
  pi_pairs :
    forall k v, parser_pairs p k v ->
      exists l, In l ls /\ entry_of pc l = Some (k, v) /\ k <> [];
  pi_keys_defaults : NoDup (dict_keys (_defaults p));
  pi_keys_sections :
    forall s d, In (s, d) (_sections p) -> NoDup (dict_keys d)
}.

(** What holds of the parser that [read_string] returns for the clean
    lines [ls]. *)
Record raw_inv (pc : bool) (ls : list str) (raw : parser) : Prop := {
  rw_case : p_preserve_case raw = pc;
  rw_interpolation : p_interpolation raw = NoInterpolation;
  rw_sections :
    sections raw = filter (fun h => negb (is_default h)) (header_names ls);
  rw_nodup : NoDup (sections raw);
  rw_pairs : pairs_inv pc ls raw
}.

(** What holds of the seen names and the cleaned parser in the outer
    loop of [load_config] after the raw sections [processed]. *)
Record clean_inv (pc : bool) (ls processed : list str)
  (state : list str * parser) : Prop := {
  ci_case : p_preserve_case (snd state) = pc;
  ci_interpolation : p_interpolation (snd state) = BasicInterpolation;
  ci_sections :
    sections (snd state)
    = filter (fun n => negb (is_default n))
        (map (clean_section_name pc) processed);
  ci_seen :
    forall n, In n (fst state) <-> In n (map (clean_section_name pc) processed);
  ci_nodup : NoDup (map (clean_section_name pc) processed);
  ci_pairs : pairs_inv pc ls (snd state);
  ci_empty_name : forall d, In ([], d) (_sections (snd state)) -> d = []
}.

(** The message of the duplicate profile error of [load_config]. *)
Definition duplicate_profile_message (clean_section : str) : str :=
  "Duplicate profile name '" ++ clean_section ++ "' found.".

(** The message of the duplicate key error of [load_config]. *)
Definition duplicate_key_message (clean_key clean_section : str) : str :=
  "Duplicate key '" ++ clean_key ++ "' found in section '"
    ++ clean_section ++ "'".

(** The message of the [ValueError] of [before_set]. *)
Definition invalid_interpolation_message (value : str) (position : nat)
  : str :=
  "invalid interpolation syntax in " ++ repr value ++ " at position "
    ++ format_d position.

(** The messages of the two [KeyError]s of the accessors. *)
Definition profile_not_found_message (profile_name : str) : str :=
  "Profile '" ++ profile_name ++ "' not found".

Definition key_not_found_message (key_name profile_name : str) : str :=
  "Key '" ++ key_name ++ "' not found in profile '" ++ profile_name ++ "'".

(** An exception of [configparser]'s own hierarchy. *)
Definition is_configparser_error (e : exn) : Prop :=
  exists ce, e = ConfigParserError ce.

(** The test file of the repository ([tests/conftest.py]). *)
Definition fixture : str :=
  text_of [""; "[profile1]"; "key1 = value1"; "key2 = value2"; "";
           "[profile2]"; "keyA = valueA"; "keyB = valueB"; "";
           "; This is a comment"; "# This is another comment"; "";
           "[profile3]"; "keyX = valueX"; "keyY = valueY"].

(** The handler of a construction that succeeded. *)
Definition handler_of (r : result ConfigHandler) : ConfigHandler :=
  match r with
  | Ok h => h
  | Raise _ => mkConfigHandler [] false (ConfigParser false)
  end.

(** The handler of the test file. *)
Definition fixture_handler (preserve_case : bool) : ConfigHandler :=
  handler_of
    (ConfigHandler_init (single_file "config.ini" fixture) "config.ini"
       preserve_case).

(** The line at which the parser raised an error on the spot. *)
Definition error_lineno (e : Error) : option nat :=
  match e with
  | DuplicateSectionError _ (Some n) => Some n
  | DuplicateOptionError _ _ n => Some n
  | MissingSectionHeaderError n _ => Some n
  | _ => None
  end.

(** [read_clean_lines] for lines that other lines follow: each of them
    ends with a line feed. *)
Fixpoint read_nl_lines (pc : bool) (st : read_state) (n : nat)
  (ls : list str) : result read_state :=
  match ls with
  | [] => Ok st
  | x :: r =>
      st' <- read_clean pc st n (x ++ [NL]) x ;;
      read_nl_lines pc st' (S n) r
  end.

(** The message of the parse error of [load_config]. *)
Definition parse_error_message (e : Error) : str :=
  "Error parsing config file: " ++ Error_str e.

(** ** Definitions for the round trip through [display_config] *)

(** The line [display_config] writes for one pair. *)
Definition render_entry (kv : str * str) : str := fst kv ++ " = " ++ snd kv.

(** The lines [display_config] writes for one profile. *)
Definition render_block (nm : str * dict str) : list str :=
  ("[" ++ fst nm ++ "]") :: map render_entry (snd nm) ++ [[]].

(** The list [config_str] of [display_config] for the configuration
    [G]. *)
Definition render_config (G : dict (dict str)) : list str :=
  flat_map render_block G.

(** The lines of a text after [rstrip]: the blank lines at the end are
    gone and the last line left is trimmed on the right. *)
Fixpoint trim_end (L : list str) : list str :=
  match L with
  | [] => []
  | x :: r =>
      match trim_end r with
      | [] => match rstrip x with [] => [] | x' => [x'] end
      | r' => x :: r'
      end
  end.

(** What a preprocessed line keeps of a line without line ends. *)
Definition line_text (l : str) : str := strip (cut_comment l).

Definition no_line_end (l : str) : Prop := ~ In NL l /\ ~ In CR l.

(** A pair that [display_config] writes and the parser reads back as it
    is. *)
Record entry_wf (pc : bool) (k v : str) : Prop := {
  ew_key_nonempty : k <> [];
  ew_key_trimmed : strip k = k;
  ew_key_case : optionxform pc k = k;
  ew_key_text : forallb text_char k = true;
  ew_key_no_delim : forallb (fun x => negb (is_delim x)) k = true;
  ew_value_trimmed : strip v = v;
  ew_value_text : forallb text_char v = true;
  ew_value_plain : has_char PERCENT v = false;
  ew_not_header : SECTCRE (strip (render_entry (k, v))) = None
}.

(** A profile name that [display_config] writes and the parser reads
    back as it is. *)
Record name_wf (pc : bool) (n : str) : Prop := {
  nw_nonempty : n <> [];
  nw_not_default : n <> default_section;
  nw_trimmed : strip n = n;
  nw_clean : clean_section_name pc n = n;
  nw_text : forallb text_char n = true
}.

Record config_wf (pc : bool) (G : dict (dict str)) : Prop := {
  cw_names : NoDup (dict_keys G);
  cw_name : forall n M, In (n, M) G -> name_wf pc n;
  cw_keys : forall n M, In (n, M) G -> NoDup (dict_keys M);
  cw_entry : forall n M k v, In (n, M) G -> In (k, v) M -> entry_wf pc k v
}.

(** The preprocessed lines of the text of [display_config]. *)
Definition clean_render (G : dict (dict str)) : list str :=
  flat_map (fun nm => ("[" ++ fst nm ++ "]")
                        :: map (fun kv => strip (render_entry kv)) (snd nm))
    G.

(** A value as [_read] keeps it while reading. *)
Definition box (kv : str * str) : str * list str := (fst kv, [snd kv]).

Definition box_section (nm : str * dict str) : str * dict (list str) :=
  (fst nm, map box (snd nm)).

(** The state of [_read] after the blocks of [done]. *)
Record rt_inv (done : dict (dict str)) (st : read_state) : Prop := {
  rt_defaults : rs_defaults st = [];
  rt_sections : rs_sections st = map box_section done;
  rt_options :
    forall n k, In (n, k) (rs_added_options st) ->
                exists M, In (n, M) done /\ In k (dict_keys M);
  rt_e : rs_e st = []
}.

(** The parser with the sections [G] and nothing in the default
    section. *)
Definition parser_of (pc : bool) (i : interpolation_kind)
  (G : dict (dict str)) : parser :=
  mkParser pc i [] G.

(** [read_clean] along lines, each given with the line as the stream
    has it. *)
Fixpoint read_tagged (pc : bool) (st : read_state) (n : nat)
  (xs : list (str * str)) : result read_state :=
  match xs with
  | [] => Ok st
  | lx :: r =>
      st' <- read_clean pc st n (fst lx) (snd lx) ;;
      read_tagged pc st' (S n) r
  end.

Fixpoint tag_lines (ls : list str) : list (str * str) :=
  match ls with
  | [] => []
  | x :: r => (match r with [] => x | _ => x ++ [NL] end, x) :: tag_lines r
  end.

(** The options of a profile as the accessors see them: the defaults
    overlaid with the options of the section. *)
Definition merged (p : parser) (section : str) : dict str :=
  match unify_values p section with
  | Ok m => m
  | Raise _ => []
  end.

(** The configuration of a handler whose values hold no percent sign:
    what [get_config] returns. *)
Definition config_of (h : ConfigHandler) : dict (dict str) :=
  map (fun n => (n, merged (config h) n)) (sections (config h)).

(** ** Definitions used to state further properties *)

(** A preprocessed line that is neither a section header nor an
    assignment with a key: it has no delimiter, or nothing but
    whitespace before the first one. *)
Definition malformed_line (l : str) : bool :=
  match SECTCRE l with
  | Some _ => false
  | None =>
      match OPTCRE l with
      | Some (optname, _) => negb (nonempty optname)
      | None => true
      end
  end.

(** What [before_set] of [BasicInterpolation] refuses: a percent sign
    that is left when the doubled percent signs and the references
    [%(name)s] are taken out. *)
Definition invalid_percent (value : str) : bool :=
  has_char PERCENT (KEYCRE_sub 0 (remove_escaped_percent value)).

(** The (key, value) pairs of the assignment lines that stand under a
    header [name], in the order of the lines and with the key under the
    case mode; [cur] is the header that the first line stands under. *)
Fixpoint entries_from (pc : bool) (name : str) (cur : option str)
  (ls : list str) : dict str :=
  match ls with
  | [] => []
  | l :: r =>
      match SECTCRE l with
      | Some h => entries_from pc name (Some h) r
      | None =>
          match cur, OPTCRE l with
          | Some c, Some (k0, v0) =>
              if str_eqb c name
              then (optionxform pc k0, v0) :: entries_from pc name cur r
              else entries_from pc name cur r
          | _, _ => entries_from pc name cur r
          end
      end
  end.

(** The pairs that the preprocessed lines [ls] write under the header
    [name]. *)
Definition section_entries (pc : bool) (name : str) (ls : list str)
  : dict str :=
  entries_from pc name None ls.

(** The configuration that the preprocessed lines [ls] write down: per
    header other than [DEFAULT], in the order of the lines, the
    normalized name with the pairs under [DEFAULT] overlaid by the
    pairs under the header. *)
Definition file_config (pc : bool) (ls : list str) : dict (dict str) :=
  map (fun s =>
         (clean_section_name pc s,
          dict_update (section_entries pc default_section ls)
            (section_entries pc s ls)))
    (filter (fun n => negb (is_default n)) (header_names ls)).

(** Every option held in the state of [_read] is recorded in
    [elements_added]. *)
Definition options_tracked (st : read_state) : Prop :=
  (forall k, In k (dict_keys (rs_defaults st)) ->
             In (default_section, k) (rs_added_options st))
  /\ forall s d k,
      In (s, d) (rs_sections st) -> In k (dict_keys d) ->
      In (s, k) (rs_added_options st).

(** A section of the state of [_read] with the pairs that the lines
    [ls] add to it, and a section that the lines [ls] open. *)
Definition extend_section (pc : bool) (cur : option str) (ls : list str)
  (sd : str * dict (list str)) : str * dict (list str) :=
  (fst sd, snd sd ++ map box (entries_from pc (fst sd) cur ls)).

Definition new_section (pc : bool) (cur : option str) (ls : list str)
  (s : str) : str * dict (list str) :=
  (s, map box (entries_from pc s cur ls)).

(** Every section header of the lines [ls] other than [DEFAULT] has a
    normalized name that is not empty and is not [DEFAULT]. *)
Definition ordinary_names (pc : bool) (ls : list str) : Prop :=
  forall s, In s (header_names ls) -> s <> default_section ->
            clean_section_name pc s <> []
            /\ clean_section_name pc s <> default_section.

(** The options of the section [s] of the parser of the lines [ls] as
    [items] gives them. *)
Definition file_items (pc : bool) (ls : list str) (s : str) : dict str :=
  dict_update (section_entries pc default_section ls)
    (section_entries pc s ls).

(** Every option recorded in [elements_added] is held in the state of
    [_read]. *)
Definition options_stored (st : read_state) : Prop :=
  forall s k,
    In (s, k) (rs_added_options st) ->
    if str_eqb s default_section
    then In k (dict_keys (rs_defaults st))
    else exists d, dict_get (rs_sections st) s = Some d /\ In k (dict_keys d).

(** The sections that [_read] holds once the lines [ls] are read from
    the state [st]. *)
Definition sections_after (pc : bool) (st : read_state) (ls : list str)
  : dict (dict (list str)) :=
  map (extend_section pc (rs_sectname st) ls) (rs_sections st)
    ++ map (new_section pc (rs_sectname st) ls)
         (filter (fun h => negb (is_default h)) (header_names ls)).

(** The default section likewise. *)
Definition defaults_after (pc : bool) (st : read_state) (ls : list str)
  : dict (list str) :=
  rs_defaults st
    ++ map box (entries_from pc default_section (rs_sectname st) ls).

(** No section and no option would be there twice. *)
Definition no_duplicates_after (pc : bool) (st : read_state)
  (ls : list str) : Prop :=
  NoDup (dict_keys (sections_after pc st ls))
  /\ (forall s d, In (s, d) (sections_after pc st ls) -> NoDup (dict_keys d))
  /\ NoDup (dict_keys (defaults_after pc st ls)).

(** The first line, if there is one, is a section header. *)
Definition starts_with_header (ls : list str) : bool :=
  match ls with
  | [] => true
  | l :: _ => match SECTCRE l with Some _ => true | None => false end
  end.

(** A text that construction accepts: it starts with a section header,
    every other line is an assignment with a key, the headers other
    than [DEFAULT] have ordinary normalized names that differ, and no
    key is set twice under one header. *)
Record valid_lines (pc : bool) (ls : list str) : Prop := {
  vl_start : starts_with_header ls = true;
  vl_lines : existsb malformed_line ls = false;
  vl_names :
    NoDup (map (clean_section_name pc)
             (filter (fun n => negb (is_default n)) (header_names ls)));
  vl_ordinary : ordinary_names pc ls;
  vl_keys :
    forall s, s = default_section \/ In s (header_names ls) ->
              NoDup (dict_keys (section_entries pc s ls))
}.



(** ** The default section *)

(** An error of the parser's interpolation. *)
Definition is_interpolation_error (e : exn) : Prop :=
  match e with
  | ConfigParserError (InterpolationMissingOptionError _ _ _ _)
  | ConfigParserError (InterpolationSyntaxError _ _ _)
  | ConfigParserError (InterpolationDepthError _ _ _) => True
  | _ => False
  end.

(** A header of the lines whose pairs [load_config] puts into the
    default section of the parser it keeps: its normalized name is
    empty or [DEFAULT]. *)
Definition default_like (pc : bool) (s : str) : Prop :=
  s <> default_section
  /\ (clean_section_name pc s = [] \/ clean_section_name pc s = default_section).

(** A file with a [DEFAULT] header and a header whose name is empty
    once it is trimmed. *)
Definition empty_name_file : str :=
  text_of ["[DEFAULT]"; "region = eu"; "[ ]"; "k = v"; "[a]"].

(** A file system with the fixture at one path and a directory at
    another. *)
Definition example_paths : filesystem :=
  fun p => if str_eqb p "config.ini" then TextFile fixture
           else if str_eqb p "a_directory"
                then Unreadable "IsADirectoryError"
                       "[Errno 21] Is a directory: 'a_directory'"
                else NoSuchPath.

(** ** Tactics *)

(** Case analysis on the eight bits of a character. *)
Ltac ascii_cases c :=
  destruct c as [[] [] [] [] [] [] [] []]; try reflexivity; try discriminate.

(** * Properties *)

(** ** Characters and strings *)

Lemma str_eqb_eq (a b : str) : str_eqb a b = true <-> a = b.
Proof.
  revert b; induction a as [|x a IH]; intros [|y b]; simpl; split;
    try congruence; try reflexivity.
  - intros H. apply andb_true_iff in H as [H1 H2].
    apply Ascii.eqb_eq in H1. apply IH in H2. congruence.
  - intros H. injection H as -> ->. rewrite Ascii.eqb_refl.
    simpl. now apply IH.
Qed.

Lemma str_eqb_refl (a : str) : str_eqb a a = true.
Proof. now apply str_eqb_eq. Qed.

Lemma str_eqb_neq (a b : str) : str_eqb a b = false <-> a <> b.
Proof.
  split.
  - intros H E. apply str_eqb_eq in E. congruence.
  - intros H. destruct (str_eqb a b) eqn:E; [|reflexivity].
    apply str_eqb_eq in E. contradiction.
Qed.

Lemma lower_char_idem (c : ascii) : lower_char (lower_char c) = lower_char c.
Proof. ascii_cases c. Qed.

Lemma isspace_lower_char (c : ascii) : isspace (lower_char c) = isspace c.
Proof. ascii_cases c. Qed.

Lemma text_char_lower_char (c : ascii) : text_char (lower_char c) = text_char c.
Proof. ascii_cases c. Qed.

Lemma is_delim_lower_char (c : ascii) : is_delim (lower_char c) = is_delim c.
Proof. ascii_cases c. Qed.

Lemma lower_idem (s : str) : lower (lower s) = lower s.
Proof.
  unfold lower. rewrite map_map. apply map_ext. apply lower_char_idem.
Qed.

Lemma optionxform_idem (pc : bool) (s : str) :
  optionxform pc (optionxform pc s) = optionxform pc s.
Proof. destruct pc; simpl; [reflexivity|apply lower_idem]. Qed.

(** ** Trimming *)

Lemma lstrip_idem (s : str) : lstrip (lstrip s) = lstrip s.
Proof.
  induction s as [|c r IH]; simpl; [reflexivity|].
  destruct (isspace c) eqn:E; [exact IH|]. simpl. now rewrite E.
Qed.

Lemma lstrip_app_single (y : str) (c : ascii) :
  lstrip (y ++ [c]) =
  match lstrip y with
  | [] => if isspace c then [] else [c]
  | l => l ++ [c]
  end.
Proof.
  induction y as [|x y IH]; simpl; [reflexivity|].
  destruct (isspace x); [exact IH|reflexivity].
Qed.

Lemma rstrip_nil : rstrip [] = [].
Proof. reflexivity. Qed.

Lemma rstrip_cons (c : ascii) (r : str) :
  rstrip (c :: r) =
  match rstrip r with
  | [] => if isspace c then [] else [c]
  | r' => c :: r'
  end.
Proof.
  unfold rstrip. simpl. rewrite lstrip_app_single.
  destruct (lstrip (rev r)) as [|x l] eqn:E; simpl.
  - destruct (isspace c); reflexivity.
  - rewrite rev_app_distr. simpl.
    destruct (rev l ++ [x]) eqn:E2; [|reflexivity].
    destruct (rev l); discriminate.
Qed.

Lemma rstrip_idem (s : str) : rstrip (rstrip s) = rstrip s.
Proof.
  unfold rstrip. rewrite rev_involutive, lstrip_idem. reflexivity.
Qed.

Lemma rstrip_lstripped (s : str) : lstrip s = s -> lstrip (rstrip s) = rstrip s.
Proof.
  destruct s as [|c r]; [reflexivity|].
  simpl. destruct (isspace c) eqn:E.
  - intros H. exfalso.
    assert (L : forall t, length (lstrip t) <= length t).
    { induction t as [|x t IH]; simpl; [lia|].
      destruct (isspace x); simpl; lia. }
    specialize (L r). rewrite H in L. simpl in L. lia.
  - intros _. rewrite rstrip_cons.
    destruct (rstrip r); rewrite ?E; simpl; rewrite ?E; reflexivity.
Qed.

Lemma strip_lstripped (s : str) : lstrip (strip s) = strip s.
Proof. unfold strip. apply rstrip_lstripped, lstrip_idem. Qed.

Lemma strip_rstripped (s : str) : rstrip (strip s) = strip s.
Proof. unfold strip. apply rstrip_idem. Qed.

Lemma strip_trimmed (s : str) : lstrip s = s -> rstrip s = s -> strip s = s.
Proof. unfold strip. intros -> ->. reflexivity. Qed.

Lemma strip_idem (s : str) : strip (strip s) = strip s.
Proof. apply strip_trimmed; [apply strip_lstripped|apply strip_rstripped]. Qed.

Lemma lstrip_incl (s : str) (c : ascii) : In c (lstrip s) -> In c s.
Proof.
  induction s as [|x r IH]; simpl; [tauto|].
  destruct (isspace x); simpl; tauto.
Qed.

Lemma rstrip_incl (s : str) (c : ascii) : In c (rstrip s) -> In c s.
Proof.
  unfold rstrip. rewrite <- in_rev. intros H.
  apply lstrip_incl in H. now apply in_rev.
Qed.

Lemma strip_incl (s : str) (c : ascii) : In c (strip s) -> In c s.
Proof. unfold strip. intros H. now apply lstrip_incl, rstrip_incl. Qed.

Lemma forallb_incl {A} (f : A -> bool) (s t : list A) :
  (forall c, In c t -> In c s) -> forallb f s = true -> forallb f t = true.
Proof.
  intros H Hs. apply forallb_forall. intros c Hc.
  eapply forallb_forall in Hs; eauto.
Qed.

Lemma forallb_strip (f : ascii -> bool) (s : str) :
  forallb f s = true -> forallb f (strip s) = true.
Proof. apply forallb_incl, strip_incl. Qed.

Lemma forallb_rstrip (f : ascii -> bool) (s : str) :
  forallb f s = true -> forallb f (rstrip s) = true.
Proof. apply forallb_incl, rstrip_incl. Qed.

Lemma forallb_lstrip (f : ascii -> bool) (s : str) :
  forallb f s = true -> forallb f (lstrip s) = true.
Proof. apply forallb_incl, lstrip_incl. Qed.

Lemma lstrip_spaces (w s : str) :
  forallb isspace w = true -> lstrip (w ++ s) = lstrip s.
Proof.
  induction w as [|c w IH]; simpl; [reflexivity|].
  intros H. apply andb_true_iff in H as [-> H]. now apply IH.
Qed.

Lemma lstrip_all_space (w : str) : forallb isspace w = true -> lstrip w = [].
Proof.
  intros H. rewrite <- (app_nil_r w). now rewrite lstrip_spaces.
Qed.

Lemma rstrip_spaces (s w : str) :
  forallb isspace w = true -> rstrip (s ++ w) = rstrip s.
Proof.
  intros H. unfold rstrip. rewrite rev_app_distr, lstrip_spaces; [reflexivity|].
  apply forallb_forall. intros c Hc. apply in_rev in Hc.
  eapply forallb_forall in H; eauto.
Qed.

Lemma strip_spaces_r (s w : str) :
  forallb isspace w = true -> strip (s ++ w) = strip s.
Proof.
  intros H. unfold strip.
  induction s as [|c s IH]; simpl.
  - rewrite (lstrip_all_space w H). reflexivity.
  - destruct (isspace c); [exact IH|].
    change (c :: s ++ w) with ((c :: s) ++ w). now apply rstrip_spaces.
Qed.

Lemma strip_spaces_l (w s : str) :
  forallb isspace w = true -> strip (w ++ s) = strip s.
Proof. intros H. unfold strip. now rewrite lstrip_spaces. Qed.

Lemma strip_all_space (w : str) : forallb isspace w = true -> strip w = [].
Proof. intros H. unfold strip. now rewrite lstrip_all_space. Qed.

Lemma strip_nil_all_space (s : str) : strip s = [] -> forallb isspace s = true.
Proof.
  unfold strip. induction s as [|c s IH]; simpl; [reflexivity|].
  destruct (isspace c) eqn:E; [exact IH|].
  rewrite rstrip_cons. destruct (rstrip s); [rewrite E|]; discriminate.
Qed.

Lemma lstrip_decompose (s : str) :
  exists w, forallb isspace w = true /\ s = w ++ lstrip s.
Proof.
  induction s as [|c s [w [Hw Hs]]]; simpl.
  - exists []. split; reflexivity.
  - destruct (isspace c) eqn:E.
    + exists (c :: w). simpl. rewrite E, Hw. split; [reflexivity|congruence].
    + exists []. split; reflexivity.
Qed.

Lemma lstrip_eq_hd (s : str) :
  lstrip s = s <-> match s with [] => True | c :: _ => isspace c = false end.
Proof.
  destruct s as [|c r]; simpl; [tauto|].
  destruct (isspace c) eqn:E; split; try congruence; try reflexivity.
  intros H. exfalso.
  destruct (lstrip_decompose r) as [w [_ Hw]].
  assert (L : length r = length w + length (lstrip r))
    by (rewrite Hw at 1; apply length_app).
  rewrite H in L. simpl in L. lia.
Qed.

(** ** Lines of a text *)

Lemma eol_spaces (e : str) : eol e -> forallb isspace e = true.
Proof. intros [-> | ->]; reflexivity. Qed.

Lemma iter_lines_shape (s : str) :
  Forall (fun l => l <> [] /\ exists b e, l = b ++ e /\ ~ In NL b /\ eol e)
    (iter_lines s).
Proof.
  induction s as [|c s IH]; simpl; [constructor|].
  destruct (Ascii.eqb c NL) eqn:E.
  - constructor; [|exact IH]. split; [discriminate|].
    exists [], [NL]. repeat split; [tauto|now right].
  - apply Ascii.eqb_neq in E.
    destruct (iter_lines s) as [|l ls].
    + constructor; [|constructor]. split; [discriminate|].
      exists [c], []. repeat split; [|now left].
      simpl. intros [H|[]]. congruence.
    + inversion IH as [|? ? [_ [b [e [-> [Hb He]]]]] Hls]; subst.
      constructor; [|exact Hls]. split; [discriminate|].
      exists (c :: b), e. repeat split; [|exact He].
      simpl. intros [H|H]; [congruence|tauto].
Qed.

Lemma iter_lines_incl (s l : str) (c : ascii) :
  In l (iter_lines s) -> In c l -> In c s.
Proof.
  revert l; induction s as [|x s IH]; simpl; intros l; [tauto|].
  destruct (Ascii.eqb x NL) eqn:E.
  - apply Ascii.eqb_eq in E. subst x.
    intros [<-|H] Hc; [simpl in Hc; tauto|]. right. eauto.
  - destruct (iter_lines s) as [|l0 ls].
    + intros [<-|[]] Hc. simpl in Hc. tauto.
    + intros [<-|H] Hc.
      * destruct Hc as [Hc|Hc]; [now left|]. right.
        apply (IH l0); [now left|exact Hc].
      * right. apply (IH l); [now right|exact Hc].
Qed.

Lemma universal_newlines_no_cr (s : str) : ~ In CR (universal_newlines s).
Proof.
  assert (G : forall n s, length s <= n -> ~ In CR (universal_newlines s)).
  { induction n as [|n IH]; intros [|c r] L; simpl in *;
      try tauto; try lia.
    destruct (Ascii.eqb c CR) eqn:E.
    - destruct r as [|c' r']; simpl.
      + intros [H|[]]. discriminate.
      + destruct (Ascii.eqb c' NL).
        * intros [H|H]; [discriminate|].
          revert H. apply IH. simpl in L. lia.
        * intros [H|H]; [discriminate|].
          apply (IH (c' :: r')); [simpl in *; lia|exact H].
    - apply Ascii.eqb_neq in E. intros [H|H]; [congruence|].
      revert H. apply IH. lia. }
  eapply G. reflexivity.
Qed.

(** ** The regular expressions of the preprocessor on one line *)

Lemma dot_star_eol_shape (b e : str) :
  ~ In NL b -> eol e -> dot_star_eol (b ++ e) = Some e.
Proof.
  intros Hb He. induction b as [|c b IH]; simpl.
  - destruct He as [-> | ->]; reflexivity.
  - destruct (Ascii.eqb c NL) eqn:E.
    + apply Ascii.eqb_eq in E. subst. simpl in Hb. tauto.
    + apply IH. simpl in Hb. tauto.
Qed.

Lemma cut_at_incl (p : ascii) (s : str) (c : ascii) :
  In c (cut_at p s) -> In c s.
Proof.
  induction s as [|x s IH]; simpl; [tauto|].
  destruct (Ascii.eqb x p); simpl; tauto.
Qed.

Lemma re_sub_shape (p : ascii) (b e : str) :
  p <> NL -> ~ In NL b -> eol e ->
  re_sub_to_eol p (b ++ e) = cut_at p b ++ e.
Proof.
  intros Hp Hb He. induction b as [|c b IH]; simpl.
  - destruct He as [-> | ->]; [reflexivity|].
    cbn [app re_sub_to_eol].
    destruct (Ascii.eqb NL p) eqn:E; [|reflexivity].
    apply Ascii.eqb_eq in E. congruence.
  - simpl in Hb. destruct (Ascii.eqb c p).
    + rewrite dot_star_eol_shape; tauto.
    + simpl. f_equal. apply IH. tauto.
Qed.

Lemma cut_at_twice (b : str) :
  cut_at "#"%char (cut_at ";"%char b) = cut_comment b.
Proof.
  induction b as [|c b IH]; simpl; [reflexivity|].
  unfold is_comment_char.
  destruct (Ascii.eqb c ";"%char) eqn:E1; simpl.
  - rewrite orb_true_r. reflexivity.
  - rewrite orb_false_r. destruct (Ascii.eqb c "#"%char); [reflexivity|].
    now rewrite IH.
Qed.

Lemma preprocess_line_shape (b e : str) :
  ~ In NL b -> eol e -> preprocess_line (b ++ e) = strip (cut_comment b).
Proof.
  intros Hb He. unfold preprocess_line.
  rewrite re_sub_shape by (try discriminate; assumption).
  rewrite re_sub_shape; try discriminate; try assumption.
  - rewrite cut_at_twice. apply strip_spaces_r, eol_spaces, He.
  - intros H. apply cut_at_incl in H. tauto.
Qed.

Lemma cut_comment_app_eol (b e : str) :
  eol e -> exists e', eol e' /\ cut_comment (b ++ e) = cut_comment b ++ e'.
Proof.
  intros He. induction b as [|c b [e' [He' IH]]]; simpl.
  - exists e. split; [exact He|]. destruct He as [-> | ->]; reflexivity.
  - destruct (is_comment_char c).
    + exists []. split; [now left|reflexivity].
    + exists e'. split; [exact He'|]. now rewrite IH.
Qed.

Lemma spec_line_shape (b e : str) :
  eol e -> strip (cut_comment (b ++ e)) = strip (cut_comment b).
Proof.
  intros He. destruct (cut_comment_app_eol b e He) as [e' [He' ->]].
  apply strip_spaces_r, eol_spaces, He'.
Qed.

Lemma cut_comment_incl (s : str) (c : ascii) : In c (cut_comment s) -> In c s.
Proof.
  induction s as [|x s IH]; simpl; [tauto|].
  destruct (is_comment_char x); simpl; tauto.
Qed.

Lemma cut_comment_free (s : str) :
  forallb (fun c => negb (is_comment_char c)) (cut_comment s) = true.
Proof.
  induction s as [|x s IH]; simpl; [reflexivity|].
  destruct (is_comment_char x) eqn:E; simpl; [reflexivity|].
  now rewrite E, IH.
Qed.

(** ** The loop of [preprocess_file] *)

Lemma preprocess_fold (ls acc : list str) :
  fold_left preprocess_step ls acc
  = acc ++ filter nonempty (map preprocess_line ls).
Proof.
  revert acc; induction ls as [|l ls IH]; intros acc; simpl.
  - now rewrite app_nil_r.
  - rewrite IH. unfold preprocess_step. fold (preprocess_line l).
    destruct (nonempty (preprocess_line l)); [|reflexivity].
    now rewrite <- app_assoc.
Qed.

Lemma processed_lines_of_eq (content : str) :
  processed_lines_of content
  = filter nonempty (map preprocess_line (readlines content)).
Proof. unfold processed_lines_of. now rewrite preprocess_fold. Qed.

Lemma preprocess_line_spec (content line : str) :
  In line (readlines content) ->
  preprocess_line line = strip (cut_comment line).
Proof.
  intros H. unfold readlines in H.
  pose proof (iter_lines_shape (universal_newlines content)) as S.
  rewrite Forall_forall in S.
  destruct (S _ H) as [_ [b [e [-> [Hb He]]]]].
  rewrite preprocess_line_shape, spec_line_shape; auto.
Qed.

Lemma processed_lines_clean (content : str) :
  Forall clean_line (processed_lines_of content).
Proof.
  rewrite processed_lines_of_eq. apply Forall_forall. intros p Hp.
  apply filter_In in Hp as [Hp Hne]. apply in_map_iff in Hp as [l [<- Hl]].
  pose proof (iter_lines_shape (universal_newlines content)) as S.
  rewrite Forall_forall in S. unfold readlines in Hl.
  destruct (S _ Hl) as [_ [b [e [-> [Hb He]]]]].
  rewrite preprocess_line_shape in * by assumption.
  repeat split.
  - destruct (strip (cut_comment b)); [discriminate|congruence].
  - apply strip_lstripped.
  - apply strip_rstripped.
  - apply forallb_strip. apply forallb_forall. intros c Hc.
    unfold text_char. rewrite !andb_true_iff, !negb_true_iff. repeat split.
    + apply Ascii.eqb_neq. intros ->. apply cut_comment_incl in Hc. tauto.
    + apply Ascii.eqb_neq. intros ->. apply cut_comment_incl in Hc.
      apply (universal_newlines_no_cr content).
      eapply iter_lines_incl; [exact Hl|]. apply in_or_app. now left.
    + pose proof (cut_comment_free b) as F.
      rewrite forallb_forall in F. apply F in Hc.
      now apply negb_true_iff in Hc.
Qed.

(** ** Reading the preprocessed text back as lines *)

Lemma iter_lines_single (x : str) :
  x <> [] -> ~ In NL x -> iter_lines x = [x].
Proof.
  induction x as [|c x IH]; [congruence|]. intros _ H. simpl in *.
  destruct (Ascii.eqb c NL) eqn:E.
  - apply Ascii.eqb_eq in E. subst. tauto.
  - destruct x as [|c' x']; [reflexivity|].
    rewrite IH; [reflexivity|discriminate|tauto].
Qed.

Lemma iter_lines_app_nl (x rest : str) :
  ~ In NL x -> iter_lines (x ++ NL :: rest) = (x ++ [NL]) :: iter_lines rest.
Proof.
  induction x as [|c x IH]; intros H; simpl in *; [reflexivity|].
  destruct (Ascii.eqb c NL) eqn:E.
  - apply Ascii.eqb_eq in E. subst. tauto.
  - rewrite IH by tauto. reflexivity.
Qed.

Lemma text_char_not_nl (l : str) : forallb text_char l = true -> ~ In NL l.
Proof.
  intros H Hin. eapply forallb_forall in H; [|exact Hin]. discriminate.
Qed.

Lemma text_char_not_cr (l : str) : forallb text_char l = true -> ~ In CR l.
Proof.
  intros H Hin. eapply forallb_forall in H; [|exact Hin]. discriminate.
Qed.

Lemma iter_lines_join (ls : list str) :
  Forall clean_line ls -> iter_lines (join [NL] ls) = with_newlines ls.
Proof.
  induction 1 as [|x r [Hne [_ [_ Hc]]] Hr IH]; [reflexivity|].
  destruct r as [|y r'].
  - apply iter_lines_single; [exact Hne|now apply text_char_not_nl].
  - change (join [NL] (x :: y :: r'))
      with (x ++ NL :: join [NL] (y :: r')).
    change (with_newlines (x :: y :: r'))
      with ((x ++ [NL]) :: with_newlines (y :: r')).
    rewrite iter_lines_app_nl by now apply text_char_not_nl.
    now rewrite IH.
Qed.

Lemma with_newlines_shape (ls : list str) :
  Forall clean_line ls ->
  Forall (fun line => exists x e, line = x ++ e /\ clean_line x /\ eol e)
    (with_newlines ls).
Proof.
  induction 1 as [|x r Hx Hr IH]; simpl; [constructor|].
  destruct r as [|y r'].
  - constructor; [|constructor]. exists x, []. rewrite app_nil_r.
    repeat split; try apply Hx. now left.
  - constructor; [|exact IH]. exists x, [NL]. repeat split; try apply Hx.
    now right.
Qed.

(** ** [_read] on preprocessed text *)

Lemma isspace_not_comment (c : ascii) :
  isspace c = true -> is_comment_char c = false.
Proof. ascii_cases c. Qed.

Lemma text_char_not_comment (c : ascii) :
  text_char c = true -> is_comment_char c = false.
Proof.
  unfold text_char. rewrite !andb_true_iff, !negb_true_iff. tauto.
Qed.

Lemma clean_line_strip (x e : str) :
  clean_line x -> eol e -> strip (x ++ e) = x.
Proof.
  intros [_ [Hl [Hr _]]] He.
  rewrite strip_spaces_r by now apply eol_spaces.
  now apply strip_trimmed.
Qed.

Lemma clean_line_first_nonspace (x e : str) :
  clean_line x -> first_nonspace (x ++ e) = Some 0.
Proof.
  intros [Hne [Hl _]]. destruct x as [|c x]; [congruence|].
  apply lstrip_eq_hd in Hl. simpl. now rewrite Hl.
Qed.

Lemma clean_line_not_comment (x : str) :
  clean_line x -> starts_with_comment x = false.
Proof.
  intros [Hne [_ [_ Hc]]]. destruct x as [|c x]; [reflexivity|].
  simpl in *. apply andb_true_iff in Hc as [Hc _].
  now apply text_char_not_comment.
Qed.

Lemma open_option_sectname (st : read_state) (s o : str) :
  open_option st = Some (s, o) -> rs_sectname st = Some s.
Proof.
  unfold open_option. destruct (rs_sectname st), (rs_optname st);
    try discriminate.
  destruct (nonempty _); [|discriminate]. congruence.
Qed.

Lemma read_line_clean (pc : bool) (st : read_state) (n : nat) (x e : str) :
  clean_line x -> eol e ->
  read_line pc st n (x ++ e) = read_clean pc st n (x ++ e) x.
Proof.
  intros Hx He. unfold read_line, read_clean.
  rewrite (clean_line_strip x e Hx He), (clean_line_not_comment x Hx).
  rewrite (clean_line_first_nonspace x e Hx).
  destruct Hx as [Hne _].
  destruct x as [|c x]; [congruence|]. cbn [nonempty negb].
  destruct (open_option st) as [[s o]|] eqn:E; [|reflexivity].
  apply open_option_sectname in E. rewrite E.
  replace (rs_indent_level st <? 0) with false
    by (symmetry; apply Nat.ltb_ge; lia).
  reflexivity.
Qed.

Lemma read_lines_clean (pc : bool) (ls : list str) :
  Forall clean_line ls ->
  forall st n,
    read_lines pc st n (with_newlines ls) = read_clean_lines pc st n ls.
Proof.
  induction 1 as [|x r Hx Hr IH]; intros st n; [reflexivity|].
  destruct r as [|y r'].
  - cbn [with_newlines read_lines read_clean_lines].
    rewrite <- (app_nil_r x) at 1.
    rewrite read_line_clean; [|exact Hx|now left].
    rewrite app_nil_r. reflexivity.
  - change (with_newlines (x :: y :: r'))
      with ((x ++ [NL]) :: with_newlines (y :: r')).
    cbn [read_lines read_clean_lines].
    rewrite read_line_clean; [|exact Hx|now right].
    destruct (read_clean pc st n (x ++ [NL]) x); simpl; [apply IH|reflexivity].
Qed.

Lemma read_string_preprocessed (pc : bool) (content : str) :
  read_string pc (preprocess_file content)
  = (st <- read_clean_lines pc read_state_init 1 (processed_lines_of content) ;;
     match rs_e st with
     | [] => Ok (mkParser pc NoInterpolation
                   (join_values (rs_defaults st))
                   (map (fun so => (fst so, join_values (snd so)))
                      (rs_sections st)))
     | errors => Raise (ConfigParserError (ParsingError errors))
     end).
Proof.
  unfold read_string, _read, preprocess_file.
  rewrite iter_lines_join by apply processed_lines_clean.
  rewrite read_lines_clean by apply processed_lines_clean.
  reflexivity.
Qed.

(** ** The preprocessor *)

(** C6: preprocessing works line by line: it removes the suffix that
    starts at the first [;] or [#] wherever it stands (also inside a
    quoted value), trims the line, discards it when nothing is left, and
    joins the surviving lines with line feeds in their order.  The line
    [keyA = valueA ; trailing comment] becomes [keyA = valueA]. *)
Theorem preprocess_file_as_specified :
  (forall content, preprocess_file content = preprocess_spec content)
  /\ preprocess_file "keyA = valueA ; trailing comment" = "keyA = valueA"
  /\ preprocess_file "key = 'a#b' and more" = "key = 'a".
Proof.
  split; [|split; reflexivity].
  intros content. unfold preprocess_file, preprocess_spec.
  rewrite processed_lines_of_eq. do 2 f_equal.
  apply map_ext_in. intros line H.
  now apply preprocess_line_spec with (content := content).
Qed.

Lemma cut_comment_spaces (w : str) :
  forallb isspace w = true ->
  forall c r, is_comment_char c = true -> cut_comment (w ++ c :: r) = w.
Proof.
  intros Hw c r Hc. induction w as [|x w IH]; simpl.
  - now rewrite Hc.
  - simpl in Hw. apply andb_true_iff in Hw as [Hx Hw].
    rewrite (isspace_not_comment x Hx). f_equal. now apply IH.
Qed.

Lemma cut_comment_all_space (w : str) :
  forallb isspace w = true -> cut_comment w = w.
Proof.
  induction w as [|x w IH]; simpl; [reflexivity|].
  intros Hw. apply andb_true_iff in Hw as [Hx Hw].
  rewrite (isspace_not_comment x Hx). f_equal. now apply IH.
Qed.

Lemma blank_or_comment_gone (line : str) :
  blank_or_comment line = true -> strip (cut_comment line) = [].
Proof.
  unfold blank_or_comment. intros H.
  destruct (lstrip_decompose line) as [w [Hw E]].
  destruct (lstrip line) as [|c r].
  - rewrite app_nil_r in E. subst line.
    rewrite cut_comment_all_space by exact Hw. now apply strip_all_space.
  - rewrite E, cut_comment_spaces by assumption. now apply strip_all_space.
Qed.

Lemma blank_file_no_lines (content : str) :
  forallb blank_or_comment (readlines content) = true ->
  processed_lines_of content = [].
Proof.
  intros H. rewrite processed_lines_of_eq.
  assert (G : forall ls, (forall l, In l ls -> In l (readlines content)) ->
              filter nonempty (map preprocess_line ls) = []).
  { induction ls as [|l ls IH]; intros Hin; [reflexivity|]. simpl.
    rewrite (preprocess_line_spec content l) by (apply Hin; now left).
    rewrite blank_or_comment_gone.
    - apply IH. intros l' Hl'. apply Hin. now right.
    - eapply forallb_forall in H; [exact H|]. apply Hin. now left. }
  apply G. auto.
Qed.

(** C10: an existing file of blank lines and comment lines only makes
    the empty configuration: construction succeeds, [list_profiles]
    gives the empty list, [get_config] the empty mapping and
    [display_config] the empty text. *)
Theorem blank_file_gives_empty_config
  (fs : filesystem) (path content : str) (pc : bool) :
  fs path = TextFile content ->
  forallb blank_or_comment (readlines content) = true ->
  exists h,
    ConfigHandler_init fs path pc = Ok h
    /\ list_profiles h = []
    /\ get_config h = Ok []
    /\ display_config h = Ok [].
Proof.
  intros Hfs Hblank.
  exists (mkConfigHandler path pc (ConfigParser pc)).
  unfold ConfigHandler_init, load_config. rewrite Hfs.
  unfold load_config_try. rewrite read_string_preprocessed.
  rewrite (blank_file_no_lines content Hblank).
  repeat split.
Qed.

Lemma blank_file_gives_empty_config_witness :
  exists h,
    ConfigHandler_init
      (single_file "config.ini"
         (text_of ["# only a comment"; ""; "   ; and another"]))
      "config.ini" false = Ok h
    /\ list_profiles h = []
    /\ get_config h = Ok []
    /\ display_config h = Ok [].
Proof.
  apply blank_file_gives_empty_config with
    (content := text_of ["# only a comment"; ""; "   ; and another"]);
    reflexivity.
Defined.

(** ** Text before the first section header *)

(** C3: when the preprocessed text has an assignment line (a line with
    a [=] or [:] delimiter that is not a section header) and no section
    header before it, construction fails with the parse error: a
    [ValueError] whose message is the prefix of [load_config] followed
    by the message of the parser's own error, here the missing section
    header error for the first line of the text. *)
Theorem assignment_before_header_fails
  (fs : filesystem) (path content : str) (pc : bool)
  (before : list str) (l : str) (after : list str) :
  fs path = TextFile content ->
  processed_lines_of content = before ++ l :: after ->
  Forall (fun x => SECTCRE x = None) before ->
  SECTCRE l = None ->
  existsb is_delim l = true ->
  exists line,
    hd_error (iter_lines (preprocess_file content)) = Some line
    /\ ConfigHandler_init fs path pc
       = Raise (ValueError
                  ("Error parsing config file: "
                     ++ Error_str (MissingSectionHeaderError 1 line))).
Proof.
  intros Hfs Hlines Hbefore Hl _.
  assert (F : exists f rest,
             processed_lines_of content = f :: rest /\ SECTCRE f = None).
  { rewrite Hlines. destruct before as [|f before'].
    - exists l, after. split; [reflexivity|exact Hl].
    - exists f, (before' ++ l :: after). split; [reflexivity|].
      now inversion Hbefore. }
  destruct F as [f [rest [Hf Hsect]]].
  exists (match rest with [] => f | _ => f ++ [NL] end).
  unfold ConfigHandler_init, load_config. rewrite Hfs.
  unfold load_config_try. rewrite read_string_preprocessed.
  unfold preprocess_file.
  rewrite iter_lines_join by apply processed_lines_clean.
  rewrite Hf. split.
  - destruct rest; reflexivity.
  - cbn [read_clean_lines]. unfold read_clean. rewrite Hsect.
    reflexivity.
Qed.

Lemma assignment_before_header_fails_witness :
  exists line,
    hd_error (iter_lines (preprocess_file (text_of ["key = value"; "[a]"])))
    = Some line
    /\ ConfigHandler_init
         (single_file "config.ini" (text_of ["key = value"; "[a]"]))
         "config.ini" false
       = Raise (ValueError
                  ("Error parsing config file: "
                     ++ Error_str (MissingSectionHeaderError 1 line))).
Proof.
  apply assignment_before_header_fails with
    (content := text_of ["key = value"; "[a]"])
    (before := []) (l := "key = value") (after := ["[a]" : str]);
    try reflexivity.
  constructor.
Defined.

(** ** Dictionaries *)

Section Dict.
Context {V : Type}.
Implicit Types (d : dict V) (k : str) (v : V).

Lemma dict_mem_keys d k : dict_mem d k = true <-> In k (dict_keys d).
Proof.
  unfold dict_mem. induction d as [|[k' v'] d IH]; simpl.
  - split; [discriminate|tauto].
  - destruct (str_eqb k' k) eqn:E.
    + apply str_eqb_eq in E. split; [now left|reflexivity].
    + apply str_eqb_neq in E. rewrite IH. split; [now right|].
      intros [H|H]; [contradiction|exact H].
Qed.

Lemma dict_mem_false d k : dict_mem d k = false <-> ~ In k (dict_keys d).
Proof.
  rewrite <- dict_mem_keys. destruct (dict_mem d k); split; congruence.
Qed.

Lemma dict_get_in d k v : dict_get d k = Some v -> In (k, v) d.
Proof.
  induction d as [|[k' v'] d IH]; simpl; [discriminate|].
  destruct (str_eqb k' k) eqn:E.
  - apply str_eqb_eq in E. intros H. left. congruence.
  - intros H. right. now apply IH.
Qed.

Lemma dict_get_mem d k v : dict_get d k = Some v -> dict_mem d k = true.
Proof. unfold dict_mem. now intros ->. Qed.

Lemma dict_get_none d k : dict_get d k = None <-> dict_mem d k = false.
Proof. unfold dict_mem. destruct (dict_get d k); split; congruence. Qed.

Lemma in_dict_get d k v :
  NoDup (dict_keys d) -> In (k, v) d -> dict_get d k = Some v.
Proof.
  induction d as [|[k' v'] d IH]; simpl; [tauto|].
  intros N [H|H].
  - injection H as -> ->. now rewrite str_eqb_refl.
  - inversion N as [|? ? Hn N']; subst.
    destruct (str_eqb k' k) eqn:E.
    + apply str_eqb_eq in E. subst. exfalso. apply Hn.
      change k with (fst (k, v)). now apply in_map.
    + now apply IH.
Qed.

Lemma dict_keys_set d k v :
  dict_keys (dict_set d k v)
  = if dict_mem d k then dict_keys d else dict_keys d ++ [k].
Proof.
  unfold dict_mem. induction d as [|[k' v'] d IH]; simpl; [reflexivity|].
  destruct (str_eqb k' k) eqn:E; simpl; [reflexivity|].
  rewrite IH. destruct (dict_get d k); reflexivity.
Qed.

Lemma dict_set_in d k v k' v' :
  In (k', v') (dict_set d k v) -> (k' = k /\ v' = v) \/ In (k', v') d.
Proof.
  induction d as [|[k0 v0] d IH]; simpl.
  - intros [H|[]]. left. split; congruence.
  - destruct (str_eqb k0 k) eqn:E.
    + apply str_eqb_eq in E. subst. intros [H|H].
      * left. split; congruence.
      * right. now right.
    + intros [H|H]; [right; now left|].
      destruct (IH H) as [H'|H']; [now left|right; now right].
Qed.

Lemma dict_set_nodup d k v :
  NoDup (dict_keys d) -> NoDup (dict_keys (dict_set d k v)).
Proof.
  intros N. rewrite dict_keys_set.
  destruct (dict_mem d k) eqn:E; [exact N|].
  apply dict_mem_false in E.
  apply NoDup_app; [exact N|repeat constructor; tauto|].
  intros x Hx [<-|[]]. contradiction.
Qed.

Lemma dict_get_set_same d k v : dict_get (dict_set d k v) k = Some v.
Proof.
  induction d as [|[k0 v0] d IH]; simpl.
  - now rewrite str_eqb_refl.
  - destruct (str_eqb k0 k) eqn:E; simpl; rewrite E; [reflexivity|exact IH].
Qed.

Lemma dict_get_set_other d k v k' :
  k' <> k -> dict_get (dict_set d k v) k' = dict_get d k'.
Proof.
  intros N. induction d as [|[k0 v0] d IH]; simpl.
  - assert (E : str_eqb k k' = false) by (apply str_eqb_neq; congruence).
    now rewrite E.
  - destruct (str_eqb k0 k) eqn:E; simpl.
    + apply str_eqb_eq in E. subst.
      assert (E : str_eqb k k' = false) by (apply str_eqb_neq; congruence).
      now rewrite E.
    + now rewrite IH.
Qed.

Lemma dict_mem_set d k v k' :
  dict_mem (dict_set d k v) k' = str_eqb k k' || dict_mem d k'.
Proof.
  unfold dict_mem. destruct (str_eqb k k') eqn:E.
  - apply str_eqb_eq in E. subst. now rewrite dict_get_set_same.
  - apply str_eqb_neq in E. rewrite dict_get_set_other by congruence.
    reflexivity.
Qed.

Lemma dict_mem_app d d' k :
  dict_mem (d ++ d') k = dict_mem d k || dict_mem d' k.
Proof.
  unfold dict_mem. induction d as [|[k0 v0] d IH]; simpl; [reflexivity|].
  destruct (str_eqb k0 k); [reflexivity|exact IH].
Qed.

Lemma dict_get_app_fresh d k v k' :
  dict_mem d k = false ->
  dict_get (d ++ [(k, v)]) k' = if str_eqb k k' then Some v else dict_get d k'.
Proof.
  unfold dict_mem. induction d as [|[k0 v0] d IH]; simpl; [reflexivity|].
  destruct (str_eqb k0 k) eqn:E; [discriminate|]. intros H.
  destruct (str_eqb k0 k') eqn:E'.
  - apply str_eqb_eq in E'. subst. apply str_eqb_neq in E.
    destruct (str_eqb k k') eqn:E2; [|reflexivity].
    apply str_eqb_eq in E2. congruence.
  - now apply IH.
Qed.
End Dict.

Lemma set_mem_in (x : str) (s : list str) : set_mem x s = true <-> In x s.
Proof.
  unfold set_mem. rewrite existsb_exists. split.
  - intros [y [Hy E]]. apply str_eqb_eq in E. now subst.
  - intros H. exists x. split; [exact H|apply str_eqb_refl].
Qed.

Lemma set_mem_false (x : str) (s : list str) : set_mem x s = false <-> ~ In x s.
Proof.
  rewrite <- set_mem_in. destruct (set_mem x s); split; congruence.
Qed.

Lemma pair_mem_in (x : str * str) (s : list (str * str)) :
  pair_mem x s = true <-> In x s.
Proof.
  unfold pair_mem. rewrite existsb_exists. split.
  - intros [[a b] [Hy E]]. apply andb_true_iff in E as [E1 E2].
    apply str_eqb_eq in E1, E2. simpl in *. destruct x. simpl in *.
    now subst.
  - intros H. exists x. split; [exact H|].
    now rewrite !str_eqb_refl.
Qed.

(** ** The option pattern on a clean line *)

Lemma split_delim_app (s a b : str) :
  split_delim s = Some (a, b) ->
  exists c, is_delim c = true /\ s = a ++ c :: b
            /\ forallb (fun x => negb (is_delim x)) a = true.
Proof.
  revert a b; induction s as [|x s IH]; intros a b; simpl; [discriminate|].
  destruct (is_delim x) eqn:E.
  - intros H. injection H as <- <-. exists x. auto.
  - destruct (split_delim s) as [[a' b']|]; [|discriminate].
    intros H. injection H as <- <-.
    destruct (IH a' b' eq_refl) as [c [Hc [-> Ha]]].
    exists c. simpl. rewrite E. auto.
Qed.

Lemma rstrip_suffix (a b : str) : rstrip (a ++ b) = a ++ b -> rstrip b = b.
Proof.
  induction a as [|c a IH]; simpl; [tauto|].
  rewrite rstrip_cons. intros H. apply IH.
  destruct (rstrip (a ++ b)) eqn:E.
  - destruct (isspace c); [discriminate|]. injection H as H. now rewrite <- H.
  - now injection H.
Qed.

Lemma lstrip_suffix (s : str) : exists w, s = w ++ lstrip s.
Proof. destruct (lstrip_decompose s) as [w [_ H]]. now exists w. Qed.

Lemma lstrip_prefix_hd (a b : str) :
  lstrip (a ++ b) = a ++ b -> a <> [] -> lstrip a = a.
Proof.
  destruct a as [|c a]; [congruence|]. intros H _.
  apply lstrip_eq_hd in H. now apply lstrip_eq_hd.
Qed.

(** The parts of an assignment line: the option is trimmed and holds no
    delimiter; the value is trimmed; both are made of text
    characters. *)
Lemma OPTCRE_clean (l k0 v0 : str) :
  clean_line l -> OPTCRE l = Some (k0, v0) ->
  lstrip k0 = k0 /\ rstrip k0 = k0 /\ strip v0 = v0
  /\ forallb text_char k0 = true /\ forallb text_char v0 = true
  /\ forallb (fun x => negb (is_delim x)) k0 = true.
Proof.
  intros [Hne [Hl [Hr Hc]]]. unfold OPTCRE.
  destruct (split_delim l) as [[a b]|] eqn:E; [|discriminate].
  intros H. injection H as <- <-.
  destruct (split_delim_app _ _ _ E) as [c [Hd [-> Ha]]].
  rewrite forallb_app in Hc. apply andb_true_iff in Hc as [Hca Hcb].
  simpl in Hcb. apply andb_true_iff in Hcb as [_ Hcb].
  repeat split.
  - destruct a as [|x a]; [reflexivity|].
    apply rstrip_lstripped. eapply lstrip_prefix_hd; [exact Hl|discriminate].
  - apply rstrip_idem.
  - assert (Rb : rstrip b = b).
    { apply (rstrip_suffix (a ++ [c])). now rewrite <- app_assoc. }
    destruct (lstrip_suffix b) as [w Hw].
    assert (Rl : rstrip (lstrip b) = lstrip b).
    { apply (rstrip_suffix w). now rewrite <- Hw. }
    unfold strip. now rewrite lstrip_idem.
  - now apply forallb_rstrip.
  - now apply forallb_lstrip.
  - now apply forallb_rstrip.
Qed.

(** ** The state of [_read] along the preprocessed lines *)

Lemma header_names_app (a b : list str) :
  header_names (a ++ b) = header_names a ++ header_names b.
Proof.
  induction a as [|x a IH]; simpl; [reflexivity|].
  destruct (SECTCRE x); simpl; now rewrite IH.
Qed.

Lemma header_names_snoc_header (ls : list str) (x h : str) :
  SECTCRE x = Some h -> header_names (ls ++ [x]) = header_names ls ++ [h].
Proof. intros H. rewrite header_names_app. simpl. now rewrite H. Qed.

Lemma header_names_snoc_other (ls : list str) (x : str) :
  SECTCRE x = None -> header_names (ls ++ [x]) = header_names ls.
Proof.
  intros H. rewrite header_names_app. simpl. rewrite H. apply app_nil_r.
Qed.

Lemma read_inv_init (pc : bool) : read_inv pc [] read_state_init.
Proof.
  constructor; simpl; try constructor; try discriminate; try tauto.
  intros k val [[]|[s [d [[] _]]]].
Qed.

Lemma stored_cursect_set (st : read_state) (s k : str) (val : list str)
  (k' : str) (val' : list str) :
  stored (cursect_set st s k val) k' val' ->
  (k' = k /\ val' = val) \/ stored st k' val'.
Proof.
  unfold cursect_set, stored.
  destruct (str_eqb s default_section); simpl.
  - intros [H|H]; [|right; now right].
    apply dict_set_in in H as [H|H]; [now left|right; now left].
  - destruct (dict_get (rs_sections st) s) as [d|] eqn:E; simpl;
      [|intros H; now right].
    intros [H|[s' [d' [Hs Hd]]]]; [right; now left|].
    apply dict_set_in in Hs as [[-> ->]|Hs].
    + apply dict_set_in in Hd as [Hd|Hd]; [now left|].
      right. right. exists s, d. split; [now apply dict_get_in|exact Hd].
    + right. right. now exists s', d'.
Qed.

Lemma cursect_set_fields (st : read_state) (s k : str) (val : list str) :
  dict_keys (rs_sections (cursect_set st s k val)) = dict_keys (rs_sections st)
  /\ rs_added_sections (cursect_set st s k val) = rs_added_sections st
  /\ rs_added_options (cursect_set st s k val) = rs_added_options st
  /\ rs_sectname (cursect_set st s k val) = rs_sectname st
  /\ rs_optname (cursect_set st s k val) = rs_optname st
  /\ rs_e (cursect_set st s k val) = rs_e st.
Proof.
  unfold cursect_set. destruct (str_eqb s default_section); simpl; [tauto|].
  destruct (dict_get (rs_sections st) s) as [d|] eqn:E; simpl; [|tauto].
  rewrite dict_keys_set, (dict_get_mem _ _ _ E). tauto.
Qed.

Lemma cursect_set_nodup (st : read_state) (s k : str) (val : list str) :
  NoDup (dict_keys (rs_defaults st)) ->
  (forall s d, In (s, d) (rs_sections st) -> NoDup (dict_keys d)) ->
  NoDup (dict_keys (rs_defaults (cursect_set st s k val)))
  /\ (forall s' d, In (s', d) (rs_sections (cursect_set st s k val)) ->
                   NoDup (dict_keys d)).
Proof.
  intros Nd Ns. unfold cursect_set.
  destruct (str_eqb s default_section); simpl.
  - split; [now apply dict_set_nodup|exact Ns].
  - destruct (dict_get (rs_sections st) s) as [d|] eqn:E; simpl;
      [|now split].
    split; [exact Nd|]. intros s' d' H.
    apply dict_set_in in H as [[-> ->]|H]; [|eauto].
    apply dict_set_nodup. apply (Ns s). now apply dict_get_in.
Qed.

Lemma dict_mem_same_keys {V} (d d' : dict V) (k : str) :
  dict_keys d = dict_keys d' -> dict_mem d k = dict_mem d' k.
Proof.
  intros H. destruct (dict_mem d' k) eqn:E.
  - apply dict_mem_keys. rewrite H. now apply dict_mem_keys.
  - apply dict_mem_false. rewrite H. now apply dict_mem_false.
Qed.

Lemma read_header_inv (pc : bool) (ls : list str) (st st' : read_state)
  (n : nat) (x h : str) :
  read_inv pc ls st -> SECTCRE x = Some h ->
  read_header st n 0 h = Ok st' ->
  read_inv pc (ls ++ [x]) st'.
Proof.
  intros I Hx. unfold read_header.
  destruct (dict_mem (rs_sections st) h) eqn:Em.
  { rewrite (ri_added _ _ _ I h Em). discriminate. }
  destruct (str_eqb h default_section) eqn:Ed; intros H; injection H as <-.
  - constructor; simpl; try apply I.
    + rewrite (header_names_snoc_header _ _ _ Hx), filter_app. simpl.
      unfold is_default. rewrite Ed. simpl. rewrite app_nil_r. apply I.
    + intros s H. injection H as <-. left. now apply str_eqb_eq.
    + intros k val H. destruct (ri_pairs _ _ _ I k val H)
        as [l [k0 [v0 [Hl R]]]].
      exists l, k0, v0. split; [apply in_or_app; now left|exact R].
  - constructor; simpl.
    + rewrite (header_names_snoc_header _ _ _ Hx), filter_app. simpl.
      unfold is_default. rewrite Ed. simpl.
      unfold dict_keys. rewrite map_app. simpl. f_equal. apply I.
    + unfold dict_keys. rewrite map_app. simpl.
      apply NoDup_app; [apply I|repeat constructor; tauto|].
      intros y Hy [<-|[]]. apply dict_mem_false in Em. contradiction.
    + intros s. rewrite dict_mem_app. unfold dict_mem at 2. simpl.
      destruct (str_eqb h s) eqn:E; simpl.
      * apply str_eqb_eq in E. subst s. now rewrite str_eqb_refl.
      * rewrite orb_false_r. intros H.
        rewrite (ri_added _ _ _ I s H). apply orb_true_r.
    + intros s H. injection H as <-. right.
      rewrite dict_mem_app. unfold dict_mem at 2. simpl.
      rewrite str_eqb_refl. apply orb_true_r.
    + intros k val [H|[s [d [Hs Hd]]]].
      * destruct (ri_pairs _ _ _ I k val (or_introl H))
          as [l [k0 [v0 [Hl R]]]].
        exists l, k0, v0. split; [apply in_or_app; now left|exact R].
      * apply in_app_or in Hs as [Hs|[Hs|[]]].
        -- destruct (ri_pairs _ _ _ I k val
                       (or_intror (ex_intro _ s (ex_intro _ d (conj Hs Hd)))))
             as [l [k0 [v0 [Hl R]]]].
           exists l, k0, v0. split; [apply in_or_app; now left|exact R].
        -- injection Hs as <- <-. destruct Hd.
    + apply I.
    + intros s d H. apply in_app_or in H as [H|[H|[]]].
      * eapply ri_keys_sections; eauto.
      * injection H as <- <-. constructor.
Qed.

Lemma read_option_inv (pc : bool) (ls : list str) (st st' : read_state)
  (n : nat) (line x s : str) :
  clean_line x -> read_inv pc ls st -> SECTCRE x = None ->
  rs_sectname st = Some s ->
  read_option pc st n 0 line x s = Ok st' ->
  read_inv pc (ls ++ [x]) st'.
Proof.
  intros Hx I Hsect Hs. unfold read_option.
  destruct (OPTCRE x) as [[k0 v0]|] eqn:Eo.
  - destruct (OPTCRE_clean _ _ _ Hx Eo) as [_ [Rk [Sv _]]].
    rewrite Rk, Sv.
    destruct (pair_mem _ _); [discriminate|].
    intros H. injection H as <-.
    match goal with |- read_inv _ _ (cursect_set ?st1 _ _ _) =>
      set (st1' := st1) end.
    destruct (cursect_set_fields st1' s (optionxform pc k0) [v0])
      as [F1 [F2 [F3 [F4 [F5 F6]]]]].
    destruct (cursect_set_nodup st1' s (optionxform pc k0) [v0]
                (ri_keys_defaults _ _ _ I) (ri_keys_sections _ _ _ I))
      as [N1 N2].
    constructor.
    + rewrite F1, (header_names_snoc_other _ _ Hsect). apply I.
    + rewrite F1. apply I.
    + intros s0. rewrite F2.
      rewrite (dict_mem_same_keys _ (rs_sections st) s0 F1). apply I.
    + intros s0. rewrite F4. simpl. intros H.
      rewrite (dict_mem_same_keys _ (rs_sections st) s0 F1).
      now apply (ri_sectname _ _ _ I).
    + intros k val H. rewrite F6. simpl.
      apply stored_cursect_set in H as [[-> ->]|H].
      * exists x, k0, v0. repeat split; try assumption.
        -- apply in_or_app. right. now left.
        -- destruct k0; [simpl|discriminate]. unfold handle_error.
           intros E. destruct (rs_e st); discriminate.
      * destruct (ri_pairs _ _ _ I k val H) as [l [k1 [v1 [Hl [A [B [C [D E]]]]]]]].
        exists l, k1, v1. repeat split; try assumption.
        -- apply in_or_app. now left.
        -- intros E'. apply E. destruct (nonempty k0); [exact E'|].
           unfold handle_error in E'. destruct (rs_e st); discriminate.
    + exact N1.
    + exact N2.
  - intros H. injection H as <-. constructor; simpl; try apply I.
    + rewrite (header_names_snoc_other _ _ Hsect). apply I.
    + intros k val H. unfold handle_error.
      destruct (ri_pairs _ _ _ I k val H) as [l [k1 [v1 [Hl [A [B [C [D E]]]]]]]].
      exists l, k1, v1. repeat split; try assumption.
      * apply in_or_app. now left.
      * intros E'. destruct (rs_e st); discriminate.
Qed.

Lemma read_clean_inv (pc : bool) (ls : list str) (st st' : read_state)
  (n : nat) (line x : str) :
  clean_line x -> read_inv pc ls st ->
  read_clean pc st n line x = Ok st' ->
  read_inv pc (ls ++ [x]) st'.
Proof.
  intros Hx I. unfold read_clean.
  destruct (SECTCRE x) as [h|] eqn:E.
  - now apply read_header_inv.
  - destruct (rs_sectname st) as [s|] eqn:Es; [|discriminate].
    now apply read_option_inv.
Qed.

Lemma read_clean_lines_inv (pc : bool) (ls : list str) :
  Forall clean_line ls ->
  forall done st st' n,
    read_inv pc done st ->
    read_clean_lines pc st n ls = Ok st' ->
    read_inv pc (done ++ ls) st'.
Proof.
  induction 1 as [|x r Hx Hr IH]; intros done st st' n I; simpl.
  - intros H. injection H as <-. now rewrite app_nil_r.
  - destruct (read_clean pc st n _ x) as [st1|] eqn:E; simpl; [|discriminate].
    intros H. replace (done ++ x :: r) with ((done ++ [x]) ++ r)
      by (rewrite <- app_assoc; reflexivity).
    eapply IH; [|exact H]. eapply read_clean_inv; eauto.
Qed.

(** ** The parser that [read_string] returns *)

Lemma strip_fixed_rstrip (v : str) : strip v = v -> rstrip v = v.
Proof. intros H. rewrite <- H. apply strip_rstripped. Qed.

Lemma strip_fixed_lstrip (v : str) : strip v = v -> lstrip v = v.
Proof. intros H. rewrite <- H. apply strip_lstripped. Qed.

Lemma join_values_keys (d : dict (list str)) :
  dict_keys (join_values d) = dict_keys d.
Proof. unfold join_values, dict_keys. rewrite map_map. reflexivity. Qed.

Lemma join_values_in (d : dict (list str)) (k v : str) :
  In (k, v) (join_values d) ->
  exists val, In (k, val) d /\ v = rstrip (join [NL] val).
Proof.
  unfold join_values. intros H. apply in_map_iff in H as [[k' val] [E H]].
  simpl in E. injection E as -> <-. now exists val.
Qed.

Lemma read_clean_lines_raw (pc : bool) (ls : list str) (st : read_state) :
  Forall clean_line ls ->
  read_clean_lines pc read_state_init 1 ls = Ok st ->
  rs_e st = [] ->
  raw_inv pc ls
    (mkParser pc NoInterpolation (join_values (rs_defaults st))
       (map (fun so => (fst so, join_values (snd so))) (rs_sections st))).
Proof.
  intros Hls Hread He.
  pose proof (read_clean_lines_inv pc ls Hls [] _ _ _ (read_inv_init pc) Hread)
    as I. simpl in I.
  assert (K : dict_keys (map (fun so => (fst so, join_values (snd so)))
                           (rs_sections st))
              = dict_keys (rs_sections st)).
  { unfold dict_keys. rewrite map_map. reflexivity. }
  assert (P : forall k val, stored st k val ->
                forall v, v = rstrip (join [NL] val) ->
                exists l, In l ls /\ entry_of pc l = Some (k, v) /\ k <> []).
  { intros k val H v ->.
    destruct (ri_pairs _ _ _ I k val H)
      as [l [k0 [v0 [Hl [A [B [-> [-> E]]]]]]]].
    exists l. split; [exact Hl|].
    rewrite Forall_forall in Hls.
    destruct (OPTCRE_clean _ _ _ (Hls l Hl) B) as [_ [_ [Sv _]]].
    unfold entry_of. rewrite A, B. simpl.
    rewrite (strip_fixed_rstrip _ Sv). split; [reflexivity|].
    specialize (E He). destruct pc; simpl; [exact E|].
    destruct k0; [congruence|discriminate]. }
  constructor; simpl; try reflexivity.
  - unfold sections. simpl. rewrite K. apply I.
  - unfold sections. simpl. rewrite K. apply I.
  - constructor; simpl.
    + intros k v [H|[s [d [Hs Hd]]]].
      * apply join_values_in in H as [val [H E]].
        apply (P k val); [now left|exact E].
      * apply in_map_iff in Hs as [[s' d'] [E Hs]]. simpl in E.
        injection E as -> <-.
        apply join_values_in in Hd as [val [Hd E]].
        apply (P k val); [right; now exists s, d'|exact E].
    + rewrite join_values_keys. apply I.
    + intros s d Hs.
      apply in_map_iff in Hs as [[s' d'] [E Hs]]. simpl in E.
      injection E as -> <-. rewrite join_values_keys.
      eapply ri_keys_sections; eauto.
Qed.

Lemma read_string_inv (pc : bool) (content : str) (raw : parser) :
  read_string pc (preprocess_file content) = Ok raw ->
  raw_inv pc (processed_lines_of content) raw.
Proof.
  rewrite read_string_preprocessed.
  destruct (read_clean_lines pc read_state_init 1 (processed_lines_of content))
    as [st|] eqn:E; simpl; [|discriminate].
  destruct (rs_e st) eqn:Ee; [|discriminate].
  intros H. injection H as <-.
  apply read_clean_lines_raw; auto using processed_lines_clean.
Qed.

(** ** Reading a parser: [items] *)

Lemma dict_update_in {V} (other d : dict V) (k : str) (v : V) :
  In (k, v) (dict_update d other) -> In (k, v) d \/ In (k, v) other.
Proof.
  unfold dict_update. revert d.
  induction other as [|[k0 v0] other IH]; intros d; simpl; [tauto|].
  intros H. apply IH in H as [H|H]; [|right; now right].
  apply dict_set_in in H as [[-> ->]|H]; [right; now left|now left].
Qed.

Lemma dict_update_nodup {V} (other d : dict V) :
  NoDup (dict_keys d) -> NoDup (dict_keys (dict_update d other)).
Proof.
  unfold dict_update. revert d.
  induction other as [|[k0 v0] other IH]; intros d N; simpl; [exact N|].
  apply IH. now apply dict_set_nodup.
Qed.

Lemma dict_update_nil {V} (d : dict V) : dict_update d [] = d.
Proof. reflexivity. Qed.

Lemma for_each_ok_app {S X} (body : S -> X -> result S) (xs ys : list X)
  (s : S) :
  for_each body (xs ++ ys) s = (s' <- for_each body xs s ;; for_each body ys s').
Proof.
  revert s; induction xs as [|x xs IH]; intros s; simpl; [reflexivity|].
  destruct (body s x); simpl; [apply IH|reflexivity].
Qed.

Lemma items_loop_raw (p : parser) (section : str) (m l : dict str)
  (acc : dict str) :
  p_interpolation p = NoInterpolation ->
  (forall k v, In (k, v) l -> dict_get m k = Some v) ->
  for_each (fun acc option =>
              match dict_get m option with
              | Some raw =>
                  value <- before_get p section option raw m ;;
                  Ok (acc ++ [(option, value)])
              | None => Ok acc
              end) (dict_keys l) acc
  = Ok (acc ++ l).
Proof.
  intros Hi. revert acc. induction l as [|[k v] l IH]; intros acc H; simpl.
  - now rewrite app_nil_r.
  - rewrite (H k v) by now left.
    replace (before_get p section k v m) with (Ok v)
      by (unfold before_get; now rewrite Hi).
    cbn [bind].
    rewrite IH by (intros; apply H; now right).
    now rewrite <- app_assoc.
Qed.

Lemma items_raw (p : parser) (section : str) (d : dict str) :
  p_interpolation p = NoInterpolation ->
  NoDup (dict_keys (_defaults p)) ->
  dict_get (_sections p) section = Some d ->
  items p section = Ok (dict_update (_defaults p) d).
Proof.
  intros Hi N Hd. unfold items, unify_values. rewrite Hd. simpl.
  apply (items_loop_raw p section _ _ []); [exact Hi|].
  intros k v. apply in_dict_get. now apply dict_update_nodup.
Qed.

(** ** Case folding and trimming commute *)

Lemma lstrip_lower (s : str) : lstrip (lower s) = lower (lstrip s).
Proof.
  induction s as [|c s IH]; simpl; [reflexivity|].
  rewrite isspace_lower_char. destruct (isspace c); [exact IH|reflexivity].
Qed.

Lemma rstrip_lower (s : str) : rstrip (lower s) = lower (rstrip s).
Proof.
  unfold rstrip, lower. rewrite <- map_rev.
  change (map lower_char (rev s)) with (lower (rev s)).
  rewrite lstrip_lower. unfold lower. now rewrite map_rev.
Qed.

Lemma strip_lower (s : str) : strip (lower s) = lower (strip s).
Proof. unfold strip. now rewrite lstrip_lower, rstrip_lower. Qed.

Lemma strip_optionxform (pc : bool) (s : str) :
  strip (optionxform pc s) = optionxform pc (strip s).
Proof. destruct pc; simpl; [reflexivity|apply strip_lower]. Qed.

Lemma forallb_lower (f : ascii -> bool) (s : str) :
  (forall c, f (lower_char c) = f c) ->
  forallb f (lower s) = forallb f s.
Proof.
  intros H. induction s as [|c s IH]; simpl; [reflexivity|].
  now rewrite H, IH.
Qed.

Lemma optionxform_nil (pc : bool) (s : str) : optionxform pc s = [] -> s = [].
Proof. destruct pc; simpl; [tauto|]. destruct s; [reflexivity|discriminate]. Qed.

(** ** The entry of a clean line *)

Lemma entry_of_clean (pc : bool) (l k v : str) :
  clean_line l -> entry_of pc l = Some (k, v) ->
  strip k = k /\ strip v = v /\ optionxform pc k = k
  /\ forallb text_char k = true /\ forallb text_char v = true
  /\ forallb (fun x => negb (is_delim x)) k = true.
Proof.
  intros Hl. unfold entry_of. destruct (SECTCRE l); [discriminate|].
  destruct (OPTCRE l) as [[k0 v0]|] eqn:E; [|discriminate].
  intros H. injection H as <- <-.
  destruct (OPTCRE_clean _ _ _ Hl E) as [A [B [C [D [F G]]]]].
  repeat split; try assumption.
  - rewrite strip_optionxform. now rewrite (strip_trimmed k0).
  - apply optionxform_idem.
  - destruct pc; simpl; [exact D|].
    rewrite forallb_lower; [exact D|apply text_char_lower_char].
  - destruct pc; simpl; [exact G|].
    rewrite forallb_lower; [exact G|].
    intros c. now rewrite is_delim_lower_char.
Qed.

(** ** [before_set] fails only on a percent sign *)

Lemma remove_escaped_percent_incl (s : str) (c : ascii) :
  In c (remove_escaped_percent s) -> In c s.
Proof.
  assert (G : forall n s, length s <= n ->
              In c (remove_escaped_percent s) -> In c s).
  { induction n as [|n IH]; intros [|x r] L; simpl in *; try tauto; try lia.
    destruct r as [|y r'].
    - tauto.
    - destruct (Ascii.eqb x PERCENT && Ascii.eqb y PERCENT).
      + intros H. right. right. apply IH; [simpl in L; lia|exact H].
      + intros [H|H]; [now left|]. right.
        apply (IH (y :: r')); [simpl in *; lia|exact H]. }
  eapply G. reflexivity.
Qed.

Lemma KEYCRE_sub_incl (s : str) (c : ascii) :
  forall skip, In c (KEYCRE_sub skip s) -> In c s.
Proof.
  induction s as [|x s IH]; intros skip; [simpl; tauto|].
  cbn [KEYCRE_sub]. destruct skip as [|k].
  - destruct (KEYCRE_match (x :: s)) as [[name m_end]|].
    + intros H. right. eapply IH; eauto.
    + intros [H|H]; [now left|]. right. eapply IH; eauto.
  - intros H. right. eapply IH; eauto.
Qed.

Lemma has_char_in (c : ascii) (s : str) : has_char c s = true <-> In c s.
Proof.
  unfold has_char. rewrite existsb_exists. split.
  - intros [x [Hx E]]. apply Ascii.eqb_eq in E. now subst.
  - intros H. exists c. split; [exact H|apply Ascii.eqb_refl].
Qed.

Lemma has_char_false (c : ascii) (s : str) : has_char c s = false <-> ~ In c s.
Proof.
  rewrite <- has_char_in. destruct (has_char c s); split; congruence.
Qed.

Lemma before_set_cases (p : parser) (value : str) :
  before_set p value = Ok value
  \/ (has_char PERCENT value = true
      /\ exists n, before_set p value
                   = Raise (ValueError (invalid_interpolation_message value n))).
Proof.
  unfold before_set. destruct (p_interpolation p); [now left|].
  destruct (has_char PERCENT (KEYCRE_sub 0 (remove_escaped_percent value)))
    eqn:E; [|now left].
  right. split; [|eexists; reflexivity].
  apply has_char_in. apply has_char_in in E.
  now apply KEYCRE_sub_incl, remove_escaped_percent_incl in E.
Qed.

(** ** The inner loop of [load_config] *)

Lemma set_option_cases (pc : bool) (ls : list str) (p : parser)
  (n k v l : str) :
  pairs_inv pc ls p -> p_preserve_case p = pc ->
  (forall d, In ([], d) (_sections p) -> d = []) ->
  n = [] \/ n = default_section \/ dict_mem (_sections p) n = true ->
  In l ls -> clean_line l -> entry_of pc l = Some (k, v) -> k <> [] ->
  (exists p',
      set_option p n k v = Ok p'
      /\ pairs_inv pc ls p'
      /\ p_preserve_case p' = pc
      /\ p_interpolation p' = p_interpolation p
      /\ sections p' = sections p
      /\ (forall d, In ([], d) (_sections p') -> d = []))
  \/ (has_char PERCENT v = true
      /\ exists i, set_option p n k v
                   = Raise (ValueError (invalid_interpolation_message v i))).
Proof.
  intros I Hpc Hemp Hn Hl Hc He Hk.
  destruct (entry_of_clean pc l k v Hc He) as [_ [_ [Xk _]]].
  unfold set_option.
  assert (B : (if nonempty v then before_set p v else Ok v) = Ok v
              \/ (has_char PERCENT v = true
                  /\ exists i, (if nonempty v then before_set p v else Ok v)
                               = Raise (ValueError
                                          (invalid_interpolation_message v i)))).
  { destruct (nonempty v); [apply before_set_cases|now left]. }
  destruct B as [-> | [Hp [i ->]]]; [|right; split; [exact Hp|now exists i]].
  left. cbn [bind]. rewrite Hpc, Xk.
  destruct (negb (nonempty n) || str_eqb n default_section) eqn:En.
  - eexists. split; [reflexivity|]. simpl.
    split; [|repeat split; auto].
    constructor; simpl.
    + intros k' v' [H|H].
      * apply dict_set_in in H as [[-> ->]|H]; [now exists l|].
        apply (pi_pairs _ _ _ I). now left.
      * apply (pi_pairs _ _ _ I). now right.
    + apply dict_set_nodup, I.
    + apply I.
  - apply orb_false_iff in En as [En1 En2].
    apply negb_false_iff in En1. apply str_eqb_neq in En2.
    destruct Hn as [-> | [-> | Hn]]; [discriminate|congruence|].
    destruct (dict_get (_sections p) n) as [d|] eqn:Ed;
      [|apply dict_get_none in Ed; congruence].
    eexists. split; [reflexivity|]. simpl.
    split; [|split; [reflexivity|split; [reflexivity|split]]].
    + constructor; simpl.
      * intros k' v' [H|[s [d' [Hs Hd]]]].
        -- apply (pi_pairs _ _ _ I). now left.
        -- apply dict_set_in in Hs as [[-> ->]|Hs].
           ++ apply dict_set_in in Hd as [[-> ->]|Hd]; [now exists l|].
              apply (pi_pairs _ _ _ I). right. exists n, d.
              split; [now apply dict_get_in|exact Hd].
           ++ apply (pi_pairs _ _ _ I). right. now exists s, d'.
      * apply I.
      * intros s d' Hs. apply dict_set_in in Hs as [[-> ->]|Hs].
        -- apply dict_set_nodup. apply (pi_keys_sections _ _ _ I n).
           now apply dict_get_in.
        -- eapply pi_keys_sections; eauto.
    + unfold sections. simpl. rewrite dict_keys_set.
      now rewrite (dict_get_mem _ _ _ Ed).
    + intros d' Hs. apply dict_set_in in Hs as [[E _]|Hs]; [|now apply Hemp].
      subst n. discriminate.
Qed.

Lemma clean_option_loop (pc : bool) (ls : list str) (n : str)
  (pairs : dict str) :
  NoDup (dict_keys pairs) ->
  (forall k v, In (k, v) pairs ->
     exists l, In l ls /\ clean_line l /\ entry_of pc l = Some (k, v)
               /\ k <> []) ->
  forall keys_seen p,
    pairs_inv pc ls p -> p_preserve_case p = pc ->
    (forall d, In ([], d) (_sections p) -> d = []) ->
    n = [] \/ n = default_section \/ dict_mem (_sections p) n = true ->
    (forall k, In k keys_seen -> ~ In k (dict_keys pairs)) ->
    (exists keys_seen' p',
        for_each (clean_option n) pairs (keys_seen, p) = Ok (keys_seen', p')
        /\ pairs_inv pc ls p'
        /\ p_preserve_case p' = pc
        /\ p_interpolation p' = p_interpolation p
        /\ sections p' = sections p
        /\ (forall d, In ([], d) (_sections p') -> d = []))
    \/ (exists k v i,
           In (k, v) pairs /\ has_char PERCENT v = true
           /\ for_each (clean_option n) pairs (keys_seen, p)
              = Raise (ValueError (invalid_interpolation_message v i))).
Proof.
  induction pairs as [|[k v] pairs IH]; intros N Hent keys_seen p I Hpc Hemp Hn Hseen.
  - left. exists keys_seen, p. simpl. tauto.
  - destruct (Hent k v (or_introl eq_refl)) as [l [Hl [Hc [He Hk]]]].
    destruct (entry_of_clean pc l k v Hc He) as [Sk [Sv _]].
    assert (Hnot : set_mem k keys_seen = false).
    { apply set_mem_false. intros H. apply (Hseen k H). now left. }
    assert (Estep : clean_option n (keys_seen, p) (k, v)
                    = (p' <- set_option p n k v ;; Ok (k :: keys_seen, p'))).
    { unfold clean_option. cbn [fst snd]. now rewrite Sk, Sv, Hnot. }
    cbn [for_each]. rewrite Estep.
    destruct (set_option_cases pc ls p n k v l I Hpc Hemp Hn Hl Hc He Hk)
      as [[p' [-> [I' [Hpc' [Hi' [Hs' Hemp']]]]]]|[Hp [i ->]]].
    + cbn [bind]. inversion N as [|? ? Hnk N']; subst.
      assert (Hn' : n = [] \/ n = default_section
                    \/ dict_mem (_sections p') n = true).
      { unfold sections in Hs'. destruct Hn as [Hn|[Hn|Hn]]; auto.
        right. right.
        rewrite (dict_mem_same_keys _ (_sections p) n); [exact Hn|].
        exact Hs'. }
      assert (Hseen' : forall k', In k' (k :: keys_seen) ->
                                  ~ In k' (dict_keys pairs)).
      { intros k' [<-|H]; [exact Hnk|].
        intros H'. apply (Hseen k' H). now right. }
      destruct (IH N' (fun k v H => Hent k v (or_intror H)) (k :: keys_seen) p'
                  I' Hpc' Hemp' Hn' Hseen')
        as [[ks [p'' [-> [I'' [A [B [C D]]]]]]]|[k1 [v1 [i [H1 [H2 ->]]]]]].
      * left. exists ks, p''.
        split; [reflexivity|]. split; [exact I''|]. split; [exact A|].
        split; [congruence|]. split; [congruence|exact D].
      * right. exists k1, v1, i. split; [now right|]. split; [exact H2|reflexivity].
    + right. exists k, v, i. split; [now left|]. split; [exact Hp|reflexivity].
Qed.

(** ** The outer loop of [load_config] *)

Lemma pairs_inv_add_section (pc : bool) (ls : list str) (p : parser) (n : str) :
  pairs_inv pc ls p ->
  pairs_inv pc ls
    (mkParser (p_preserve_case p) (p_interpolation p) (_defaults p)
       (_sections p ++ [(n, [])])).
Proof.
  intros I. constructor; simpl.
  - intros k v [H|[s [d [Hs Hd]]]].
    + apply (pi_pairs _ _ _ I). now left.
    + apply in_app_or in Hs as [Hs|[Hs|[]]].
      * apply (pi_pairs _ _ _ I). right. now exists s, d.
      * injection Hs as <- <-. destruct Hd.
  - apply I.
  - intros s d Hs. apply in_app_or in Hs as [Hs|[Hs|[]]].
    + eapply pi_keys_sections; eauto.
    + injection Hs as <- <-. constructor.
Qed.

Lemma in_filter_not_default (n : str) (l : list str) :
  In n (filter (fun h => negb (is_default h)) l) -> In n l.
Proof. intros H. now apply filter_In in H. Qed.

Lemma clean_section_step (pc : bool) (ls : list str) (raw : parser)
  (processed : list str) (state : list str * parser) (s : str) :
  Forall clean_line ls -> raw_inv pc ls raw ->
  clean_inv pc ls processed state -> In s (sections raw) ->
  (In (clean_section_name pc s) (map (clean_section_name pc) processed)
   /\ clean_section pc raw state s
      = Raise (ValueError
                 (duplicate_profile_message (clean_section_name pc s))))
  \/ (~ In (clean_section_name pc s) (map (clean_section_name pc) processed)
      /\ ((exists state',
              clean_section pc raw state s = Ok state'
              /\ clean_inv pc ls (processed ++ [s]) state')
          \/ (exists k v i,
                 parser_pairs raw k v /\ has_char PERCENT v = true
                 /\ clean_section pc raw state s
                    = Raise (ValueError (invalid_interpolation_message v i))))).
Proof.
  intros Hls R C Hs. destruct state as [seen cfg]. simpl in C.
  set (n := clean_section_name pc s).
  unfold clean_section. fold n.
  destruct (set_mem n seen) eqn:Eseen.
  { left. split; [|reflexivity].
    apply set_mem_in in Eseen. now apply (ci_seen _ _ _ _ C). }
  right. apply set_mem_false in Eseen.
  assert (Hnew : ~ In n (map (clean_section_name pc) processed)).
  { intros H. apply Eseen. now apply (ci_seen _ _ _ _ C). }
  split; [exact Hnew|].
  assert (Hsec : has_section cfg n = false).
  { unfold has_section. apply dict_mem_false. intros H.
    apply Hnew. pose proof (ci_sections _ _ _ _ C) as E. simpl in E.
    unfold sections in E. rewrite E in H.
    now apply in_filter_not_default in H. }
  (* the parser after the optional add_section *)
  set (cfg1 := if is_default n then cfg
               else mkParser (p_preserve_case cfg) (p_interpolation cfg)
                      (_defaults cfg) (_sections cfg ++ [(n, [])])).
  assert (Eadd : (if negb (contains cfg n) then add_section cfg n else Ok cfg)
                 = Ok cfg1).
  { unfold contains, cfg1, is_default. rewrite Hsec, orb_false_r.
    destruct (str_eqb n default_section) eqn:Ed; [reflexivity|].
    simpl. unfold add_section. rewrite Ed.
    unfold has_section in Hsec. now rewrite Hsec. }
  rewrite Eadd. cbn [bind].
  (* the pairs of the raw section *)
  assert (Hd : exists d, dict_get (_sections raw) s = Some d).
  { unfold sections in Hs. apply dict_mem_keys in Hs. unfold dict_mem in Hs.
    destruct (dict_get (_sections raw) s) as [d|]; [now exists d|discriminate]. }
  destruct Hd as [d Hd].
  rewrite (items_raw raw s d (rw_interpolation _ _ _ R)
             (pi_keys_defaults _ _ _ (rw_pairs _ _ _ R)) Hd).
  cbn [bind].
  set (pairs := dict_update (_defaults raw) d).
  assert (Hraw : forall k v, In (k, v) pairs -> parser_pairs raw k v).
  { intros k v H. apply dict_update_in in H as [H|H]; [now left|].
    right. exists s, d. split; [now apply dict_get_in|exact H]. }
  assert (Hent : forall k v, In (k, v) pairs ->
            exists l, In l ls /\ clean_line l
                      /\ entry_of pc l = Some (k, v) /\ k <> []).
  { intros k v H.
    destruct (pi_pairs _ _ _ (rw_pairs _ _ _ R) k v (Hraw k v H))
      as [l [Hl [He Hk]]].
    exists l. rewrite Forall_forall in Hls. auto. }
  assert (N : NoDup (dict_keys pairs)).
  { apply dict_update_nodup. apply (rw_pairs _ _ _ R). }
  assert (I1 : pairs_inv pc ls cfg1).
  { unfold cfg1. destruct (is_default n); [apply C|].
    apply pairs_inv_add_section, C. }
  assert (Hpc1 : p_preserve_case cfg1 = pc).
  { unfold cfg1. destruct (is_default n); apply C. }
  assert (Hi1 : p_interpolation cfg1 = BasicInterpolation).
  { unfold cfg1. destruct (is_default n); apply C. }
  assert (Hemp1 : forall d, In ([], d) (_sections cfg1) -> d = []).
  { unfold cfg1. destruct (is_default n); [apply C|]. simpl.
    intros d0 H. apply in_app_or in H as [H|[H|[]]].
    - now apply (ci_empty_name _ _ _ _ C).
    - now injection H. }
  assert (Hn1 : n = [] \/ n = default_section
                \/ dict_mem (_sections cfg1) n = true).
  { unfold cfg1, is_default.
    destruct (str_eqb n default_section) eqn:Ed.
    - right. left. now apply str_eqb_eq.
    - right. right. simpl. rewrite dict_mem_app. unfold dict_mem at 2.
      simpl. rewrite str_eqb_refl. apply orb_true_r. }
  assert (Hsec1 : sections cfg1
                  = filter (fun h => negb (is_default h))
                      (map (clean_section_name pc) (processed ++ [s]))).
  { rewrite map_app, filter_app. simpl. fold n.
    pose proof (ci_sections _ _ _ _ C) as E. simpl in E.
    unfold cfg1. destruct (is_default n); simpl.
    - now rewrite app_nil_r.
    - unfold sections, dict_keys. simpl. rewrite map_app. simpl.
      f_equal. exact E. }
  destruct (clean_option_loop pc ls n pairs N Hent [] cfg1 I1 Hpc1 Hemp1 Hn1)
    as [[ks [p' [-> [I' [A [B [S' D]]]]]]]|[k [v [i [H1 [H2 ->]]]]]].
  { intros k []. }
  - left. eexists. split; [reflexivity|]. cbn [snd bind].
    constructor; cbn [fst snd].
    + exact A.
    + congruence.
    + congruence.
    + intros n0. rewrite map_app, in_app_iff. simpl. fold n.
      rewrite <- (ci_seen _ _ _ _ C n0). simpl. tauto.
    + rewrite map_app. simpl. fold n.
      apply NoDup_app; [apply C|repeat constructor; tauto|].
      intros x Hx [<-|[]]. contradiction.
    + exact I'.
    + exact D.
  - right. exists k, v, i. split; [now apply Hraw|]. split; [exact H2|reflexivity].
Qed.

Lemma clean_loop (pc : bool) (ls : list str) (raw : parser) :
  Forall clean_line ls -> raw_inv pc ls raw ->
  forall todo processed state,
    clean_inv pc ls processed state ->
    (forall s, In s todo -> In s (sections raw)) ->
    match for_each (clean_section pc raw) todo state with
    | Ok state' => clean_inv pc ls (processed ++ todo) state'
    | Raise e =>
        exists m, e = ValueError m
          /\ ((exists a s b,
                  processed ++ todo = a ++ s :: b
                  /\ NoDup (map (clean_section_name pc) a)
                  /\ In (clean_section_name pc s)
                       (map (clean_section_name pc) a)
                  /\ m = duplicate_profile_message (clean_section_name pc s))
              \/ (exists k v i,
                     parser_pairs raw k v /\ has_char PERCENT v = true
                     /\ m = invalid_interpolation_message v i))
    end.
Proof.
  intros Hls R. induction todo as [|s todo IH]; intros processed state C Hin.
  - simpl. now rewrite app_nil_r.
  - cbn [for_each].
    destruct (clean_section_step pc ls raw processed state s Hls R C
                (Hin s (or_introl eq_refl)))
      as [[Hdup ->]|[Hnew [[state' [-> C']]|[k [v [i [H1 [H2 ->]]]]]]]];
      cbn [bind].
    + eexists. split; [reflexivity|]. left.
      exists processed, s, todo. repeat split; auto. apply C.
    + specialize (IH (processed ++ [s]) state' C'
                    (fun s0 H => Hin s0 (or_intror H))).
      rewrite <- app_assoc in IH. exact IH.
    + eexists. split; [reflexivity|]. right. now exists k, v, i.
Qed.

Lemma clean_inv_init (pc : bool) (ls : list str) :
  clean_inv pc ls [] ([], ConfigParser pc).
Proof.
  constructor; simpl; try reflexivity; try tauto; try constructor;
    simpl; try constructor.
  - intros k v [[]|[s [d [[] _]]]].
  - intros s d [].
Qed.

(** What a successful construction tells about the handler. *)
Lemma init_ok (fs : filesystem) (path : str) (pc : bool) (h : ConfigHandler) :
  ConfigHandler_init fs path pc = Ok h ->
  exists content raw seen,
    fs path = TextFile content
    /\ read_string pc (preprocess_file content) = Ok raw
    /\ raw_inv pc (processed_lines_of content) raw
    /\ clean_inv pc (processed_lines_of content) (sections raw)
         (seen, config h)
    /\ preserve_case h = pc /\ filepath h = path.
Proof.
  unfold ConfigHandler_init, load_config.
  destruct (fs path) as [|class_name msg|content] eqn:Efs;
    [discriminate|discriminate|].
  unfold load_config_try.
  destruct (read_string pc (preprocess_file content)) as [raw|e] eqn:Er.
  2:{ simpl. destruct e; discriminate. }
  cbn [bind].
  pose proof (read_string_inv pc content raw Er) as R.
  pose proof (clean_loop pc _ raw (processed_lines_clean content) R
                (sections raw) [] _ (clean_inv_init pc _) (fun s H => H)) as L.
  destruct (for_each (clean_section pc raw) (sections raw)
              ([], ConfigParser pc)) as [[seen cfg]|e]; cbn [bind snd].
  - intros H. injection H as <-. exists content, raw, seen. simpl in L.
    repeat split; try assumption; apply R || apply L.
  - destruct e; discriminate.
Qed.

(** ** Interpolation *)

Lemma for_each_raises {S X} (P : exn -> Prop) (body : S -> X -> result S) :
  (forall s x e, body s x = Raise e -> P e) ->
  forall xs s e, for_each body xs s = Raise e -> P e.
Proof.
  intros H. induction xs as [|x xs IH]; intros s e; simpl; [discriminate|].
  destruct (body s x) eqn:E; simpl.
  - apply IH.
  - intros H'. injection H' as <-. eauto.
Qed.

Lemma interpolate_loop_plain (deeper : str -> str -> result str) (pc : bool)
  (o s rv : str) (m : dict str) (rest : str) :
  has_char PERCENT rest = false ->
  forall accum,
    interpolate_loop deeper pc o s rv m 0 rest accum = Ok (accum ++ rest).
Proof.
  induction rest as [|c r IH]; intros H accum; cbn [interpolate_loop].
  - now rewrite app_nil_r.
  - unfold has_char in H. cbn [existsb] in H.
    apply orb_false_iff in H as [Hc Hr].
    rewrite Ascii.eqb_sym, Hc. cbn [negb].
    rewrite IH by exact Hr. now rewrite <- app_assoc.
Qed.

Lemma before_get_plain (p : parser) (section option value : str)
  (d : dict str) :
  has_char PERCENT value = false ->
  before_get p section option value d = Ok value.
Proof.
  intros H. unfold before_get. destruct (p_interpolation p); [reflexivity|].
  unfold MAX_INTERPOLATION_DEPTH. cbn [_interpolate_some].
  now rewrite interpolate_loop_plain.
Qed.

Lemma interpolate_loop_raises (deeper : str -> str -> result str) (pc : bool)
  (o s rv : str) (m : dict str) :
  (forall v acc e, deeper v acc = Raise e -> is_configparser_error e) ->
  forall rest skip accum e,
    interpolate_loop deeper pc o s rv m skip rest accum = Raise e ->
    is_configparser_error e.
Proof.
  intros Hd. induction rest as [|c r IH]; intros skip accum e;
    [discriminate|].
  cbn [interpolate_loop]. destruct skip as [|k]; [|apply IH].
  destruct (negb (Ascii.eqb c PERCENT)); [apply IH|].
  destruct r as [|c' r'].
  { intros H. injection H as <-. eexists; reflexivity. }
  destruct (Ascii.eqb c' PERCENT); [apply IH|].
  destruct (Ascii.eqb c' "("%char).
  2:{ intros H. injection H as <-. eexists; reflexivity. }
  destruct (KEYCRE_match (c :: c' :: r')) as [[name m_end]|].
  2:{ intros H. injection H as <-. eexists; reflexivity. }
  destruct (dict_get m (optionxform pc name)) as [v|].
  2:{ intros H. injection H as <-. eexists; reflexivity. }
  destruct (has_char PERCENT v).
  - destruct (deeper v accum) eqn:E; cbn [bind]; [apply IH|].
    intros H. injection H as <-. eauto.
  - cbn [bind]. apply IH.
Qed.

Lemma interpolate_some_raises (p : parser) (option section : str)
  (map : dict str) :
  forall fuel accum rest e,
    _interpolate_some fuel p option accum rest section map = Raise e ->
    is_configparser_error e.
Proof.
  induction fuel as [|fuel IH]; intros accum rest e; cbn [_interpolate_some].
  - intros H. injection H as <-. eexists; reflexivity.
  - apply interpolate_loop_raises. intros v acc e'. apply IH.
Qed.

Lemma before_get_raises (p : parser) (section option value : str)
  (d : dict str) (e : exn) :
  before_get p section option value d = Raise e -> is_configparser_error e.
Proof.
  unfold before_get. destruct (p_interpolation p); [discriminate|].
  apply interpolate_some_raises.
Qed.

Lemma unify_values_raises (p : parser) (section : str) (e : exn) :
  unify_values p section = Raise e -> is_configparser_error e.
Proof.
  unfold unify_values. destruct (dict_get _ _); [discriminate|].
  destruct (str_eqb _ _); [discriminate|].
  intros H. injection H as <-. eexists; reflexivity.
Qed.


Lemma get_raises (p : parser) (section option : str) (e : exn) :
  get p section option = Raise e -> is_configparser_error e.
Proof.
  unfold get. destruct (unify_values p section) as [d|e'] eqn:E; cbn [bind].
  - destruct (dict_get d _) as [value|].
    + apply before_get_raises.
    + intros H. injection H as <-. eexists; reflexivity.
  - intros H. injection H as <-. eapply unify_values_raises; eauto.
Qed.

(** ** The default section *)

Lemma default_not_a_section (fs : filesystem) (path : str) (pc : bool)
  (h : ConfigHandler) :
  ConfigHandler_init fs path pc = Ok h ->
  ~ In default_section (list_profiles h).
Proof.
  intros H. destruct (init_ok _ _ _ _ H) as [content [raw [seen [_ [_ [_ [C _]]]]]]].
  unfold list_profiles. pose proof (ci_sections _ _ _ _ C) as E.
  cbn [snd] in E. rewrite E. intros Hin. apply filter_In in Hin as [_ Hd].
  unfold is_default in Hd. now rewrite str_eqb_refl in Hd.
Qed.

Lemma strip_default : strip default_section = default_section.
Proof. reflexivity. Qed.

(** ** The order of the profiles *)

(** C5, as amended: for every valid input file [list_profiles] gives,
    in the order of the file and each exactly once, the normalized names
    (trimmed, lower-cased unless the case is preserved) of the section
    headers other than the parser's default section: a header named
    exactly [DEFAULT] is not listed, and neither is a header whose
    normalized name is [DEFAULT]. *)
Theorem list_profiles_in_file_order
  (fs : filesystem) (path content : str) (pc : bool) (h : ConfigHandler) :
  fs path = TextFile content ->
  ConfigHandler_init fs path pc = Ok h ->
  list_profiles h
  = filter (fun n => negb (is_default n))
      (map (clean_section_name pc)
         (filter (fun n => negb (is_default n))
            (header_names (processed_lines_of content))))
  /\ NoDup (list_profiles h).
Proof.
  intros Hfs H.
  destruct (init_ok _ _ _ _ H) as [content' [raw [seen [Hfs' [_ [R [C _]]]]]]].
  rewrite Hfs in Hfs'. injection Hfs' as <-.
  pose proof (ci_sections _ _ _ _ C) as E. cbn [snd] in E.
  unfold list_profiles. rewrite E. split.
  - now rewrite (rw_sections _ _ _ R).
  - apply NoDup_filter. apply C.
Qed.

Lemma list_profiles_in_file_order_witness :
  list_profiles (fixture_handler false)
  = filter (fun n => negb (is_default n))
      (map (clean_section_name false)
         (filter (fun n => negb (is_default n))
            (header_names (processed_lines_of fixture))))
  /\ NoDup (list_profiles (fixture_handler false)).
Proof.
  apply (list_profiles_in_file_order (single_file "config.ini" fixture)
           "config.ini" fixture false (fixture_handler false));
    vm_compute; reflexivity.
Defined.

(** C5 as the specification states it fails on a valid file that has a
    [DEFAULT] header: the header is a section of the file, and
    [list_profiles] does not show its name. *)
Lemma list_profiles_skips_default :
  let content := text_of ["[DEFAULT]"; "region = eu"; "[profile1]";
                          "key1 = value1"] in
  exists h,
    ConfigHandler_init (single_file "config.ini" content) "config.ini" false
    = Ok h
    /\ header_names (processed_lines_of content) = ["DEFAULT" : str; "profile1" : str]
    /\ list_profiles h = ["profile1" : str]
    /\ list_profiles h
       <> map (clean_section_name false)
            (header_names (processed_lines_of content)).
Proof.
  eexists. split; [vm_compute; reflexivity|].
  split; [reflexivity|]. split; [reflexivity|]. vm_compute. discriminate.
Qed.

(** ** Duplicate profile names *)

Lemma universal_newlines_incl (s : str) (c : ascii) :
  In c (universal_newlines s) -> c = NL \/ In c s.
Proof.
  assert (G : forall n s, length s <= n ->
              In c (universal_newlines s) -> c = NL \/ In c s).
  { induction n as [|n IH]; intros [|x r] L; simpl in *; try tauto; try lia.
    destruct (Ascii.eqb x CR).
    - destruct r as [|y r']; simpl.
      + intros [H|[]]. now left.
      + destruct (Ascii.eqb y NL).
        * intros [H|H]; [now left|].
          assert (L' : length r' <= n) by (simpl in L; lia).
          destruct (IH r' L' H) as [E|E]; [now left|].
          right. right. now right.
        * intros [H|H]; [now left|].
          assert (L' : length (y :: r') <= n) by (simpl in *; lia).
          destruct (IH (y :: r') L' H) as [E|E]; [now left|].
          right. now right.
    - intros [H|H]; [right; now left|].
      assert (L' : length r <= n) by lia.
      destruct (IH r L' H) as [E|E]; [now left|]. right. now right. }
  eapply G. reflexivity.
Qed.

Lemma processed_line_incl (content l : str) (c : ascii) :
  In l (processed_lines_of content) -> In c l -> c = NL \/ In c content.
Proof.
  rewrite processed_lines_of_eq. intros Hl Hc.
  apply filter_In in Hl as [Hl _]. apply in_map_iff in Hl as [line [<- Hline]].
  pose proof (iter_lines_shape (universal_newlines content)) as S.
  rewrite Forall_forall in S. unfold readlines in Hline.
  destruct (S _ Hline) as [_ [b [e [-> [Hb He]]]]].
  rewrite preprocess_line_shape in Hc by assumption.
  apply strip_incl, cut_comment_incl in Hc.
  apply universal_newlines_incl.
  eapply iter_lines_incl; [exact Hline|]. apply in_or_app. now left.
Qed.

Lemma entry_of_incl (pc : bool) (l k v : str) (c : ascii) :
  entry_of pc l = Some (k, v) -> In c v -> In c l.
Proof.
  unfold entry_of. destruct (SECTCRE l); [discriminate|].
  unfold OPTCRE. destruct (split_delim l) as [[a b]|] eqn:E; [|discriminate].
  intros H. injection H as _ <-. intros Hc. apply lstrip_incl in Hc.
  destruct (split_delim_app _ _ _ E) as [d [_ [-> _]]].
  apply in_or_app. right. now right.
Qed.

Lemma no_percent_in_pairs (pc : bool) (content : str) (raw : parser)
  (k v : str) :
  has_char PERCENT content = false ->
  raw_inv pc (processed_lines_of content) raw ->
  parser_pairs raw k v -> has_char PERCENT v = false.
Proof.
  intros Hc R H. apply has_char_false. intros Hin.
  destruct (pi_pairs _ _ _ (rw_pairs _ _ _ R) k v H) as [l [Hl [He _]]].
  apply (entry_of_incl pc l k v PERCENT He) in Hin.
  destruct (processed_line_incl content l PERCENT Hl Hin) as [E|E];
    [discriminate|].
  apply has_char_false in Hc. contradiction.
Qed.

Lemma nodup_or_split (f : str -> str) (l : list str) :
  NoDup (map f l)
  \/ exists a s b, l = a ++ s :: b /\ NoDup (map f a) /\ In (f s) (map f a).
Proof.
  induction l as [|x l IH] using rev_ind; [left; constructor|].
  destruct IH as [N|[a [s [b [-> [Na Hs]]]]]].
  - destruct (in_dec (list_eq_dec ascii_dec) (f x) (map f l)) as [I|I].
    + right. exists l, x, []. auto.
    + left. rewrite map_app. simpl.
      apply NoDup_app; [exact N|repeat constructor; tauto|].
      intros y Hy [<-|[]]. contradiction.
  - right. exists a, s, (b ++ [x]). rewrite <- app_assoc. auto.
Qed.

(** C2, as amended: when the parser accepts the preprocessed text and
    two of the sections it returns (the headers of the file other than
    [DEFAULT]) have the same normalized name, construction fails with a
    [ValueError]; in a file without percent signs it is the duplicate
    profile error of [load_config], naming the normalized name of the
    first section that repeats an earlier one.  ([A] and [a] collide in
    this way when the case is not preserved.) *)
Theorem duplicate_profile_rejected
  (fs : filesystem) (path content : str) (pc : bool) (raw : parser) :
  fs path = TextFile content ->
  read_string pc (preprocess_file content) = Ok raw ->
  ~ NoDup (map (clean_section_name pc) (sections raw)) ->
  sections raw
  = filter (fun n => negb (is_default n))
      (header_names (processed_lines_of content))
  /\ exists m,
      ConfigHandler_init fs path pc = Raise (ValueError m)
      /\ (has_char PERCENT content = false ->
          exists a s b,
            sections raw = a ++ s :: b
            /\ NoDup (map (clean_section_name pc) a)
            /\ In (clean_section_name pc s) (map (clean_section_name pc) a)
            /\ m = duplicate_profile_message (clean_section_name pc s)).
Proof.
  intros Hfs Hread Hdup.
  pose proof (read_string_inv pc content raw Hread) as R.
  split; [apply R|].
  unfold ConfigHandler_init, load_config, load_config_try.
  rewrite Hfs, Hread. cbn [bind].
  pose proof (clean_loop pc _ raw (processed_lines_clean content) R
                (sections raw) [] _ (clean_inv_init pc _) (fun s H => H)) as L.
  destruct (for_each (clean_section pc raw) (sections raw)
              ([], ConfigParser pc)) as [state|e].
  - exfalso. apply Hdup. apply (ci_nodup _ _ _ _ L).
  - destruct L as [m [-> L]]. exists m. split; [reflexivity|].
    intros Hc. destruct L as [L|[k [v [i [Hp [Hv _]]]]]]; [exact L|].
    rewrite (no_percent_in_pairs pc content raw k v Hc R Hp) in Hv.
    discriminate.
Qed.

Lemma duplicate_profile_rejected_witness :
  let content := text_of ["[A]"; "[a]"] in
  let raw := mkParser false NoInterpolation []
               [("A" : str, []); ("a" : str, [])] in
  sections raw
  = filter (fun n => negb (is_default n))
      (header_names (processed_lines_of content))
  /\ exists m,
      ConfigHandler_init (single_file "config.ini" content) "config.ini" false
      = Raise (ValueError m)
      /\ (has_char PERCENT content = false ->
          exists a s b,
            sections raw = a ++ s :: b
            /\ NoDup (map (clean_section_name false) a)
            /\ In (clean_section_name false s)
                 (map (clean_section_name false) a)
            /\ m = duplicate_profile_message (clean_section_name false s)).
Proof.
  apply (duplicate_profile_rejected
           (single_file "config.ini" (text_of ["[A]"; "[a]"]))
           "config.ini" (text_of ["[A]"; "[a]"]) false).
  - reflexivity.
  - reflexivity.
  - intros N. vm_compute in N. inversion N as [|? ? Hn _].
    apply Hn. now left.
Defined.

(** C2 as the specification states it fails in two ways.  Two identical
    headers are rejected by the parser before [load_config] compares
    names, so the error is the parse error and names the header as
    written; and two [DEFAULT] headers are no error at all. *)
Lemma duplicate_headers_without_duplicate_profile :
  header_names (processed_lines_of (text_of ["[A]"; "[A]"]))
  = ["A" : str; "A" : str]
  /\ ConfigHandler_init (single_file "config.ini" (text_of ["[A]"; "[A]"]))
       "config.ini" false
     = Raise (ValueError
                ("Error parsing config file: While reading from '<string>' "
                   ++ "[line  2]: section 'A' already exists"))
  /\ ConfigHandler_init (single_file "config.ini" (text_of ["[A]"; "[A]"]))
       "config.ini" false
     <> Raise (ValueError (duplicate_profile_message "a"))
  /\ header_names (processed_lines_of (text_of ["[DEFAULT]"; "[DEFAULT]"]))
     = ["DEFAULT" : str; "DEFAULT" : str]
  /\ exists h,
      ConfigHandler_init
        (single_file "config.ini" (text_of ["[DEFAULT]"; "[DEFAULT]"]))
        "config.ini" false = Ok h.
Proof.
  split; [reflexivity|]. split; [reflexivity|].
  split; [vm_compute; discriminate|]. split; [reflexivity|].
  eexists. vm_compute. reflexivity.
Qed.

(** ** What the accessors read *)

Lemma items_loop_spec (p : parser) (section : str) (m : dict str) :
  forall l acc d,
    (forall k raw, In (k, raw) l -> dict_get m k = Some raw) ->
    for_each (fun acc option =>
                match dict_get m option with
                | Some raw =>
                    value <- before_get p section option raw m ;;
                    Ok (acc ++ [(option, value)])
                | None => Ok acc
                end) (dict_keys l) acc = Ok d ->
    exists vs,
      d = acc ++ vs
      /\ Forall2 (fun kr kv =>
                    fst kr = fst kv
                    /\ before_get p section (fst kr) (snd kr) m = Ok (snd kv))
           l vs.
Proof.
  induction l as [|[k raw] l IH]; intros acc d Hm; simpl.
  - intros H. injection H as <-. exists []. split; [now rewrite app_nil_r|].
    constructor.
  - rewrite (Hm k raw) by now left.
    destruct (before_get p section k raw m) as [v|] eqn:B; cbn [bind];
      [|discriminate].
    intros H. apply IH in H as [vs [-> F]];
      [|intros; apply Hm; now right].
    exists ((k, v) :: vs). rewrite <- app_assoc. split; [reflexivity|].
    constructor; [|exact F]. simpl. auto.
Qed.

Lemma items_spec (p : parser) (section : str) (m d : dict str) :
  unify_values p section = Ok m -> NoDup (dict_keys m) ->
  items p section = Ok d ->
  Forall2 (fun kr kv =>
             fst kr = fst kv
             /\ before_get p section (fst kr) (snd kr) m = Ok (snd kv))
    m d.
Proof.
  intros Hu N. unfold items. rewrite Hu. cbn [bind]. intros H.
  apply items_loop_spec in H as [vs [-> F]]; [exact F|].
  intros k raw. now apply in_dict_get.
Qed.

Lemma Forall2_keys (p : parser) (section : str) (m0 m d : dict str) :
  Forall2 (fun kr kv =>
             fst kr = fst kv
             /\ before_get p section (fst kr) (snd kr) m0 = Ok (snd kv))
    m d ->
  dict_keys d = dict_keys m.
Proof.
  induction 1 as [|[k r] [k' v] m d [E _] F IH]; simpl; [reflexivity|].
  simpl in E. now rewrite IH, E.
Qed.

Lemma Forall2_pairs_backward (p : parser) (section : str) (m0 m d : dict str)
  (k v : str) :
  Forall2 (fun kr kv =>
             fst kr = fst kv
             /\ before_get p section (fst kr) (snd kr) m0 = Ok (snd kv))
    m d ->
  In (k, v) d ->
  exists raw, In (k, raw) m /\ before_get p section k raw m0 = Ok v.
Proof.
  induction 1 as [|[k1 r] [k' v'] m d [E B] F IH]; simpl; [tauto|].
  simpl in E, B. subst k'. intros [H|H].
  - injection H as -> ->. exists r. auto.
  - destruct (IH H) as [raw [Hr Hb]]. exists raw. auto.
Qed.

Lemma Forall2_pairs_forward (p : parser) (section : str) (m0 m d : dict str)
  (k raw : str) :
  Forall2 (fun kr kv =>
             fst kr = fst kv
             /\ before_get p section (fst kr) (snd kr) m0 = Ok (snd kv))
    m d ->
  In (k, raw) m ->
  exists v, In (k, v) d /\ before_get p section k raw m0 = Ok v.
Proof.
  induction 1 as [|[k1 r] [k' v'] m d [E B] F IH]; simpl; [tauto|].
  simpl in E, B. subst k'. intros [H|H].
  - injection H as -> ->. exists v'. auto.
  - destruct (IH H) as [v [Hv Hb]]. exists v. auto.
Qed.

Lemma dict_mem_update {V} (other d : dict V) (k : str) :
  dict_mem (dict_update d other) k = dict_mem d k || dict_mem other k.
Proof.
  unfold dict_update. revert d.
  induction other as [|[k0 v0] other IH]; intros d; simpl.
  - now rewrite orb_false_r.
  - rewrite IH. cbn [fst snd]. rewrite dict_mem_set.
    unfold dict_mem at 4. simpl.
    destruct (str_eqb k0 k); simpl.
    + now rewrite orb_true_r.
    + destruct (dict_mem d k); reflexivity.
Qed.

(** The parser of a constructed handler: what [unify_values] gives for a
    profile the accessors accept, and how [has_option] reads it. *)
Lemma constructed_unify (fs : filesystem) (path : str) (pc : bool)
  (h : ConfigHandler) (p : str) :
  ConfigHandler_init fs path pc = Ok h ->
  contains (config h) p = true ->
  exists m,
    unify_values (config h) p = Ok m
    /\ NoDup (dict_keys m)
    /\ (forall k, has_option (config h) p k
                  = dict_mem m (optionxform pc k))
    /\ (forall k raw, In (k, raw) m -> parser_pairs (config h) k raw).
Proof.
  intros H Hc.
  destruct (init_ok _ _ _ _ H) as [content [raw [seen [_ [_ [_ [C _]]]]]]].
  pose proof (ci_case _ _ _ _ C) as Hpc. cbn [snd] in Hpc.
  pose proof (ci_pairs _ _ _ _ C) as I. cbn [snd] in I.
  pose proof (ci_empty_name _ _ _ _ C) as Hemp. cbn [snd] in Hemp.
  unfold unify_values, has_option. rewrite Hpc.
  destruct (dict_get (_sections (config h)) p) as [d|] eqn:Ed.
  - exists (dict_update (_defaults (config h)) d).
    split; [reflexivity|]. split; [apply dict_update_nodup, I|]. split.
    + intros k. rewrite dict_mem_update.
      assert (Hnd : str_eqb p default_section = false).
      { apply str_eqb_neq. intros ->.
        apply dict_get_mem, dict_mem_keys in Ed.
        now apply (default_not_a_section _ _ _ _ H). }
      rewrite Hnd. destruct p as [|c p']; simpl.
      * rewrite (Hemp d) by now apply dict_get_in.
        unfold dict_mem at 2. simpl. now rewrite orb_false_r.
      * apply orb_comm.
    + intros k r Hin. apply dict_update_in in Hin as [Hin|Hin]; [now left|].
      right. exists p, d. split; [now apply dict_get_in|exact Hin].
  - unfold contains, has_section in Hc.
    apply dict_get_none in Ed. rewrite Ed, orb_false_r in Hc.
    rewrite Hc. exists (_defaults (config h)).
    split; [reflexivity|]. split; [apply I|]. split.
    + intros k. now rewrite orb_true_r.
    + intros k r Hin. now left.
Qed.

Lemma contains_present (h : ConfigHandler) (p : str) :
  contains (config h) p = true
  <-> In p (list_profiles h) \/ p = default_section.
Proof.
  unfold contains, has_section, list_profiles, sections.
  rewrite orb_true_iff, str_eqb_eq, dict_mem_keys. tauto.
Qed.

Lemma messages_differ (k p : str) :
  profile_not_found_message p <> key_not_found_message k p.
Proof. discriminate. Qed.

(** ** [get_value] *)




(** ** Keys and values of [get_config] *)

Lemma get_config_in (h : ConfigHandler) (cfg : dict (dict str))
  (s : str) (d : dict str) :
  get_config h = Ok cfg -> In (s, d) cfg -> items (config h) s = Ok d.
Proof.
  unfold get_config.
  assert (G : forall todo acc,
            (forall s d, In (s, d) acc -> items (config h) s = Ok d) ->
            for_each (fun config_dict section =>
                        pairs <- items (config h) section ;;
                        Ok (dict_set config_dict section pairs)) todo acc
            = Ok cfg ->
            forall s d, In (s, d) cfg -> items (config h) s = Ok d).
  { induction todo as [|x todo IH]; intros acc Hacc; simpl.
    - intros E. injection E as <-. exact Hacc.
    - destruct (items (config h) x) as [pairs|] eqn:Ei; cbn [bind];
        [|discriminate].
      apply IH. intros s0 d0 Hin.
      apply dict_set_in in Hin as [[-> ->]|Hin]; [exact Ei|now apply Hacc]. }
  intros E. apply (G _ [] (fun _ _ F => match F with end) E).
Qed.

(** C8: in the configuration that [get_config] returns, every key is
    the key of an assignment line of the file under the case mode,
    lower-cased by default and as written when the case is preserved,
    and its value is the text of that line's value with only the
    parser's [%] interpolation applied: the text itself when it holds
    no percent sign.  No case change is applied to a value in either
    mode.  In the test file the key [keyA] with the value [valueA] is
    shown as [keya: valueA] by default and as [keyA: valueA] when the
    case is preserved. *)
Theorem keys_follow_case_mode_values_kept :
  (forall (fs : filesystem) (path content : str) (pc : bool)
          (h : ConfigHandler) (cfg : dict (dict str))
          (section : str) (pairs : dict str) (k v : str),
      fs path = TextFile content ->
      ConfigHandler_init fs path pc = Ok h ->
      get_config h = Ok cfg ->
      In (section, pairs) cfg -> In (k, v) pairs ->
      exists line k0 v0 m,
        In line (processed_lines_of content)
        /\ SECTCRE line = None /\ OPTCRE line = Some (k0, v0)
        /\ k = (if pc then k0 else lower k0)
        /\ unify_values (config h) section = Ok m
        /\ dict_get m k = Some v0
        /\ before_get (config h) section k v0 m = Ok v
        /\ (has_char PERCENT v0 = false -> v = v0))
  /\ get_config (fixture_handler false)
     = Ok [("profile1" : str,
            [("key1" : str, "value1" : str); ("key2" : str, "value2" : str)]);
           ("profile2" : str,
            [("keya" : str, "valueA" : str); ("keyb" : str, "valueB" : str)]);
           ("profile3" : str,
            [("keyx" : str, "valueX" : str); ("keyy" : str, "valueY" : str)])]
  /\ get_config (fixture_handler true)
     = Ok [("profile1" : str,
            [("key1" : str, "value1" : str); ("key2" : str, "value2" : str)]);
           ("profile2" : str,
            [("keyA" : str, "valueA" : str); ("keyB" : str, "valueB" : str)]);
           ("profile3" : str,
            [("keyX" : str, "valueX" : str); ("keyY" : str, "valueY" : str)])].
Proof.
  split; [|split; reflexivity].
  intros fs path content pc h cfg section pairs k v Hfs H Hcfg Hs Hk.
  pose proof (get_config_in h cfg section pairs Hcfg Hs) as Hi.
  assert (Hc : contains (config h) section = true).
  { unfold contains.
    destruct (str_eqb section default_section) eqn:Ed; [reflexivity|].
    simpl. unfold items, unify_values in Hi. unfold has_section, dict_mem.
    destruct (dict_get (_sections (config h)) section); [reflexivity|].
    rewrite Ed in Hi. discriminate. }
  destruct (constructed_unify fs path pc h section H Hc)
    as [m [Hu [N [_ Hpairs]]]].
  pose proof (items_spec _ _ _ _ Hu N Hi) as F.
  destruct (Forall2_pairs_backward _ _ _ _ _ _ _ F Hk) as [raw [Hraw Hb]].
  destruct (init_ok _ _ _ _ H)
    as [content' [raw_parser [seen [Hfs' [_ [_ [C _]]]]]]].
  rewrite Hfs in Hfs'. injection Hfs' as <-.
  destruct (pi_pairs _ _ _ (ci_pairs _ _ _ _ C) k raw (Hpairs k raw Hraw))
    as [line [Hline [He _]]].
  unfold entry_of in He.
  destruct (SECTCRE line) eqn:Es; [discriminate|].
  destruct (OPTCRE line) as [[k0 v0]|] eqn:Eo; [|discriminate].
  injection He as <- <-.
  exists line, k0, v0, m. repeat split; try assumption.
  - now apply in_dict_get.
  - intros Hp. rewrite (before_get_plain _ _ _ _ _ Hp) in Hb. congruence.
Qed.

Lemma keys_follow_case_mode_values_kept_witness :
  exists line k0 v0 m,
    In line (processed_lines_of fixture)
    /\ SECTCRE line = None /\ OPTCRE line = Some (k0, v0)
    /\ ("keya" : str) = lower k0
    /\ unify_values (config (fixture_handler false)) "profile2" = Ok m
    /\ dict_get m "keya" = Some v0
    /\ before_get (config (fixture_handler false)) "profile2" "keya" v0 m
       = Ok ("valueA" : str)
    /\ (has_char PERCENT v0 = false -> ("valueA" : str) = v0).
Proof.
  destruct keys_follow_case_mode_values_kept as [G _].
  apply (G (single_file "config.ini" fixture) "config.ini" fixture false
           (fixture_handler false)
           [("profile1" : str,
             [("key1" : str, "value1" : str); ("key2" : str, "value2" : str)]);
            ("profile2" : str,
             [("keya" : str, "valueA" : str); ("keyb" : str, "valueB" : str)]);
            ("profile3" : str,
             [("keyx" : str, "valueX" : str); ("keyy" : str, "valueY" : str)])]
           "profile2"
           [("keya" : str, "valueA" : str); ("keyb" : str, "valueB" : str)]);
    try (vm_compute; reflexivity).
  - right. left. reflexivity.
  - left. reflexivity.
Defined.

(** ** Duplicate keys *)

Lemma read_clean_lines_app (pc : bool) (a b : list str) :
  b <> [] ->
  forall st n,
    read_clean_lines pc st n (a ++ b)
    = (st' <- read_nl_lines pc st n a ;;
       read_clean_lines pc st' (n + length a) b).
Proof.
  intros Hb. induction a as [|x a IH]; intros st n.
  - simpl. now rewrite Nat.add_0_r.
  - cbn [app read_clean_lines read_nl_lines length].
    assert (E : (match a ++ b with [] => x | _ => x ++ [NL] end) = x ++ [NL]).
    { destruct a; [destruct b; [congruence|reflexivity]|reflexivity]. }
    rewrite E. destruct (read_clean pc st n (x ++ [NL]) x); cbn [bind];
      [|reflexivity].
    rewrite IH. now rewrite Nat.add_succ_r.
Qed.

Lemma read_nl_lines_app (pc : bool) (a b : list str) :
  forall st n,
    read_nl_lines pc st n (a ++ b)
    = (st' <- read_nl_lines pc st n a ;;
       read_nl_lines pc st' (n + length a) b).
Proof.
  induction a as [|x a IH]; intros st n.
  - simpl. now rewrite Nat.add_0_r.
  - cbn [app read_nl_lines length].
    destruct (read_clean pc st n (x ++ [NL]) x); cbn [bind]; [|reflexivity].
    rewrite IH. now rewrite Nat.add_succ_r.
Qed.

Lemma read_clean_raises (pc : bool) (st : read_state) (n : nat)
  (line x : str) (e : exn) :
  read_clean pc st n line x = Raise e ->
  exists ce, e = ConfigParserError ce /\ error_lineno ce = Some n.
Proof.
  unfold read_clean, read_header, read_option.
  destruct (SECTCRE x).
  - destruct (dict_mem _ _).
    + destruct (set_mem _ _); [|discriminate].
      intros H. injection H as <-. eexists. split; reflexivity.
    + destruct (str_eqb _ _); discriminate.
  - destruct (rs_sectname st).
    + destruct (OPTCRE x) as [[k0 v0]|]; [|discriminate].
      destruct (pair_mem _ _); [|discriminate].
      intros H. injection H as <-. eexists. split; reflexivity.
    + intros H. injection H as <-. eexists. split; reflexivity.
Qed.

Lemma read_nl_lines_raises (pc : bool) (ls : list str) :
  forall st n e,
    read_nl_lines pc st n ls = Raise e ->
    exists ce m, e = ConfigParserError ce /\ error_lineno ce = Some m
                 /\ n <= m < n + length ls.
Proof.
  induction ls as [|x r IH]; intros st n e; simpl; [discriminate|].
  destruct (read_clean pc st n (x ++ [NL]) x) as [st'|e'] eqn:E; cbn [bind].
  - intros H. destruct (IH _ _ _ H) as [ce [m [A [B C]]]].
    exists ce, m. repeat split; auto; lia.
  - intros H. injection H as <-.
    destruct (read_clean_raises _ _ _ _ _ _ E) as [ce [A B]].
    exists ce, n. repeat split; auto; lia.
Qed.

Lemma read_clean_lines_raises (pc : bool) (ls : list str) :
  forall st n e,
    read_clean_lines pc st n ls = Raise e -> is_configparser_error e.
Proof.
  induction ls as [|x r IH]; intros st n e; simpl; [discriminate|].
  destruct (read_clean pc st n _ x) as [st'|e'] eqn:E; cbn [bind].
  - apply IH.
  - intros H. injection H as <-.
    destruct (read_clean_raises _ _ _ _ _ _ E) as [ce [A _]]. now exists ce.
Qed.

Lemma OPTCRE_rstripped (x k v : str) : OPTCRE x = Some (k, v) -> rstrip k = k.
Proof.
  unfold OPTCRE. destruct (split_delim x) as [[a b]|]; [|discriminate].
  intros H. injection H as <- _. apply rstrip_idem.
Qed.

Lemma read_option_fields (pc : bool) (st st' : read_state) (n : nat)
  (line x s : str) :
  read_option pc st n 0 line x s = Ok st' ->
  rs_sectname st' = rs_sectname st
  /\ (forall q, In q (rs_added_options st) -> In q (rs_added_options st'))
  /\ (forall k v, OPTCRE x = Some (k, v) ->
                  In (s, optionxform pc k) (rs_added_options st')).
Proof.
  unfold read_option. destruct (OPTCRE x) as [[k0 v0]|] eqn:E.
  - destruct (pair_mem _ _); [discriminate|].
    intros H. injection H as <-.
    match goal with |- context [cursect_set ?st1 ?a ?b ?c] =>
      destruct (cursect_set_fields st1 a b c) as [_ [_ [F3 [F4 _]]]] end.
    rewrite F3, F4. simpl. split; [reflexivity|]. split.
    + intros q Hq. now right.
    + intros k v H. injection H as <- <-. left.
      now rewrite (OPTCRE_rstripped _ _ _ E).
  - intros H. injection H as <-. simpl. split; [reflexivity|].
    split; [auto|discriminate].
Qed.

Lemma read_nl_lines_no_header (pc : bool) (ls : list str) (s : str) :
  Forall (fun x => SECTCRE x = None) ls ->
  forall st st' n,
    rs_sectname st = Some s ->
    read_nl_lines pc st n ls = Ok st' ->
    rs_sectname st' = Some s
    /\ (forall q, In q (rs_added_options st) -> In q (rs_added_options st')).
Proof.
  induction 1 as [|x r Hx Hr IH]; intros st st' n Hs; simpl.
  - intros H. injection H as <-. auto.
  - unfold read_clean at 1. rewrite Hx, Hs.
    destruct (read_option pc st n 0 (x ++ [NL]) x s) as [st1|] eqn:E;
      cbn [bind]; [|discriminate].
    destruct (read_option_fields _ _ _ _ _ _ _ E) as [A [B _]].
    intros H. destruct (IH st1 st' (S n)) as [C D]; [congruence|exact H|].
    split; [exact C|auto].
Qed.

Lemma read_header_sectname (st st' : read_state) (n : nat) (h : str) :
  read_header st n 0 h = Ok st' -> rs_sectname st' = Some h.
Proof.
  unfold read_header. destruct (dict_mem _ _).
  - destruct (set_mem _ _); [discriminate|]. intros H. now injection H as <-.
  - destruct (str_eqb _ _); intros H; now injection H as <-.
Qed.

(** The handler's own duplicate key error is out of reach: no file makes
    construction fail with it. *)
Lemma duplicate_key_error_unreachable
  (fs : filesystem) (path : str) (pc : bool) (key section : str) :
  ConfigHandler_init fs path pc
  <> Raise (ValueError (duplicate_key_message key section)).
Proof.
  unfold ConfigHandler_init, load_config.
  destruct (fs path) as [|class_name msg|content]; [discriminate|discriminate|].
  unfold load_config_try.
  destruct (read_string pc (preprocess_file content)) as [raw|e] eqn:Er.
  - cbn [bind].
    pose proof (read_string_inv pc content raw Er) as R.
    pose proof (clean_loop pc _ raw (processed_lines_clean content) R
                  (sections raw) [] _ (clean_inv_init pc _) (fun s H => H)) as L.
    destruct (for_each (clean_section pc raw) (sections raw)
                ([], ConfigParser pc)) as [state|e]; cbn [bind].
    + discriminate.
    + destruct L as [m [-> [[a [s [b [_ [_ [_ ->]]]]]]|[k [v [i [_ [_ ->]]]]]]]];
        cbn [bind]; discriminate.
  - rewrite read_string_preprocessed in Er.
    assert (C : is_configparser_error e).
    { destruct (read_clean_lines pc read_state_init 1
                  (processed_lines_of content)) as [st|e'] eqn:E;
        cbn [bind] in Er.
      - destruct (rs_e st); [discriminate|]. injection Er as <-.
        eexists; reflexivity.
      - injection Er as <-. eapply read_clean_lines_raises; eauto. }
    destruct C as [ce ->]. cbn [bind]. discriminate.
Qed.

Lemma read_section_block (pc : bool) (st st' : read_state) (n : nat)
  (hdr sect : str) (mid1 : list str) (l1 : str) (mid2 : list str)
  (k v1 : str) :
  SECTCRE hdr = Some sect ->
  Forall (fun x => SECTCRE x = None) (mid1 ++ l1 :: mid2) ->
  OPTCRE l1 = Some (k, v1) ->
  read_nl_lines pc st n (hdr :: mid1 ++ l1 :: mid2) = Ok st' ->
  rs_sectname st' = Some sect
  /\ In (sect, optionxform pc k) (rs_added_options st').
Proof.
  intros Hh Hno Hk. apply Forall_app in Hno as [Hmid1 Hrest].
  inversion Hrest as [|? ? Hl1 Hmid2]; subst.
  cbn [read_nl_lines]. unfold read_clean at 1. rewrite Hh.
  destruct (read_header st n 0 sect) as [st1|] eqn:E1; cbn [bind];
    [|discriminate].
  apply read_header_sectname in E1.
  rewrite read_nl_lines_app.
  destruct (read_nl_lines pc st1 (S n) mid1) as [st2|] eqn:E2; cbn [bind];
    [|discriminate].
  destruct (read_nl_lines_no_header pc mid1 sect Hmid1 _ _ _ E1 E2) as [S2 _].
  cbn [read_nl_lines]. unfold read_clean at 1. rewrite Hl1, S2.
  destruct (read_option pc st2 _ 0 (l1 ++ [NL]) l1 sect) as [st3|] eqn:E3;
    cbn [bind]; [|discriminate].
  destruct (read_option_fields _ _ _ _ _ _ _ E3) as [S3 [_ A3]].
  intros E4.
  destruct (read_nl_lines_no_header pc mid2 sect Hmid2 _ _ _
              (eq_trans S3 S2) E4) as [S4 M4].
  split; [exact S4|]. apply M4. eapply A3. exact Hk.
Qed.

(** C1, as amended: when the preprocessed text has a section header
    followed, with no other header in between, by two assignment lines
    with the same trimmed key, construction fails with the parse error
    of [load_config], a [ValueError] that wraps the message of the
    parser's own error.  Unless the parser has raised at an earlier
    line, that error is its duplicate option error for the second line:
    it names the key under the case mode of the handler, the section as
    the header writes it, and the line.  The duplicate key error of
    [load_config] itself is never what construction fails with. *)
Theorem duplicate_key_rejected
  (fs : filesystem) (path content : str) (pc : bool)
  (before : list str) (hdr : str) (mid1 : list str) (l1 : str)
  (mid2 : list str) (l2 : str) (after : list str) (sect k v1 v2 : str) :
  fs path = TextFile content ->
  processed_lines_of content
  = before ++ hdr :: mid1 ++ l1 :: mid2 ++ l2 :: after ->
  SECTCRE hdr = Some sect ->
  Forall (fun x => SECTCRE x = None) (mid1 ++ l1 :: mid2 ++ [l2]) ->
  OPTCRE l1 = Some (k, v1) ->
  OPTCRE l2 = Some (k, v2) ->
  let lineno := S (length (before ++ hdr :: mid1 ++ l1 :: mid2)) in
  (exists ce,
      ConfigHandler_init fs path pc
      = Raise (ValueError (parse_error_message ce))
      /\ (ce = DuplicateOptionError sect (optionxform pc k) lineno
          \/ exists m, error_lineno ce = Some m /\ m < lineno))
  /\ Error_str (DuplicateOptionError sect (optionxform pc k) lineno)
     = "While reading from '<string>' [line " ++ format_2d lineno
         ++ "]: option " ++ repr (optionxform pc k) ++ " in section "
         ++ repr sect ++ " already exists"
  /\ (forall key section,
         ConfigHandler_init fs path pc
         <> Raise (ValueError (duplicate_key_message key section))).
Proof.
  intros Hfs Hlines Hh Hno Hk1 Hk2 lineno.
  split; [|split; [reflexivity|intros; apply duplicate_key_error_unreachable]].
  assert (Hno' : Forall (fun x => SECTCRE x = None) (mid1 ++ l1 :: mid2)
                 /\ SECTCRE l2 = None).
  { replace (mid1 ++ l1 :: mid2 ++ [l2]) with ((mid1 ++ l1 :: mid2) ++ [l2])
      in Hno by (rewrite <- app_assoc; reflexivity).
    apply Forall_app in Hno as [A B]. split; [exact A|now inversion B]. }
  destruct Hno' as [Hblock Hl2].
  set (prefix := before ++ hdr :: mid1 ++ l1 :: mid2) in *.
  assert (Esplit : processed_lines_of content = prefix ++ l2 :: after).
  { rewrite Hlines. unfold prefix. rewrite <- app_assoc. simpl.
    rewrite <- app_assoc. reflexivity. }
  unfold ConfigHandler_init, load_config. rewrite Hfs.
  unfold load_config_try. rewrite read_string_preprocessed, Esplit.
  rewrite read_clean_lines_app by discriminate.
  destruct (read_nl_lines pc read_state_init 1 prefix) as [st|e] eqn:Ep;
    cbn [bind].
  - (* the lines before the second assignment were read *)
    unfold prefix in Ep. rewrite read_nl_lines_app in Ep.
    destruct (read_nl_lines pc read_state_init 1 before) as [st0|] eqn:E0;
      cbn [bind] in Ep; [|discriminate].
    destruct (read_section_block pc _ _ _ hdr sect mid1 l1 mid2 k v1
                Hh Hblock Hk1 Ep) as [Hs Hin].
    cbn [read_clean_lines]. unfold read_clean at 1. rewrite Hl2, Hs.
    unfold read_option at 1. rewrite Hk2.
    rewrite (OPTCRE_rstripped _ _ _ Hk2).
    apply pair_mem_in in Hin. rewrite Hin. cbn [bind].
    eexists. split; [reflexivity|]. left. reflexivity.
  - destruct (read_nl_lines_raises _ _ _ _ _ Ep) as [ce [m [-> [Hm Hr]]]].
    exists ce. split; [reflexivity|]. right. exists m. split; [exact Hm|].
    unfold lineno. lia.
Qed.

Lemma duplicate_key_rejected_witness :
  let content := text_of ["[profile1]"; "key1 = x"; "key1 = y"] in
  let lineno := S (length ([] ++ ("[profile1]" : str) :: [] ++ ("key1 = x" : str) :: [])) in
  (exists ce,
      ConfigHandler_init (single_file "config.ini" content) "config.ini" false
      = Raise (ValueError (parse_error_message ce))
      /\ (ce = DuplicateOptionError "profile1" (optionxform false "key1") lineno
          \/ exists m, error_lineno ce = Some m /\ m < lineno))
  /\ Error_str (DuplicateOptionError "profile1" (optionxform false "key1")
                  lineno)
     = "While reading from '<string>' [line " ++ format_2d lineno
         ++ "]: option " ++ repr (optionxform false "key1") ++ " in section "
         ++ repr "profile1" ++ " already exists"
  /\ (forall key section,
         ConfigHandler_init (single_file "config.ini" content) "config.ini"
           false
         <> Raise (ValueError (duplicate_key_message key section))).
Proof.
  apply (duplicate_key_rejected
           (single_file "config.ini"
              (text_of ["[profile1]"; "key1 = x"; "key1 = y"]))
           "config.ini" (text_of ["[profile1]"; "key1 = x"; "key1 = y"]) false
           [] "[profile1]" [] "key1 = x" [] "key1 = y" []
           "profile1" "key1" "x" "y");
    try reflexivity.
  repeat constructor.
Defined.

(** C1 as the specification states it fails on its own example: the
    failure is the parse error that wraps the parser's message, not the
    duplicate key error of [load_config].  And when an assignment line
    stands before the first header, the failure of a file with the same
    section names neither the key nor the section. *)
Lemma duplicate_key_is_a_parse_error :
  ConfigHandler_init
    (single_file "config.ini"
       (text_of ["[profile1]"; "key1 = x"; "key1 = y"]))
    "config.ini" false
  = Raise (ValueError
             ("Error parsing config file: While reading from '<string>' "
                ++ "[line  3]: option 'key1' in section 'profile1' "
                ++ "already exists"))
  /\ ConfigHandler_init
       (single_file "config.ini"
          (text_of ["[profile1]"; "key1 = x"; "key1 = y"]))
       "config.ini" false
     <> Raise (ValueError (duplicate_key_message "key1" "profile1"))
  /\ ConfigHandler_init
       (single_file "config.ini"
          (text_of ["key0 = z"; "[profile1]"; "key1 = x"; "key1 = y"]))
       "config.ini" false
     = Raise (ValueError
                ("Error parsing config file: File contains no section "
                   ++ "headers." ++ [NL] ++ "file: '<string>', line: 1"
                   ++ [NL] ++ "'key0 = z\n'")).
Proof.
  split; [reflexivity|]. split; [vm_compute; discriminate|reflexivity].
Qed.

(** ** Preprocessing a text given by its lines *)

Lemma universal_newlines_id (s : str) :
  ~ In CR s -> universal_newlines s = s.
Proof.
  induction s as [|c s IH]; intros H; simpl; [reflexivity|].
  destruct (Ascii.eqb c CR) eqn:E.
  - apply Ascii.eqb_eq in E. subst. exfalso. apply H. now left.
  - f_equal. apply IH. intros Hin. apply H. now right.
Qed.

Lemma join_cons2 (sep x y : str) (r : list str) :
  join sep (x :: y :: r) = x ++ sep ++ join sep (y :: r).
Proof. reflexivity. Qed.

Lemma join_no_char (c : ascii) (L : list str) :
  c <> NL -> Forall (fun l => ~ In c l) L -> ~ In c (join [NL] L).
Proof.
  intros Hc. induction 1 as [|x r Hx Hr IH]; [simpl; tauto|].
  destruct r as [|y r']; [exact Hx|].
  rewrite join_cons2. intros H. apply in_app_or in H as [H|H]; [tauto|].
  simpl in H. destruct H as [H|H]; [congruence|tauto].
Qed.

Lemma preprocess_lines_join (L : list str) :
  Forall (fun l => ~ In NL l) L ->
  filter nonempty (map preprocess_line (iter_lines (join [NL] L)))
  = filter nonempty (map line_text L).
Proof.
  induction 1 as [|x r Hx Hr IH]; [reflexivity|].
  destruct r as [|y r'].
  - cbn [join map filter]. destruct x as [|c x'].
    + reflexivity.
    + rewrite iter_lines_single by (try discriminate; exact Hx).
      assert (E : preprocess_line (c :: x') = line_text (c :: x')).
      { rewrite <- (app_nil_r (c :: x')) at 1.
        apply preprocess_line_shape; [exact Hx|now left]. }
      cbn [map filter]. now rewrite E.
  - change (join [NL] (x :: y :: r')) with (x ++ NL :: join [NL] (y :: r')).
    rewrite iter_lines_app_nl by exact Hx.
    assert (E : preprocess_line (x ++ [NL]) = line_text x)
      by (apply preprocess_line_shape; [exact Hx|now right]).
    change (map preprocess_line ((x ++ [NL]) :: iter_lines (join [NL] (y :: r'))))
      with (preprocess_line (x ++ [NL])
              :: map preprocess_line (iter_lines (join [NL] (y :: r')))).
    change (map line_text (x :: y :: r'))
      with (line_text x :: map line_text (y :: r')).
    rewrite E. cbn [filter].
    destruct (nonempty (line_text x)); [f_equal|]; exact IH.
Qed.

Lemma processed_lines_join (L : list str) :
  Forall no_line_end L ->
  processed_lines_of (join [NL] L) = filter nonempty (map line_text L).
Proof.
  intros H. rewrite processed_lines_of_eq. unfold readlines.
  rewrite universal_newlines_id.
  - apply preprocess_lines_join. eapply Forall_impl; [|exact H].
    intros l [A _]. exact A.
  - apply join_no_char; [discriminate|].
    eapply Forall_impl; [|exact H]. intros l [_ B]. exact B.
Qed.

(** ** [rstrip] of a text given by its lines *)

Lemma rstrip_app (a b : str) :
  rstrip (a ++ b)
  = match rstrip b with [] => rstrip a | b' => a ++ b' end.
Proof.
  induction a as [|c a IH]; simpl.
  - destruct (rstrip b); reflexivity.
  - rewrite !rstrip_cons, IH.
    destruct (rstrip b) as [|y b']; [reflexivity|].
    destruct (a ++ y :: b') eqn:E; [destruct a; discriminate|reflexivity].
Qed.

Lemma rstrip_prefix (s : str) :
  exists w, forallb isspace w = true /\ s = rstrip s ++ w.
Proof.
  unfold rstrip. destruct (lstrip_decompose (rev s)) as [w [Hw E]].
  exists (rev w). split.
  - apply forallb_forall. intros c Hc. apply in_rev in Hc.
    eapply forallb_forall in Hw; eauto.
  - rewrite <- rev_app_distr, <- E. now rewrite rev_involutive.
Qed.

Lemma trim_end_nil_join (L : list str) :
  trim_end L = [] -> rstrip (join [NL] L) = [].
Proof.
  induction L as [|x r IH]; [reflexivity|]. cbn [trim_end].
  destruct (trim_end r) as [|y r'] eqn:E; [|discriminate].
  destruct (rstrip x) eqn:Ex; [|discriminate]. intros _.
  destruct r as [|z r'']; [exact Ex|].
  rewrite join_cons2, rstrip_app. cbn [app]. rewrite rstrip_cons.
  rewrite (IH eq_refl). exact Ex.
Qed.

Lemma trim_end_last_nonempty (L : list str) :
  trim_end L <> [] -> join [NL] (trim_end L) <> [].
Proof.
  induction L as [|x r IH]; [simpl; congruence|]. cbn [trim_end].
  destruct (trim_end r) as [|y r'] eqn:E.
  - destruct (rstrip x) eqn:Ex; [congruence|]. discriminate.
  - intros _. rewrite join_cons2. intros H.
    apply app_eq_nil in H as [_ H]. discriminate.
Qed.

Lemma rstrip_join_cons (x : str) (R : list str) :
  R <> [] ->
  rstrip (join [NL] (x :: R))
  = match rstrip (join [NL] R) with
    | [] => rstrip x
    | t => x ++ NL :: t
    end.
Proof.
  destruct R as [|z r]; [congruence|]. intros _.
  rewrite join_cons2, rstrip_app.
  change ([NL] ++ join [NL] (z :: r)) with (NL :: join [NL] (z :: r)).
  rewrite rstrip_cons. destruct (rstrip (join [NL] (z :: r))); reflexivity.
Qed.

Lemma trim_end_cons (x : str) (R : list str) :
  trim_end (x :: R)
  = match trim_end R with
    | [] => match rstrip x with [] => [] | x' => [x'] end
    | r' => x :: r'
    end.
Proof. reflexivity. Qed.

Lemma rstrip_join (L : list str) :
  rstrip (join [NL] L) = join [NL] (trim_end L).
Proof.
  induction L as [|x R IH]; [reflexivity|].
  destruct (list_eq_dec (list_eq_dec ascii_dec) R []) as [->|HR].
  - cbn [trim_end join]. destruct (rstrip x); reflexivity.
  - rewrite (rstrip_join_cons x R HR), IH, trim_end_cons.
    destruct (trim_end R) as [|y r'] eqn:E.
    + cbn [join]. destruct (rstrip x); reflexivity.
    + assert (N : join [NL] (y :: r') <> []).
      { rewrite <- E. apply trim_end_last_nonempty. rewrite E. discriminate. }
      destruct (join [NL] (y :: r')) eqn:Ej; [congruence|].
      rewrite join_cons2, Ej. reflexivity.
Qed.

Lemma line_text_spaces_r (x w : str) :
  forallb isspace w = true -> line_text (x ++ w) = line_text x.
Proof.
  intros Hw. unfold line_text.
  assert (G : exists w', forallb isspace w' = true
                         /\ cut_comment (x ++ w) = cut_comment x ++ w').
  { induction x as [|c x [w' [Hw' IH]]]; simpl.
    - exists w. split; [exact Hw|]. now apply cut_comment_all_space.
    - destruct (is_comment_char c).
      + exists []. split; reflexivity.
      + exists w'. split; [exact Hw'|]. now rewrite IH. }
  destruct G as [w' [Hw' ->]]. now apply strip_spaces_r.
Qed.

Lemma line_text_rstrip (x : str) : line_text (rstrip x) = line_text x.
Proof.
  destruct (rstrip_prefix x) as [w [Hw E]].
  rewrite E at 2. now rewrite line_text_spaces_r.
Qed.

Lemma line_text_blank (x : str) : rstrip x = [] -> line_text x = [].
Proof.
  intros H. rewrite <- line_text_rstrip, H. reflexivity.
Qed.

Lemma filter_map_cons {A B} (f : B -> bool) (g : A -> B) (x : A)
  (l : list A) :
  filter f (map g (x :: l))
  = if f (g x) then g x :: filter f (map g l) else filter f (map g l).
Proof. reflexivity. Qed.

Lemma trim_end_texts (L : list str) :
  filter nonempty (map line_text (trim_end L))
  = filter nonempty (map line_text L).
Proof.
  induction L as [|x r IH]; [reflexivity|]. rewrite trim_end_cons.
  destruct (trim_end r) as [|y r'] eqn:E.
  - rewrite (filter_map_cons nonempty line_text x r), <- IH.
    destruct (rstrip x) as [|c x'] eqn:Ex.
    + rewrite (line_text_blank x Ex). reflexivity.
    + rewrite <- Ex, filter_map_cons, line_text_rstrip. reflexivity.
  - rewrite !(filter_map_cons nonempty line_text x).
    destruct (nonempty (line_text x)); [f_equal|]; exact IH.
Qed.

Lemma trim_end_no_line_end (L : list str) :
  Forall no_line_end L -> Forall no_line_end (trim_end L).
Proof.
  induction 1 as [|x r Hx Hr IH]; [constructor|]. cbn [trim_end].
  destruct (trim_end r) as [|y r'].
  - destruct (rstrip x) as [|c x'] eqn:E; constructor; [|constructor].
    rewrite <- E. destruct Hx as [A B].
    split; intros H; apply rstrip_incl in H; contradiction.
  - constructor; assumption.
Qed.

(** The preprocessed lines of the text that [display_config] returns,
    when its first line starts with a character that is no
    whitespace. *)
Lemma processed_lines_strip_join (L : list str) :
  Forall no_line_end L ->
  lstrip (join [NL] L) = join [NL] L ->
  processed_lines_of (strip (join [NL] L))
  = filter nonempty (map line_text L).
Proof.
  intros H Hl. unfold strip. rewrite Hl, rstrip_join.
  rewrite processed_lines_join by now apply trim_end_no_line_end.
  apply trim_end_texts.
Qed.

(** ** Reading back what [display_config] writes: the lines *)

Lemma before_last_snoc (c : ascii) (s : str) :
  before_last c (s ++ [c]) = Some s.
Proof.
  induction s as [|x s IH]; simpl.
  - now rewrite Ascii.eqb_refl.
  - now rewrite IH.
Qed.

Lemma SECTCRE_header (n : str) :
  n <> [] -> SECTCRE ("[" ++ n ++ "]") = Some n.
Proof.
  intros H. unfold SECTCRE. cbn [list_ascii_of_string app].
  rewrite Ascii.eqb_refl, before_last_snoc.
  destruct n; [congruence|reflexivity].
Qed.

Lemma cut_comment_text (s : str) :
  forallb text_char s = true -> cut_comment s = s.
Proof.
  induction s as [|c s IH]; simpl; [reflexivity|].
  intros H. apply andb_true_iff in H as [Hc Hs].
  rewrite (text_char_not_comment c Hc). f_equal. now apply IH.
Qed.

Lemma rstrip_nonspace_last (s : str) (c : ascii) :
  isspace c = false -> rstrip (s ++ [c]) = s ++ [c].
Proof.
  intros H. rewrite rstrip_app. unfold rstrip at 1. simpl. now rewrite H.
Qed.

Lemma header_line_text (n : str) :
  forallb text_char n = true -> line_text ("[" ++ n ++ "]") = "[" ++ n ++ "]".
Proof.
  intros H. unfold line_text. rewrite cut_comment_text.
  - unfold strip. cbn [list_ascii_of_string app lstrip].
    replace (isspace "[") with false by reflexivity.
    change ("["%char :: n ++ ["]"%char]) with (("["%char :: n) ++ ["]"%char]).
    now apply rstrip_nonspace_last.
  - cbn [list_ascii_of_string app forallb]. rewrite forallb_app, H.
    reflexivity.
Qed.

Lemma strip_fixed_hd (k : str) :
  k <> [] -> strip k = k ->
  exists c k', k = c :: k' /\ isspace c = false.
Proof.
  intros Hne Hs. destruct k as [|c k']; [congruence|].
  exists c, k'. split; [reflexivity|].
  apply strip_fixed_lstrip in Hs. now apply lstrip_eq_hd in Hs.
Qed.

(** The line of a pair after preprocessing. *)
Lemma strip_render_entry_trimmed (k v : str) :
  k <> [] -> strip k = k -> strip v = v ->
  strip (render_entry (k, v))
  = k ++ " =" ++ match v with [] => [] | _ => " " ++ v end.
Proof.
  intros Hne Hk Hv. unfold render_entry. cbn [fst snd].
  destruct (strip_fixed_hd k Hne Hk) as [c [k' [-> Hc]]].
  unfold strip. cbn [app lstrip]. rewrite Hc.
  change (c :: k' ++ " = " ++ v) with ((c :: k') ++ (" = " ++ v)).
  rewrite rstrip_app.
  destruct v as [|y v'].
  - reflexivity.
  - pose proof (strip_fixed_rstrip _ Hv) as Rv.
    change (" = " ++ y :: v') with ((" = " : str) ++ (y :: v')).
    rewrite (rstrip_app " = " (y :: v')), Rv. reflexivity.
Qed.

Lemma strip_render_entry (pc : bool) (k v : str) :
  entry_wf pc k v ->
  strip (render_entry (k, v))
  = k ++ " =" ++ match v with [] => [] | _ => " " ++ v end.
Proof.
  intros W. apply strip_render_entry_trimmed; apply W.
Qed.

Lemma entry_line_text (pc : bool) (k v : str) :
  entry_wf pc k v ->
  line_text (render_entry (k, v)) = strip (render_entry (k, v))
  /\ strip (render_entry (k, v)) <> [].
Proof.
  intros W. split.
  - unfold line_text. rewrite cut_comment_text; [reflexivity|].
    unfold render_entry. cbn [fst snd].
    rewrite !forallb_app, (ew_key_text _ _ _ W), (ew_value_text _ _ _ W).
    reflexivity.
  - rewrite (strip_render_entry pc k v W).
    destruct k; [now destruct (ew_key_nonempty _ _ _ W)|discriminate].
Qed.

Lemma clean_render_spec (pc : bool) (G : dict (dict str)) :
  config_wf pc G ->
  filter nonempty (map line_text (render_config G)) = clean_render G.
Proof.
  intros W.
  assert (E : forall G', (forall n M, In (n, M) G' -> In (n, M) G) ->
              filter nonempty (map line_text (render_config G'))
              = clean_render G').
  { induction G' as [|[n M] G' IH]; intros Hin; [reflexivity|].
    unfold render_config, clean_render. cbn [flat_map].
    fold (render_config G') (clean_render G').
    rewrite map_app, filter_app, IH by (intros; apply Hin; now right).
    f_equal. unfold render_block. cbn [fst snd].
    pose proof (cw_name _ _ W n M (Hin n M (or_introl eq_refl))) as Wn.
    cbn [map filter]. rewrite header_line_text by apply Wn.
    replace (nonempty ("[" ++ n ++ "]")) with true by reflexivity.
    f_equal.
    assert (EM : forall M', (forall k v, In (k, v) M' -> In (k, v) M) ->
                 filter nonempty (map line_text (map render_entry M' ++ [[]]))
                 = map (fun kv => strip (render_entry kv)) M').
    { induction M' as [|[k v] M' IHM]; intros HinM; [reflexivity|].
      cbn [map app filter].
      destruct (entry_line_text pc k v
                  (cw_entry _ _ W n M k v (Hin n M (or_introl eq_refl))
                     (HinM k v (or_introl eq_refl)))) as [-> Hne].
      destruct (strip (render_entry (k, v))) eqn:Es; [congruence|].
      cbn [nonempty]. f_equal.
      apply IHM. intros; apply HinM; now right. }
    apply EM. auto. }
  apply E. auto.
Qed.

Lemma render_config_no_line_end (pc : bool) (G : dict (dict str)) :
  config_wf pc G -> Forall no_line_end (render_config G).
Proof.
  intros W. apply Forall_forall. intros l Hl.
  unfold render_config in Hl. apply in_flat_map in Hl as [[n M] [Hn Hl]].
  assert (T : forallb text_char l = true).
  { destruct Hl as [<-|Hl].
    - cbn [fst list_ascii_of_string app forallb].
      rewrite forallb_app, (nw_text _ _ (cw_name _ _ W n M Hn)). reflexivity.
    - cbn [snd] in Hl. apply in_app_or in Hl as [Hl|[<-|[]]]; [|reflexivity].
      apply in_map_iff in Hl as [[k v] [<- Hkv]].
      pose proof (cw_entry _ _ W n M k v Hn Hkv) as We.
      unfold render_entry. cbn [fst snd].
      rewrite !forallb_app, (ew_key_text _ _ _ We), (ew_value_text _ _ _ We).
      reflexivity. }
  split; [now apply text_char_not_nl|now apply text_char_not_cr].
Qed.

Lemma render_config_lstripped (G : dict (dict str)) :
  lstrip (join [NL] (render_config G)) = join [NL] (render_config G).
Proof.
  destruct G as [|[n M] G]; [reflexivity|].
  unfold render_config. cbn [flat_map render_block fst snd app].
  destruct (map render_entry M ++ [[]] ++ flat_map render_block G) eqn:E.
  - destruct (map render_entry M); discriminate.
  - apply lstrip_eq_hd.
    match goal with |- context [join ?s (?x :: ?r)] =>
      destruct r; cbn [join list_ascii_of_string app]; reflexivity end.
Qed.

(** The preprocessed lines of the text of [display_config]. *)
Lemma processed_lines_display (pc : bool) (G : dict (dict str)) :
  config_wf pc G ->
  processed_lines_of (strip (join [NL] (render_config G))) = clean_render G.
Proof.
  intros W. rewrite processed_lines_strip_join.
  - now apply clean_render_spec with (pc := pc).
  - now apply render_config_no_line_end with (pc := pc).
  - apply render_config_lstripped.
Qed.

(** ** Reading back what [display_config] writes: the parser *)

Lemma read_clean_lines_tagged (pc : bool) (ls : list str) :
  forall st n,
    read_clean_lines pc st n ls = read_tagged pc st n (tag_lines ls).
Proof.
  induction ls as [|x r IH]; intros st n; [reflexivity|].
  cbn [read_clean_lines tag_lines read_tagged fst snd].
  destruct (read_clean pc st n _ x); cbn [bind]; [apply IH|reflexivity].
Qed.

Lemma read_tagged_app (pc : bool) (a b : list (str * str)) :
  forall st n,
    read_tagged pc st n (a ++ b)
    = (st' <- read_tagged pc st n a ;; read_tagged pc st' (n + length a) b).
Proof.
  induction a as [|x a IH]; intros st n.
  - simpl. now rewrite Nat.add_0_r.
  - cbn [app read_tagged length].
    destruct (read_clean pc st n (fst x) (snd x)); cbn [bind]; [|reflexivity].
    rewrite IH. now rewrite Nat.add_succ_r.
Qed.

Lemma split_delim_app_plain (a s : str) :
  forallb (fun x => negb (is_delim x)) a = true ->
  split_delim (a ++ s)
  = match split_delim s with
    | Some (x, y) => Some (a ++ x, y)
    | None => None
    end.
Proof.
  induction a as [|c a IH]; intros H; simpl.
  - destruct (split_delim s) as [[x y]|]; reflexivity.
  - simpl in H. apply andb_true_iff in H as [Hc Ha].
    apply negb_true_iff in Hc. rewrite Hc, (IH Ha).
    destruct (split_delim s) as [[x y]|]; reflexivity.
Qed.

Lemma OPTCRE_render (pc : bool) (k v : str) :
  entry_wf pc k v -> OPTCRE (strip (render_entry (k, v))) = Some (k, v).
Proof.
  intros W. rewrite (strip_render_entry pc k v W). unfold OPTCRE.
  rewrite split_delim_app_plain by apply W.
  cbn [list_ascii_of_string app split_delim is_delim].
  replace (is_delim " ") with false by reflexivity.
  replace (is_delim "=") with true by reflexivity.
  rewrite rstrip_spaces by reflexivity.
  rewrite (strip_fixed_rstrip _ (ew_key_trimmed _ _ _ W)).
  destruct v as [|y v']; [reflexivity|].
  cbn [list_ascii_of_string app].
  change (" "%char :: y :: v') with ([" "%char] ++ (y :: v')).
  rewrite lstrip_spaces by reflexivity.
  now rewrite (strip_fixed_lstrip _ (ew_value_trimmed _ _ _ W)).
Qed.

Lemma dict_get_map_box_section (done : dict (dict str)) (n : str) :
  dict_get (map box_section done) n
  = option_map (map box) (dict_get done n).
Proof.
  induction done as [|[n' M] done IH]; [reflexivity|].
  cbn [map box_section dict_get fst snd].
  destruct (str_eqb n' n); [reflexivity|exact IH].
Qed.

Lemma dict_keys_map_box_section (done : dict (dict str)) :
  dict_keys (map box_section done) = dict_keys done.
Proof. unfold dict_keys. rewrite map_map. reflexivity. Qed.

Lemma dict_keys_map_box (M : dict str) :
  dict_keys (map box M) = dict_keys M.
Proof. unfold dict_keys. rewrite map_map. reflexivity. Qed.

Lemma dict_get_last {V} (d : dict V) (n : str) (v : V) :
  ~ In n (dict_keys d) -> dict_get (d ++ [(n, v)]) n = Some v.
Proof.
  intros H. rewrite dict_get_app_fresh by now apply dict_mem_false.
  now rewrite str_eqb_refl.
Qed.

Lemma dict_set_last {V} (d : dict V) (n : str) (v v' : V) :
  ~ In n (dict_keys d) -> dict_set (d ++ [(n, v)]) n v' = d ++ [(n, v')].
Proof.
  induction d as [|[k0 v0] d IH]; intros H; simpl.
  - now rewrite str_eqb_refl.
  - simpl in H. destruct (str_eqb k0 n) eqn:E.
    + apply str_eqb_eq in E. subst. tauto.
    + f_equal. apply IH. tauto.
Qed.

Lemma dict_set_fresh {V} (d : dict V) (k : str) (v : V) :
  ~ In k (dict_keys d) -> dict_set d k v = d ++ [(k, v)].
Proof.
  induction d as [|[k0 v0] d IH]; intros H; simpl; [reflexivity|].
  simpl in H. destruct (str_eqb k0 k) eqn:E.
  - apply str_eqb_eq in E. subst. tauto.
  - f_equal. apply IH. tauto.
Qed.

(** A header line opens a new block. *)
Lemma read_back_header (pc : bool) (done : dict (dict str))
  (st : read_state) (n : str) :
  rt_inv done st -> ~ In n (dict_keys done) ->
  n <> [] -> n <> default_section ->
  forall lineno line,
  exists st',
    read_clean pc st lineno line ("[" ++ n ++ "]") = Ok st'
    /\ rt_inv (done ++ [(n, [])]) st'
    /\ rs_sectname st' = Some n.
Proof.
  intros I Hfresh Hne Hnd lineno line.
  unfold read_clean. rewrite (SECTCRE_header n Hne). unfold read_header.
  assert (E1 : dict_mem (rs_sections st) n = false).
  { apply dict_mem_false. rewrite (rt_sections _ _ I).
    now rewrite dict_keys_map_box_section. }
  assert (E2 : str_eqb n default_section = false) by now apply str_eqb_neq.
  rewrite E1, E2. eexists. split; [reflexivity|]. split; [|reflexivity].
  constructor; simpl.
  - apply I.
  - rewrite map_app. simpl. f_equal. apply I.
  - intros n0 k0 H. destruct (rt_options _ _ I n0 k0 H) as [M [HM Hk]].
    exists M. split; [apply in_or_app; now left|exact Hk].
  - apply I.
Qed.

(** An assignment line adds its pair to the open block. *)
Lemma read_back_entry (pc : bool) (G1 : dict (dict str)) (n : str)
  (M1 : dict str) (st : read_state) (k v : str) :
  rt_inv (G1 ++ [(n, M1)]) st -> rs_sectname st = Some n ->
  ~ In n (dict_keys G1) -> n <> default_section ->
  entry_wf pc k v -> ~ In k (dict_keys M1) ->
  forall lineno line,
  exists st',
    read_clean pc st lineno line (strip (render_entry (k, v))) = Ok st'
    /\ rt_inv (G1 ++ [(n, M1 ++ [(k, v)])]) st'
    /\ rs_sectname st' = Some n.
Proof.
  intros I Hs Hn Hnd W Hk lineno line.
  unfold read_clean. rewrite (ew_not_header _ _ _ W), Hs.
  unfold read_option. rewrite (OPTCRE_render pc k v W).
  assert (Ek : nonempty k = true).
  { destruct k; [now destruct (ew_key_nonempty _ _ _ W)|reflexivity]. }
  rewrite Ek, (strip_fixed_rstrip _ (ew_key_trimmed _ _ _ W)),
    (ew_key_case _ _ _ W), (ew_value_trimmed _ _ _ W).
  assert (Ep : pair_mem (n, k) (rs_added_options st) = false).
  { destruct (pair_mem (n, k) (rs_added_options st)) eqn:E; [|reflexivity].
    apply pair_mem_in in E.
    destruct (rt_options _ _ I n k E) as [M [HM HkM]].
    apply in_app_or in HM as [HM|[HM|[]]].
    - exfalso. apply Hn. change n with (fst (n, M)). now apply in_map.
    - injection HM as <-. contradiction. }
  rewrite Ep. eexists. split; [reflexivity|].
  match goal with |- context [cursect_set ?st1 _ _ _] => set (st1' := st1) end.
  assert (Es : rs_sections st1' = map box_section (G1 ++ [(n, M1)]))
    by apply I.
  assert (Eset : cursect_set st1' n k [v]
                 = mkReadState [] (map box_section (G1 ++ [(n, M1 ++ [(k, v)])]))
                     (rs_added_sections st) ((n, k) :: rs_added_options st)
                     (Some n) (Some k) 0 []).
  { unfold cursect_set.
    assert (E2 : str_eqb n default_section = false) by now apply str_eqb_neq.
    rewrite E2, Es. rewrite map_app. cbn [map].
    change (box_section (n, M1)) with (n, map box M1).
    rewrite dict_get_last by now rewrite dict_keys_map_box_section.
    rewrite dict_set_last by now rewrite dict_keys_map_box_section.
    rewrite dict_set_fresh by now rewrite dict_keys_map_box.
    unfold st1'. cbn [rs_defaults rs_added_sections rs_added_options
                       rs_sectname rs_optname rs_indent_level rs_e].
    rewrite (rt_defaults _ _ I), (rt_e _ _ I), Hs.
    rewrite (map_app box_section G1). cbn [map].
    change (box_section (n, M1 ++ [(k, v)]))
      with (n, map box (M1 ++ [(k, v)])).
    rewrite (map_app box M1). reflexivity. }
  rewrite Eset. split; [|reflexivity].
  constructor; cbn [rs_defaults rs_sections rs_added_options rs_e];
    try reflexivity.
  intros n0 k0 [H|H].
  - injection H as <- <-. exists (M1 ++ [(k, v)]). split.
    + apply in_or_app. right. now left.
    + unfold dict_keys. rewrite map_app. apply in_or_app. right. now left.
  - destruct (rt_options _ _ I n0 k0 H) as [M [HM HkM]].
    apply in_app_or in HM as [HM|[HM|[]]].
    + exists M. split; [apply in_or_app; now left|exact HkM].
    + injection HM as <- <-. exists (M1 ++ [(k, v)]). split.
      * apply in_or_app. right. now left.
      * unfold dict_keys. rewrite map_app. apply in_or_app. now left.
Qed.

(** The assignment lines of one block. *)
Lemma read_back_entries (pc : bool) (G1 : dict (dict str)) (n : str) :
  ~ In n (dict_keys G1) -> n <> default_section ->
  forall M2 M1 st lineno (xs : list (str * str)),
    rt_inv (G1 ++ [(n, M1)]) st -> rs_sectname st = Some n ->
    NoDup (dict_keys (M1 ++ M2)) ->
    (forall k v, In (k, v) M2 -> entry_wf pc k v) ->
    map snd xs = map (fun kv => strip (render_entry kv)) M2 ->
    exists st',
      read_tagged pc st lineno xs = Ok st'
      /\ rt_inv (G1 ++ [(n, M1 ++ M2)]) st'
      /\ rs_sectname st' = Some n.
Proof.
  intros Hn Hnd. induction M2 as [|[k v] M2 IH];
    intros M1 st lineno xs I Hs N W Hxs.
  - destruct xs; [|discriminate]. exists st. rewrite app_nil_r. auto.
  - destruct xs as [|[line x] xs]; [discriminate|].
    cbn [map snd] in Hxs. injection Hxs as -> Hxs.
    assert (Hk : ~ In k (dict_keys M1)).
    { unfold dict_keys in *. rewrite map_app in N.
      apply NoDup_remove_2 in N. intros H. apply N.
      apply in_or_app. now left. }
    destruct (read_back_entry pc G1 n M1 st k v I Hs Hn Hnd
                (W k v (or_introl eq_refl)) Hk lineno line)
      as [st1 [E1 [I1 S1]]].
    cbn [read_tagged fst snd]. rewrite E1. cbn [bind].
    destruct (IH (M1 ++ [(k, v)]) st1 (S lineno) xs I1 S1) as [st' [E' [I' S']]].
    + now rewrite <- app_assoc.
    + intros k0 v0 H. apply W. now right.
    + exact Hxs.
    + exists st'. rewrite <- app_assoc in I'. auto.
Qed.

(** All the blocks. *)
Lemma read_back_blocks (pc : bool) :
  forall G2 G1 st lineno (xs : list (str * str)),
    rt_inv G1 st -> config_wf pc (G1 ++ G2) ->
    map snd xs = clean_render G2 ->
    exists st', read_tagged pc st lineno xs = Ok st' /\ rt_inv (G1 ++ G2) st'.
Proof.
  induction G2 as [|[n M] G2 IH]; intros G1 st lineno xs I W Hxs.
  - destruct xs; [|discriminate]. exists st. rewrite app_nil_r. auto.
  - unfold clean_render in Hxs. cbn [flat_map fst snd] in Hxs.
    fold (clean_render G2) in Hxs.
    destruct xs as [|[line x] xs]; [discriminate|].
    cbn [map snd] in Hxs. injection Hxs as -> Hxs.
    assert (Hsplit : exists xs1 xs2,
               xs = xs1 ++ xs2
               /\ map snd xs1 = map (fun kv => strip (render_entry kv)) M
               /\ map snd xs2 = clean_render G2).
    { exists (firstn (length M) xs), (skipn (length M) xs).
      split; [now rewrite firstn_skipn|].
      rewrite <- firstn_map, <- skipn_map, Hxs. split.
      - rewrite firstn_app, length_map, Nat.sub_diag. simpl.
        rewrite app_nil_r. rewrite firstn_all2; [reflexivity|].
        now rewrite length_map.
      - rewrite skipn_app, length_map, Nat.sub_diag. simpl.
        rewrite skipn_all2; [reflexivity|]. now rewrite length_map. }
    destruct Hsplit as [xs1 [xs2 [-> [H1 H2]]]].
    assert (Hin : In (n, M) (G1 ++ (n, M) :: G2))
      by (apply in_or_app; right; now left).
    pose proof (cw_name _ _ W n M Hin) as Wn.
    assert (Hfresh : ~ In n (dict_keys G1)).
    { pose proof (cw_names _ _ W) as N. unfold dict_keys in *.
      rewrite map_app in N. simpl in N. apply NoDup_remove_2 in N.
      intros H. apply N. apply in_or_app. now left. }
    destruct (read_back_header pc G1 st n I Hfresh (nw_nonempty _ _ Wn)
                (nw_not_default _ _ Wn) lineno line) as [st1 [E1 [I1 S1]]].
    cbn [read_tagged fst snd].
    change ("["%char :: n ++ ["]"%char]) with ("[" ++ n ++ "]").
    rewrite E1. cbn [bind].
    rewrite read_tagged_app.
    destruct (read_back_entries pc G1 n Hfresh (nw_not_default _ _ Wn)
                M [] st1 (S lineno) xs1 I1 S1) as [st2 [E2 [I2 S2]]].
    + simpl. apply (cw_keys _ _ W n M Hin).
    + intros k v H. apply (cw_entry _ _ W n M k v Hin H).
    + exact H1.
    + rewrite E2. cbn [bind]. simpl app in I2.
      replace (G1 ++ (n, M) :: G2) with ((G1 ++ [(n, M)]) ++ G2) in *
        by (rewrite <- app_assoc; reflexivity).
      apply IH; assumption.
Qed.

Lemma join_values_box (M : dict str) :
  (forall k v, In (k, v) M -> strip v = v) ->
  join_values (map box M) = M.
Proof.
  induction M as [|[k v] M IH]; intros H; [reflexivity|].
  cbn [map box join_values fst snd join].
  rewrite (strip_fixed_rstrip v) by (apply (H k); now left).
  f_equal. apply IH. intros k0 v0 H0. apply (H k0). now right.
Qed.

(** [read_string] on the text of [display_config]. *)
Lemma read_string_display (pc : bool) (G : dict (dict str)) :
  config_wf pc G ->
  read_string pc (preprocess_file (strip (join [NL] (render_config G))))
  = Ok (parser_of pc NoInterpolation G).
Proof.
  intros W. rewrite read_string_preprocessed.
  rewrite (processed_lines_display pc G W), read_clean_lines_tagged.
  destruct (read_back_blocks pc G [] read_state_init 1
              (tag_lines (clean_render G))) as [st [E I]].
  - constructor; simpl; try reflexivity. intros n k [].
  - exact W.
  - clear. induction (clean_render G) as [|x r IH]; [reflexivity|].
    cbn [tag_lines map snd]. now rewrite IH.
  - rewrite E. cbn [bind]. simpl app in I.
    rewrite (rt_e _ _ I), (rt_defaults _ _ I), (rt_sections _ _ I).
    unfold parser_of. do 2 f_equal.
    assert (EG : forall G', (forall n M, In (n, M) G' -> In (n, M) G) ->
               map (fun so => (fst so, join_values (snd so)))
                 (map box_section G') = G').
    { induction G' as [|[n M] G' IH]; intros Hin; [reflexivity|].
      cbn [map box_section fst snd]. rewrite IH by (intros; apply Hin; now right).
      rewrite join_values_box; [reflexivity|].
      intros k v Hkv. apply (ew_value_trimmed pc k v).
      apply (cw_entry _ _ W n M k v); [apply Hin; now left|exact Hkv]. }
    apply EG. auto.
Qed.

(** ** Reading back what [display_config] writes: [load_config] *)

Lemma dict_update_fresh {V} (M d : dict V) :
  NoDup (dict_keys (d ++ M)) -> dict_update d M = d ++ M.
Proof.
  unfold dict_update. revert d.
  induction M as [|[k v] M IH]; intros d N; simpl.
  - now rewrite app_nil_r.
  - assert (Hk : ~ In k (dict_keys d)).
    { unfold dict_keys in *. rewrite map_app in N.
      apply NoDup_remove_2 in N. intros H. apply N.
      apply in_or_app. now left. }
    rewrite (dict_set_fresh d k v Hk), IH.
    + now rewrite <- app_assoc.
    + now rewrite <- app_assoc.
Qed.

Lemma clean_back_entries (pc : bool) (G1 : dict (dict str)) (n : str) :
  name_wf pc n -> ~ In n (dict_keys G1) ->
  forall M2 M1 ks,
    (forall k, In k ks -> In k (dict_keys M1)) ->
    NoDup (dict_keys (M1 ++ M2)) ->
    (forall k v, In (k, v) M2 -> entry_wf pc k v) ->
    exists ks',
      for_each (clean_option n) M2
        (ks, parser_of pc BasicInterpolation (G1 ++ [(n, M1)]))
      = Ok (ks', parser_of pc BasicInterpolation (G1 ++ [(n, M1 ++ M2)])).
Proof.
  intros Wn Hn. induction M2 as [|[k v] M2 IH]; intros M1 ks Hks N W.
  - exists ks. now rewrite app_nil_r.
  - pose proof (W k v (or_introl eq_refl)) as We.
    assert (Hk : ~ In k (dict_keys M1)).
    { unfold dict_keys in *. rewrite map_app in N.
      apply NoDup_remove_2 in N. intros H. apply N.
      apply in_or_app. now left. }
    assert (Estep : clean_option n
                      (ks, parser_of pc BasicInterpolation (G1 ++ [(n, M1)]))
                      (k, v)
                    = Ok (k :: ks,
                          parser_of pc BasicInterpolation
                            (G1 ++ [(n, M1 ++ [(k, v)])]))).
    { unfold clean_option. cbn [fst snd].
      rewrite (ew_key_trimmed _ _ _ We), (ew_value_trimmed _ _ _ We).
      assert (Es : set_mem k ks = false).
      { apply set_mem_false. intros H. apply Hk. now apply Hks. }
      rewrite Es. unfold set_option.
      assert (B : (if nonempty v
                   then before_set
                          (parser_of pc BasicInterpolation (G1 ++ [(n, M1)])) v
                   else Ok v) = Ok v).
      { destruct (nonempty v); [|reflexivity].
        destruct (before_set_cases
                    (parser_of pc BasicInterpolation (G1 ++ [(n, M1)])) v)
          as [B|[B _]]; [exact B|].
        rewrite (ew_value_plain _ _ _ We) in B. discriminate. }
      rewrite B. cbn [bind].
      assert (En : negb (nonempty n) || str_eqb n default_section = false).
      { apply orb_false_iff. split.
        - destruct n; [now destruct (nw_nonempty _ _ Wn)|reflexivity].
        - apply str_eqb_neq, Wn. }
      rewrite En. unfold parser_of.
      cbn [_sections _defaults p_preserve_case p_interpolation].
      rewrite (dict_get_last G1 n M1 Hn), (ew_key_case _ _ _ We).
      rewrite (dict_set_last G1 n M1 _ Hn), (dict_set_fresh M1 k v Hk).
      reflexivity. }
    cbn [for_each]. rewrite Estep. cbn [bind].
    destruct (IH (M1 ++ [(k, v)]) (k :: ks)) as [ks' E].
    + intros k0 [<-|H].
      * unfold dict_keys. rewrite map_app. apply in_or_app. right. now left.
      * unfold dict_keys. rewrite map_app. apply in_or_app. left.
        now apply Hks.
    + now rewrite <- app_assoc.
    + intros k0 v0 H. apply W. now right.
    + exists ks'. rewrite <- app_assoc in E. exact E.
Qed.

Lemma clean_back_sections (pc : bool) (G : dict (dict str)) :
  config_wf pc G ->
  forall G2 G1 seen,
    G = G1 ++ G2 ->
    (forall n, In n seen -> In n (dict_keys G1)) ->
    exists seen',
      for_each (clean_section pc (parser_of pc NoInterpolation G))
        (dict_keys G2) (seen, parser_of pc BasicInterpolation G1)
      = Ok (seen', parser_of pc BasicInterpolation G).
Proof.
  intros W. induction G2 as [|[n M] G2 IH]; intros G1 seen EG Hseen.
  - exists seen. rewrite app_nil_r in EG. now subst.
  - assert (Hin : In (n, M) G)
      by (rewrite EG; apply in_or_app; right; now left).
    pose proof (cw_name _ _ W n M Hin) as Wn.
    assert (Hfresh : ~ In n (dict_keys G1)).
    { pose proof (cw_names _ _ W) as N. rewrite EG in N.
      unfold dict_keys in *. rewrite map_app in N. simpl in N.
      apply NoDup_remove_2 in N. intros H. apply N.
      apply in_or_app. now left. }
    assert (Estep : clean_section pc (parser_of pc NoInterpolation G)
                      (seen, parser_of pc BasicInterpolation G1) n
                    = Ok (n :: seen,
                          parser_of pc BasicInterpolation (G1 ++ [(n, M)]))).
    { unfold clean_section. rewrite (nw_clean _ _ Wn).
      assert (Es : set_mem n seen = false).
      { apply set_mem_false. intros H. apply Hfresh. now apply Hseen. }
      rewrite Es.
      assert (Ec : contains (parser_of pc BasicInterpolation G1) n = false).
      { unfold contains, has_section, parser_of. cbn [_sections].
        apply orb_false_iff. split; [apply str_eqb_neq, Wn|].
        now apply dict_mem_false. }
      rewrite Ec. cbn [negb]. unfold add_section.
      replace (str_eqb n default_section) with false
        by (symmetry; apply str_eqb_neq, Wn).
      replace (dict_mem (_sections (parser_of pc BasicInterpolation G1)) n)
        with false by (symmetry; now apply dict_mem_false).
      cbn [bind].
      rewrite (items_raw (parser_of pc NoInterpolation G) n M);
        [|reflexivity|constructor|].
      2:{ apply in_dict_get; [apply W|exact Hin]. }
      cbn [bind _defaults parser_of].
      rewrite (dict_update_fresh M []) by (simpl; apply (cw_keys _ _ W n M Hin)).
      cbn [app].
      destruct (clean_back_entries pc G1 n Wn Hfresh M [] []) as [ks E].
      - intros k [].
      - simpl. apply (cw_keys _ _ W n M Hin).
      - intros k v H. apply (cw_entry _ _ W n M k v Hin H).
      - unfold parser_of in *.
        cbn [p_preserve_case p_interpolation _defaults _sections].
        match type of E with ?L = _ =>
          match goal with |- bind ?X _ = _ => change X with L end end.
        rewrite E. reflexivity. }
    cbn [dict_keys map fst for_each]. fold (dict_keys G2).
    rewrite Estep. cbn [bind].
    apply IH.
    + rewrite EG, <- app_assoc. reflexivity.
    + intros n0 [<-|H].
      * unfold dict_keys. rewrite map_app. apply in_or_app. right. now left.
      * unfold dict_keys. rewrite map_app. apply in_or_app. left.
        now apply Hseen.
Qed.

(** Constructing a handler from the text of [display_config]. *)
Lemma init_display (fs : filesystem) (path : str) (pc : bool)
  (G : dict (dict str)) :
  config_wf pc G ->
  fs path = TextFile (strip (join [NL] (render_config G))) ->
  ConfigHandler_init fs path pc
  = Ok (mkConfigHandler path pc (parser_of pc BasicInterpolation G)).
Proof.
  intros W Hfs. unfold ConfigHandler_init, load_config. rewrite Hfs.
  unfold load_config_try. rewrite (read_string_display pc G W). cbn [bind].
  destruct (clean_back_sections pc G W G [] []) as [seen' E];
    [reflexivity|intros n []|].
  change (sections (parser_of pc NoInterpolation G)) with (dict_keys G).
  change (ConfigParser pc) with (parser_of pc BasicInterpolation []).
  rewrite E. reflexivity.
Qed.

(** ** What the accessors return when no value holds a percent sign *)

Lemma items_loop_plain (p : parser) (section : str) (m l : dict str)
  (acc : dict str) :
  (forall k v, In (k, v) l ->
     dict_get m k = Some v /\ has_char PERCENT v = false) ->
  for_each (fun acc option =>
              match dict_get m option with
              | Some raw =>
                  value <- before_get p section option raw m ;;
                  Ok (acc ++ [(option, value)])
              | None => Ok acc
              end) (dict_keys l) acc
  = Ok (acc ++ l).
Proof.
  revert acc. induction l as [|[k v] l IH]; intros acc H; simpl.
  - now rewrite app_nil_r.
  - destruct (H k v (or_introl eq_refl)) as [Hg Hp]. rewrite Hg.
    rewrite (before_get_plain p section k v m Hp). cbn [bind].
    rewrite IH by (intros; apply H; now right).
    now rewrite <- app_assoc.
Qed.

Lemma items_plain (p : parser) (section : str) (m : dict str) :
  unify_values p section = Ok m -> NoDup (dict_keys m) ->
  (forall k v, In (k, v) m -> has_char PERCENT v = false) ->
  items p section = Ok m.
Proof.
  intros Hu N Hp. unfold items. rewrite Hu. cbn [bind].
  apply (items_loop_plain p section m m []).
  intros k v H. split; [now apply in_dict_get|eauto].
Qed.

Lemma get_config_of (h : ConfigHandler) (G : dict (dict str)) :
  NoDup (dict_keys G) -> sections (config h) = dict_keys G ->
  (forall n M, In (n, M) G -> items (config h) n = Ok M) ->
  get_config h = Ok G.
Proof.
  intros N Hs Hi. unfold get_config. rewrite Hs.
  assert (E : forall G2 G1,
            NoDup (dict_keys (G1 ++ G2)) ->
            (forall n M, In (n, M) G2 -> items (config h) n = Ok M) ->
            for_each (fun config_dict section =>
                        pairs <- items (config h) section ;;
                        Ok (dict_set config_dict section pairs))
              (dict_keys G2) G1 = Ok (G1 ++ G2)).
  { induction G2 as [|[n M] G2 IH]; intros G1 N' Hi'.
    - simpl. now rewrite app_nil_r.
    - cbn [dict_keys map fst for_each]. fold (dict_keys G2).
      rewrite (Hi' n M) by now left. cbn [bind].
      assert (Hn : ~ In n (dict_keys G1)).
      { unfold dict_keys in *. rewrite map_app in N'. simpl in N'.
        apply NoDup_remove_2 in N'. intros H. apply N'.
        apply in_or_app. now left. }
      rewrite (dict_set_fresh G1 n M Hn), IH.
      + now rewrite <- app_assoc.
      + now rewrite <- app_assoc.
      + intros n0 M0 H. apply Hi'. now right. }
  apply (E G []); assumption.
Qed.

Lemma display_config_of (h : ConfigHandler) (G : dict (dict str)) :
  sections (config h) = dict_keys G ->
  (forall n M, In (n, M) G -> items (config h) n = Ok M) ->
  display_config h = Ok (strip (join [NL] (render_config G))).
Proof.
  intros Hs Hi. unfold display_config. rewrite Hs.
  assert (E : forall G2 acc,
            (forall n M, In (n, M) G2 -> items (config h) n = Ok M) ->
            for_each (display_section (config h)) (dict_keys G2) acc
            = Ok (acc ++ render_config G2)).
  { induction G2 as [|[n M] G2 IH]; intros acc Hi'.
    - simpl. now rewrite app_nil_r.
    - cbn [dict_keys map fst for_each]. fold (dict_keys G2).
      unfold display_section at 1. rewrite (Hi' n M) by now left.
      cbn [bind]. rewrite IH by (intros n0 M0 H; apply Hi'; now right).
      unfold render_config. cbn [flat_map].
      change (render_block (n, M))
        with (("[" ++ n ++ "]") :: map render_entry M ++ [[]]).
      f_equal. rewrite <- !app_assoc. cbn [app].
      rewrite <- !app_assoc. reflexivity. }
  rewrite (E G []) by assumption. reflexivity.
Qed.

(** The configuration read back from the text of [display_config]. *)
Lemma display_read_back (fs : filesystem) (path : str) (pc : bool)
  (G : dict (dict str)) :
  config_wf pc G ->
  fs path = TextFile (strip (join [NL] (render_config G))) ->
  exists h',
    ConfigHandler_init fs path pc = Ok h'
    /\ list_profiles h' = dict_keys G
    /\ get_config h' = Ok G.
Proof.
  intros W Hfs.
  exists (mkConfigHandler path pc (parser_of pc BasicInterpolation G)).
  split; [apply (init_display fs path pc G W Hfs)|].
  split; [reflexivity|].
  apply get_config_of; [apply W|reflexivity|].
  intros n M Hin. apply items_plain.
  - unfold unify_values, parser_of. cbn [config _sections _defaults].
    rewrite (in_dict_get G n M (cw_names _ _ W) Hin).
    now rewrite (dict_update_fresh M []) by (simpl; apply (cw_keys _ _ W n M Hin)).
  - apply (cw_keys _ _ W n M Hin).
  - intros k v H. apply (ew_value_plain pc k v).
    apply (cw_entry _ _ W n M k v Hin H).
Qed.

(** ** The configuration of a constructed handler is well formed *)

Lemma header_names_in (ls : list str) (s : str) :
  In s (header_names ls) -> exists l, In l ls /\ SECTCRE l = Some s.
Proof.
  induction ls as [|x ls IH]; simpl; [tauto|].
  destruct (SECTCRE x) as [h|] eqn:E.
  - intros [<-|H]; [exists x; auto|].
    destruct (IH H) as [l [Hl Hs]]. exists l. auto.
  - intros H. destruct (IH H) as [l [Hl Hs]]. exists l. auto.
Qed.

Lemma before_last_incl (c : ascii) (s p : str) (x : ascii) :
  before_last c s = Some p -> In x p -> In x s.
Proof.
  revert p; induction s as [|y s IH]; intros p; simpl; [discriminate|].
  destruct (before_last c s) as [q|].
  - intros H. injection H as <-. intros [<-|Hx]; [now left|].
    right. now apply (IH q).
  - destruct (Ascii.eqb y c); [|discriminate].
    intros H. injection H as <-. intros [].
Qed.

Lemma before_last_some_in (c : ascii) (s p : str) :
  before_last c s = Some p -> In c s.
Proof.
  revert p; induction s as [|y s IH]; intros p; simpl; [discriminate|].
  destruct (before_last c s) as [q|].
  - intros _. right. now apply (IH q).
  - destruct (Ascii.eqb y c) eqn:E; [|discriminate].
    apply Ascii.eqb_eq in E. intros _. now left.
Qed.

Lemma in_before_last (c : ascii) (s : str) :
  In c s -> exists p, before_last c s = Some p.
Proof.
  induction s as [|y s IH]; simpl; [tauto|].
  intros H. destruct (before_last c s) as [q|] eqn:E; [eauto|].
  destruct H as [->|H].
  - rewrite Ascii.eqb_refl. eauto.
  - destruct (IH H) as [p Hp]. discriminate.
Qed.

Lemma SECTCRE_incl (l s : str) (x : ascii) :
  SECTCRE l = Some s -> In x s -> In x l.
Proof.
  unfold SECTCRE. destruct l as [|c body]; [discriminate|].
  destruct (Ascii.eqb c "["%char); [|discriminate].
  destruct (before_last "]"%char body) as [[|h t]|] eqn:E; try discriminate.
  intros H. injection H as <-. intros Hx. right.
  now apply (before_last_incl _ _ _ _ E).
Qed.

Lemma SECTCRE_none_intro (x : str) :
  (forall body, x = "["%char :: body -> ~ In "]"%char (tl body)) ->
  SECTCRE x = None.
Proof.
  intros H. unfold SECTCRE. destruct x as [|c body]; [reflexivity|].
  destruct (Ascii.eqb c "["%char) eqn:Ec; [|reflexivity].
  apply Ascii.eqb_eq in Ec. subst c.
  destruct (before_last "]"%char body) as [[|h t]|] eqn:E; try reflexivity.
  exfalso. apply (H body eq_refl).
  destruct body as [|y r]; [discriminate|]. simpl in E |- *.
  destruct (before_last "]"%char r) as [q|] eqn:Er.
  - now apply (before_last_some_in _ _ q).
  - destruct (Ascii.eqb y "]"%char); discriminate.
Qed.

Lemma SECTCRE_none_elim (body : str) :
  SECTCRE ("["%char :: body) = None -> ~ In "]"%char (tl body).
Proof.
  unfold SECTCRE. rewrite Ascii.eqb_refl. intros H Hin.
  destruct body as [|y r]; [destruct Hin|]. simpl in Hin, H.
  destruct (in_before_last _ _ Hin) as [p Hp]. rewrite Hp in H.
  discriminate.
Qed.

Lemma lower_char_bracket (c : ascii) :
  lower_char c = "["%char -> c = "["%char.
Proof. ascii_cases c. Qed.

Lemma lower_char_rbracket (c : ascii) :
  lower_char c = "]"%char -> c = "]"%char.
Proof. ascii_cases c. Qed.

Lemma optionxform_cons (pc : bool) (y : ascii) (s : str) :
  optionxform pc (y :: s)
  = (if pc then y else lower_char y) :: optionxform pc s.
Proof. destruct pc; reflexivity. Qed.

Lemma optionxform_rbracket (pc : bool) (s : str) :
  In "]"%char (optionxform pc s) -> In "]"%char s.
Proof.
  destruct pc; simpl; [tauto|]. unfold lower. intros H.
  apply in_map_iff in H as [c [Hc Hin]].
  apply lower_char_rbracket in Hc. now subst.
Qed.

Lemma in_tl_app_inv {A} (x : A) (a r : list A) :
  In x (tl (a ++ r)) -> In x (tl a) \/ In x r.
Proof.
  destruct a as [|y a]; simpl.
  - destruct r; simpl; [tauto|]. intros H. right. now right.
  - intros H. apply in_app_or in H. tauto.
Qed.

Lemma in_tl_app {A} (x : A) (a : list A) (c : A) (b : list A) :
  In x (tl a) \/ In x b -> In x (tl (a ++ c :: b)).
Proof.
  destruct a as [|y a]; simpl.
  - tauto.
  - intros [H|H]; apply in_or_app; [now left|right; now right].
Qed.

Lemma in_tl_app_l {A} (x : A) (a w : list A) :
  In x (tl a) -> In x (tl (a ++ w)).
Proof.
  destruct a as [|y a]; simpl; [tauto|]. intros H. apply in_or_app. now left.
Qed.

Lemma tl_optionxform (pc : bool) (s : str) :
  tl (optionxform pc s) = optionxform pc (tl s).
Proof. destruct pc, s; reflexivity. Qed.

(** The line written for a pair is no section header, as the line the
    pair came from was none. *)
Lemma entry_not_header (pc : bool) (l k v rest : str) :
  clean_line l -> entry_of pc l = Some (k, v) -> k <> [] ->
  (In "]"%char rest -> In "]"%char v) ->
  SECTCRE (k ++ rest) = None.
Proof.
  intros Hl He Hk Hrest. unfold entry_of in He.
  destruct (SECTCRE l) eqn:Hs; [discriminate|].
  unfold OPTCRE in He.
  destruct (split_delim l) as [[a b]|] eqn:Ed; [|discriminate].
  injection He as <- <-.
  destruct (split_delim_app _ _ _ Ed) as [c [_ [El _]]].
  destruct (rstrip_prefix a) as [w [_ Ea]].
  apply SECTCRE_none_intro. intros body E.
  destruct (rstrip a) as [|y0 k0'] eqn:Er; [now destruct pc|].
  rewrite optionxform_cons in E. cbn [app] in E. injection E as Ey <-.
  assert (Ey0 : y0 = "["%char).
  { destruct pc; [exact Ey|now apply lower_char_bracket]. }
  subst y0. rewrite Ea in El. cbn [app] in El. subst l.
  apply SECTCRE_none_elim in Hs.
  intros Hin. apply Hs. apply in_tl_app.
  apply in_tl_app_inv in Hin as [Hin|Hin].
  - left. apply in_tl_app_l. rewrite tl_optionxform in Hin.
    now apply optionxform_rbracket in Hin.
  - right. now apply lstrip_incl, Hrest.
Qed.

Lemma no_percent_pairs (pc : bool) (content : str) (p : parser) (k v : str) :
  has_char PERCENT content = false ->
  pairs_inv pc (processed_lines_of content) p ->
  parser_pairs p k v -> has_char PERCENT v = false.
Proof.
  intros Hc I H. apply has_char_false. intros Hin.
  destruct (pi_pairs _ _ _ I k v H) as [l [Hl [He _]]].
  apply (entry_of_incl pc l k v PERCENT He) in Hin.
  destruct (processed_line_incl content l PERCENT Hl Hin) as [E|E];
    [discriminate|].
  apply has_char_false in Hc. contradiction.
Qed.

Lemma constructed_entry_wf (pc : bool) (content : str) (p : parser)
  (k v : str) :
  has_char PERCENT content = false ->
  pairs_inv pc (processed_lines_of content) p ->
  parser_pairs p k v -> entry_wf pc k v.
Proof.
  intros Hc I H.
  destruct (pi_pairs _ _ _ I k v H) as [l [Hl [He Hk]]].
  pose proof (processed_lines_clean content) as Cl.
  rewrite Forall_forall in Cl. specialize (Cl l Hl).
  destruct (entry_of_clean pc l k v Cl He) as [A [B [C [D [E F]]]]].
  constructor; try assumption.
  - now apply (no_percent_pairs pc content p k v).
  - rewrite (strip_render_entry_trimmed k v Hk A B).
    apply (entry_not_header pc l k v _ Cl He Hk).
    destruct v as [|y v']; cbn [list_ascii_of_string app In].
    + intros [H0|[H0|[]]]; discriminate.
    + intros [H0|[H0|[H0|H0]]]; try discriminate. exact H0.
Qed.

Lemma clean_section_name_text (pc : bool) (s : str) :
  forallb text_char s = true ->
  forallb text_char (clean_section_name pc s) = true.
Proof.
  intros H. unfold clean_section_name. destruct pc; simpl.
  - now apply forallb_strip.
  - rewrite forallb_lower by apply text_char_lower_char.
    now apply forallb_strip.
Qed.

Lemma clean_section_name_idem (pc : bool) (s : str) :
  clean_section_name pc (clean_section_name pc s) = clean_section_name pc s.
Proof.
  unfold clean_section_name. destruct pc; simpl.
  - apply strip_idem.
  - now rewrite strip_lower, strip_idem, lower_idem.
Qed.

Lemma clean_section_name_trimmed (pc : bool) (s : str) :
  strip (clean_section_name pc s) = clean_section_name pc s.
Proof.
  unfold clean_section_name. destruct pc; simpl.
  - apply strip_idem.
  - now rewrite strip_lower, strip_idem.
Qed.

Lemma constructed_name_wf (fs : filesystem) (path : str) (pc : bool)
  (h : ConfigHandler) (n : str) :
  ConfigHandler_init fs path pc = Ok h ->
  In n (list_profiles h) -> n <> [] -> name_wf pc n.
Proof.
  intros H Hn Hne.
  destruct (init_ok _ _ _ _ H) as [content [raw [seen [_ [_ [R [C _]]]]]]].
  pose proof (ci_sections _ _ _ _ C) as E. cbn [snd] in E.
  unfold list_profiles in Hn. rewrite E in Hn.
  apply filter_In in Hn as [Hn Hd].
  apply in_map_iff in Hn as [s [<- Hs]].
  rewrite (rw_sections _ _ _ R) in Hs. apply filter_In in Hs as [Hs _].
  apply header_names_in in Hs as [l [Hl Hsect]].
  pose proof (processed_lines_clean content) as Cl.
  rewrite Forall_forall in Cl. destruct (Cl l Hl) as [_ [_ [_ Tl]]].
  constructor.
  - exact Hne.
  - intros Ed. unfold is_default in Hd. rewrite Ed, str_eqb_refl in Hd.
    discriminate.
  - apply clean_section_name_trimmed.
  - apply clean_section_name_idem.
  - apply clean_section_name_text. apply forallb_forall. intros x Hx.
    eapply forallb_forall in Tl; [exact Tl|].
    now apply (SECTCRE_incl l s x Hsect).
Qed.

Lemma config_of_keys (h : ConfigHandler) :
  dict_keys (config_of h) = sections (config h).
Proof.
  unfold config_of, dict_keys. rewrite map_map. simpl. apply map_id.
Qed.

(** What [get_config] and [display_config] see on a handler made from
    a file without percent signs and with named profiles only. *)
Lemma constructed_config (fs : filesystem) (path content : str) (pc : bool)
  (h : ConfigHandler) :
  fs path = TextFile content ->
  ConfigHandler_init fs path pc = Ok h ->
  has_char PERCENT content = false ->
  ~ In [] (list_profiles h) ->
  config_wf pc (config_of h)
  /\ (forall n M, In (n, M) (config_of h) -> items (config h) n = Ok M).
Proof.
  intros Hfs H Hc Hne.
  destruct (init_ok _ _ _ _ H) as [content' [raw [seen [Hfs' [_ [R [C _]]]]]]].
  rewrite Hfs in Hfs'. injection Hfs' as <-.
  pose proof (ci_pairs _ _ _ _ C) as I. cbn [snd] in I.
  assert (U : forall n M, In (n, M) (config_of h) ->
            In n (list_profiles h)
            /\ unify_values (config h) n = Ok M
            /\ NoDup (dict_keys M)
            /\ (forall k v, In (k, v) M -> parser_pairs (config h) k v)).
  { intros n M Hin. unfold config_of in Hin.
    apply in_map_iff in Hin as [n' [E Hn]]. injection E as -> <-.
    split; [exact Hn|].
    assert (Hcont : contains (config h) n = true).
    { apply contains_present. now left. }
    destruct (constructed_unify fs path pc h n H Hcont)
      as [m [Hu [N [_ Hp]]]].
    unfold merged. rewrite Hu. auto. }
  split.
  - constructor.
    + rewrite config_of_keys.
      pose proof (ci_sections _ _ _ _ C) as E. cbn [snd] in E. rewrite E.
      apply NoDup_filter, C.
    + intros n M Hin. destruct (U n M Hin) as [Hn _].
      apply (constructed_name_wf fs path pc h n H Hn).
      intros ->. contradiction.
    + intros n M Hin. apply (U n M Hin).
    + intros n M k v Hin Hkv. destruct (U n M Hin) as [_ [_ [_ Hp]]].
      apply (constructed_entry_wf pc content (config h) k v Hc I).
      now apply Hp.
  - intros n M Hin. destruct (U n M Hin) as [_ [Hu [N Hp]]].
    apply items_plain; [exact Hu|exact N|].
    intros k v Hkv. apply (no_percent_pairs pc content (config h) k v Hc I).
    now apply Hp.
Qed.

(** ** The round trip through [display_config] *)

(** C4, as amended: for every handler constructed from a file that
    holds no percent sign and whose profile names are all non-empty,
    [display_config] returns a text, and every handler constructed
    from a file with that text under the same case mode has the same
    [list_profiles] and the same [get_config]. *)
Theorem display_config_round_trip
  (fs : filesystem) (path content : str) (pc : bool) (h : ConfigHandler) :
  fs path = TextFile content ->
  ConfigHandler_init fs path pc = Ok h ->
  has_char PERCENT content = false ->
  ~ In [] (list_profiles h) ->
  exists text,
    display_config h = Ok text
    /\ forall (fs' : filesystem) (path' : str),
        fs' path' = TextFile text ->
        exists h',
          ConfigHandler_init fs' path' pc = Ok h'
          /\ list_profiles h' = list_profiles h
          /\ get_config h' = get_config h.
Proof.
  intros Hfs H Hc Hne.
  destruct (constructed_config fs path content pc h Hfs H Hc Hne) as [W Hi].
  exists (strip (join [NL] (render_config (config_of h)))).
  split.
  - apply display_config_of; [now rewrite config_of_keys|exact Hi].
  - intros fs' path' Hfs'.
    destruct (display_read_back fs' path' pc (config_of h) W Hfs')
      as [h' [E1 [E2 E3]]].
    exists h'. split; [exact E1|]. split.
    + rewrite E2. apply config_of_keys.
    + rewrite E3. symmetry. apply get_config_of.
      * apply W.
      * now rewrite config_of_keys.
      * exact Hi.
Qed.

Lemma display_config_round_trip_witness :
  exists text,
    display_config (fixture_handler false) = Ok text
    /\ forall (fs' : filesystem) (path' : str),
        fs' path' = TextFile text ->
        exists h',
          ConfigHandler_init fs' path' false = Ok h'
          /\ list_profiles h' = list_profiles (fixture_handler false)
          /\ get_config h' = get_config (fixture_handler false).
Proof.
  apply (display_config_round_trip (single_file "config.ini" fixture)
           "config.ini" fixture false (fixture_handler false)).
  - reflexivity.
  - vm_compute. reflexivity.
  - vm_compute. reflexivity.
  - vm_compute. intros [H|[H|[H|[]]]]; discriminate.
Defined.

(** C4 as the specification states it fails in two ways.  A value with
    an escaped percent sign is displayed with a single one, which the
    parser refuses when the text is read again; and a profile with an
    empty name is displayed under the header [[]], which is no section
    header. *)
Lemma display_config_not_read_back :
  (exists h,
      ConfigHandler_init
        (single_file "config.ini" (text_of ["[s]"; "k = 100%%"]))
        "config.ini" false = Ok h
      /\ display_config h = Ok (("[s]" : str) ++ [NL] ++ "k = 100%")
      /\ ConfigHandler_init
           (single_file "again.ini" (("[s]" : str) ++ [NL] ++ "k = 100%"))
           "again.ini" false
         = Raise (ValueError
                    "invalid interpolation syntax in '100%' at position 3"))
  /\ (exists h,
         ConfigHandler_init (single_file "config.ini" (text_of ["[ ]"]))
           "config.ini" false = Ok h
         /\ list_profiles h = [[]]
         /\ display_config h = Ok ("[]" : str)
         /\ ConfigHandler_init (single_file "again.ini" "[]") "again.ini" false
            = Raise (ValueError
                       (parse_error_message
                          (MissingSectionHeaderError 1 "[]")))).
Proof.
  split.
  - eexists. split; [vm_compute; reflexivity|]. split; reflexivity.
  - eexists. split; [vm_compute; reflexivity|].
    split; [reflexivity|]. split; reflexivity.
Qed.

(** * Further properties *)

(** ** How construction fails *)

Lemma read_string_raises (pc : bool) (content : str) (e : exn) :
  read_string pc (preprocess_file content) = Raise e ->
  exists ce, e = ConfigParserError ce.
Proof.
  rewrite read_string_preprocessed.
  destruct (read_clean_lines pc read_state_init 1 (processed_lines_of content))
    as [st|e'] eqn:E; cbn [bind].
  - destruct (rs_e st); [discriminate|].
    intros H. injection H as <-. eauto.
  - intros H. injection H as <-.
    exact (read_clean_lines_raises _ _ _ _ _ E).
Qed.

Lemma load_failure_kinds (fs : filesystem) (path content : str) (pc : bool)
  (e : exn) :
  fs path = TextFile content ->
  ConfigHandler_init fs path pc = Raise e ->
  (exists ce,
      read_string pc (preprocess_file content) = Raise (ConfigParserError ce)
      /\ e = ValueError (parse_error_message ce))
  \/ exists raw,
      read_string pc (preprocess_file content) = Ok raw
      /\ ((exists s,
              In s (sections raw)
              /\ e = ValueError
                       (duplicate_profile_message (clean_section_name pc s)))
          \/ exists k v i,
              parser_pairs raw k v
              /\ has_char PERCENT v = true
              /\ e = ValueError (invalid_interpolation_message v i)).
Proof.
  intros Hfs. unfold ConfigHandler_init, load_config. rewrite Hfs.
  intros H. unfold load_config_try in H.
  destruct (read_string pc (preprocess_file content)) as [raw|e0] eqn:Er.
  - right. exists raw. split; [reflexivity|]. cbn [bind] in H.
    pose proof (read_string_inv pc content raw Er) as R.
    pose proof (clean_loop pc _ raw (processed_lines_clean content) R
                  (sections raw) [] _ (clean_inv_init pc _)
                  (fun s H => H)) as L.
    destruct (for_each (clean_section pc raw) (sections raw)
                ([], ConfigParser pc)) as [state|e1]; cbn [bind] in H;
      [discriminate|].
    destruct L as [m [-> L]]. cbn [bind] in H. injection H as <-.
    destruct L as [[a [s [b [Es [_ [_ ->]]]]]]|[k [v [i [Hp [Hv ->]]]]]].
    + left. exists s. split; [|reflexivity].
      cbn [app] in Es. rewrite Es. apply in_or_app. right. now left.
    + right. exists k, v, i. now repeat split.
  - left. destruct (read_string_raises pc content e0 Er) as [ce ->].
    exists ce. split; [reflexivity|].
    cbn [bind] in H. injection H as <-. reflexivity.
Qed.

(** ** The preprocessed text *)

Lemma clean_line_text (l : str) : clean_line l -> line_text l = l.
Proof.
  intros [_ [Hl [Hr Ht]]]. unfold line_text.
  rewrite cut_comment_text by exact Ht. now apply strip_trimmed.
Qed.

Lemma clean_line_no_line_end (l : str) : clean_line l -> no_line_end l.
Proof.
  intros [_ [_ [_ Ht]]]. split;
    [now apply text_char_not_nl|now apply text_char_not_cr].
Qed.

Lemma clean_lines_texts (L : list str) :
  Forall clean_line L -> filter nonempty (map line_text L) = L.
Proof.
  induction 1 as [|l L Hl _ IH]; [reflexivity|].
  cbn [map filter]. rewrite (clean_line_text l Hl), IH.
  destruct Hl as [Hn _]. destruct l; [contradiction|reflexivity].
Qed.

Lemma processed_lines_of_clean (L : list str) :
  Forall clean_line L -> processed_lines_of (join [NL] L) = L.
Proof.
  intros H. rewrite processed_lines_join.
  - now apply clean_lines_texts.
  - eapply Forall_impl; [|exact H]. apply clean_line_no_line_end.
Qed.

(** X2: preprocessing is idempotent: a file that holds a preprocessed
    text is preprocessed to that same text. *)
Theorem preprocess_file_idempotent (content : str) :
  preprocess_file (preprocess_file content) = preprocess_file content.
Proof.
  unfold preprocess_file at 1 3. f_equal.
  unfold preprocess_file.
  apply processed_lines_of_clean, processed_lines_clean.
Qed.

(** X3: in the preprocessed text no comment character and no carriage
    return is left, and every line of it is a non-empty text without
    leading or trailing whitespace, ended by nothing or by one line
    feed. *)
Theorem preprocess_file_output (content : str) :
  (forall c, In c (preprocess_file content) ->
             is_comment_char c = false /\ c <> CR)
  /\ (forall line, In line (iter_lines (preprocess_file content)) ->
        exists x e,
          line = x ++ e /\ eol e /\ x <> [] /\ strip x = x
          /\ ~ In NL x).
Proof.
  pose proof (processed_lines_clean content) as C. split.
  - intros c Hc. unfold preprocess_file in Hc.
    destruct (is_comment_char c) eqn:Ec.
    + exfalso. revert Hc. apply join_no_char.
      * intros ->. discriminate.
      * eapply Forall_impl; [|exact C]. intros l [_ [_ [_ Ht]]] Hin.
        eapply forallb_forall in Ht; [|exact Hin].
        apply text_char_not_comment in Ht. congruence.
    + split; [reflexivity|]. intros ->. revert Hc. apply join_no_char.
      * discriminate.
      * eapply Forall_impl; [|exact C]. intros l [_ [_ [_ Ht]]].
        now apply text_char_not_cr.
  - intros line Hl. unfold preprocess_file in Hl.
    rewrite iter_lines_join in Hl by exact C.
    pose proof (with_newlines_shape _ C) as S.
    eapply Forall_forall in S; [|exact Hl].
    destruct S as [x [e [-> [[Hn [Hls [Hrs Ht]]] He]]]].
    exists x, e. repeat split; try assumption.
    + now apply strip_trimmed.
    + now apply text_char_not_nl.
Qed.

(** ** [get_profile] and [get_config] *)

Lemma get_config_loop (p : parser) (cfg : dict (dict str)) :
  forall todo acc,
    for_each (fun config_dict section =>
                pairs <- items p section ;;
                Ok (dict_set config_dict section pairs)) todo acc
    = Ok cfg ->
    (forall s, In s todo ->
       exists d, items p s = Ok d /\ dict_get cfg s = Some d)
    /\ (forall s, ~ In s todo -> dict_get cfg s = dict_get acc s)
    /\ (NoDup (dict_keys acc) ->
        NoDup todo -> (forall s, In s todo -> ~ In s (dict_keys acc)) ->
        dict_keys cfg = dict_keys acc ++ todo).
Proof.
  induction todo as [|x todo IH]; intros acc; cbn [for_each].
  - intros E. injection E as <-. split; [intros s []|].
    split; [reflexivity|]. intros _ _ _. now rewrite app_nil_r.
  - destruct (items p x) as [pairs|] eqn:Ei; cbn [bind]; [|discriminate].
    intros E. destruct (IH _ E) as [A [B C]]. split; [|split].
    + intros s [<-|Hs]; [|now apply A].
      destruct (in_dec (list_eq_dec ascii_dec) x todo) as [Hx|Hx].
      * destruct (A x Hx) as [d [Hd Hg]]. exists d. now split.
      * exists pairs. split; [exact Ei|].
        rewrite (B x Hx). apply dict_get_set_same.
    + intros s Hs. rewrite B by (intros F; apply Hs; now right).
      apply dict_get_set_other. intros ->. apply Hs. now left.
    + intros Hacc Hnd Hfresh. inversion Hnd as [|? ? Hx Hnd']. subst.
      assert (Hk : dict_keys (dict_set acc x pairs) = dict_keys acc ++ [x]).
      { rewrite dict_keys_set.
        destruct (dict_mem acc x) eqn:Em; [|reflexivity].
        apply dict_mem_keys in Em. exfalso.
        apply (Hfresh x); [now left|exact Em]. }
      rewrite C, Hk.
      * rewrite <- app_assoc. reflexivity.
      * rewrite Hk. apply NoDup_app; [exact Hacc|repeat constructor; tauto|].
        intros y Hy [Ey|[]]. subst y. apply (Hfresh x); [now left|exact Hy].
      * exact Hnd'.
      * intros s Hs. rewrite Hk. intros Hin. apply in_app_or in Hin.
        destruct Hin as [Hin|[Ey|[]]]; [|subst s; contradiction].
        apply (Hfresh s); [now right|exact Hin].
Qed.

(** X4: [get_profile] agrees with [get_config].  When [get_config]
    returns a configuration, [get_profile] of a listed profile (the
    argument is trimmed first) returns the mapping that the
    configuration holds under that name; and [get_profile] of a name
    that is neither listed nor [DEFAULT] fails with the
    profile-not-found error for the trimmed name. *)
Theorem get_profile_agrees_with_get_config
  (h : ConfigHandler) (cfg : dict (dict str)) (profile_name : str) :
  get_config h = Ok cfg ->
  (In (strip profile_name) (list_profiles h) ->
   exists d,
     get_profile h profile_name = Ok d
     /\ dict_get cfg (strip profile_name) = Some d)
  /\ (~ In (strip profile_name) (list_profiles h) ->
      strip profile_name <> default_section ->
      get_profile h profile_name
      = Raise (KeyError
                 (profile_not_found_message (strip profile_name)))).
Proof.
  intros E. split.
  - intros Hin. unfold get_config in E.
    destruct (get_config_loop _ _ _ _ E) as [A _].
    destruct (A _ Hin) as [d [Hd Hg]]. exists d. split; [|exact Hg].
    unfold get_profile.
    rewrite (proj2 (contains_present h (strip profile_name)))
      by (now left).
    exact Hd.
  - intros Hn Hd. unfold get_profile.
    destruct (contains (config h) (strip profile_name)) eqn:Ec;
      [|reflexivity].
    apply contains_present in Ec. tauto.
Qed.

Lemma get_profile_agrees_with_get_config_witness :
  (In (strip " profile2 ") (list_profiles (fixture_handler false)) ->
   exists d,
     get_profile (fixture_handler false) " profile2 " = Ok d
     /\ dict_get
          [("profile1" : str,
            [("key1" : str, "value1" : str); ("key2" : str, "value2" : str)]);
           ("profile2" : str,
            [("keya" : str, "valueA" : str); ("keyb" : str, "valueB" : str)]);
           ("profile3" : str,
            [("keyx" : str, "valueX" : str); ("keyy" : str, "valueY" : str)])]
          (strip " profile2 ") = Some d)
  /\ (~ In (strip " profile2 ") (list_profiles (fixture_handler false)) ->
      strip " profile2 " <> default_section ->
      get_profile (fixture_handler false) " profile2 "
      = Raise (KeyError
                 (profile_not_found_message (strip " profile2 ")))).
Proof.
  apply (get_profile_agrees_with_get_config (fixture_handler false)).
  reflexivity.
Defined.

(** ** Case of keys and of profile names in a lookup *)

Lemma constructed_case (fs : filesystem) (path : str) (pc : bool)
  (h : ConfigHandler) :
  ConfigHandler_init fs path pc = Ok h -> p_preserve_case (config h) = pc.
Proof.
  intros H.
  destruct (init_ok _ _ _ _ H) as [content [raw [seen [_ [_ [_ [C _]]]]]]].
  exact (ci_case _ _ _ _ C).
Qed.

Lemma get_value_optionxform (h : ConfigHandler) (p k k' : str) :
  optionxform (p_preserve_case (config h)) (strip k')
  = optionxform (p_preserve_case (config h)) (strip k) ->
  forall v, get_value h p k = Ok v -> get_value h p k' = Ok v.
Proof.
  intros E v. unfold get_value.
  destruct (contains (config h) (strip p)); [|discriminate].
  assert (Ho : has_option (config h) (strip p) (strip k')
               = has_option (config h) (strip p) (strip k)).
  { unfold has_option. now rewrite E. }
  rewrite Ho.
  destruct (has_option (config h) (strip p) (strip k)) eqn:Eh;
    [|discriminate].
  unfold proxy_getitem. rewrite Ho, Eh. unfold get. now rewrite E.
Qed.

(** X5: under the default case mode [get_value] finds a key whatever
    the case it is asked in: two keys that are equal once trimmed and
    lower-cased get the same value, and when one is not found neither
    is the other. *)
Theorem get_value_ignores_key_case
  (fs : filesystem) (path : str) (h : ConfigHandler)
  (profile_name key_name key_name' : str) :
  ConfigHandler_init fs path false = Ok h ->
  lower (strip key_name') = lower (strip key_name) ->
  forall v,
    get_value h profile_name key_name = Ok v
    <-> get_value h profile_name key_name' = Ok v.
Proof.
  intros H E v.
  pose proof (constructed_case _ _ _ _ H) as Hc.
  split; apply get_value_optionxform; rewrite Hc; cbn [optionxform];
    congruence.
Qed.

Lemma get_value_ignores_key_case_witness :
  get_value (fixture_handler false) "profile2" "keyA" = Ok ("valueA" : str)
  <-> get_value (fixture_handler false) "profile2" " KEYA " = Ok ("valueA" : str).
Proof.
  apply (get_value_ignores_key_case (single_file "config.ini" fixture)
           "config.ini" (fixture_handler false)
           "profile2" "keyA" " KEYA ");
    vm_compute; reflexivity.
Defined.

Lemma listed_names_normalized (fs : filesystem) (path : str) (pc : bool)
  (h : ConfigHandler) (n : str) :
  ConfigHandler_init fs path pc = Ok h ->
  In n (list_profiles h) -> clean_section_name pc n = n /\ strip n = n.
Proof.
  intros H Hn.
  destruct (init_ok _ _ _ _ H) as [content [raw [seen [_ [_ [_ [C _]]]]]]].
  pose proof (ci_sections _ _ _ _ C) as E. cbn [snd] in E.
  unfold list_profiles in Hn. rewrite E in Hn.
  apply filter_In in Hn as [Hn _]. apply in_map_iff in Hn as [s [<- _]].
  split.
  - apply clean_section_name_idem.
  - apply clean_section_name_trimmed.
Qed.

(** X6: under the default case mode every listed profile name is in
    lower case and trimmed, and the accessors compare the name they are
    given, trimmed, as it is: a name with an upper-case letter, other
    than [DEFAULT], is never found, whatever the case of the header in
    the file. *)
Theorem profile_lookup_is_case_sensitive
  (fs : filesystem) (path : str) (h : ConfigHandler) :
  ConfigHandler_init fs path false = Ok h ->
  (forall n, In n (list_profiles h) -> lower n = n /\ strip n = n)
  /\ forall profile_name,
      lower (strip profile_name) <> strip profile_name ->
      strip profile_name <> default_section ->
      get_profile h profile_name
      = Raise (KeyError (profile_not_found_message (strip profile_name)))
      /\ forall key_name,
          get_value h profile_name key_name
          = Raise (KeyError
                     (profile_not_found_message (strip profile_name))).
Proof.
  intros H.
  assert (N : forall n, In n (list_profiles h) -> lower n = n /\ strip n = n).
  { intros n Hn.
    destruct (listed_names_normalized _ _ _ _ n H Hn) as [A B].
    unfold clean_section_name in A. cbn [negb] in A. rewrite B in A.
    now split. }
  split; [exact N|]. intros p Hl Hd.
  assert (Ec : contains (config h) (strip p) = false).
  { destruct (contains (config h) (strip p)) eqn:Ec; [|reflexivity].
    apply contains_present in Ec as [Hin|Hdef]; [|contradiction].
    destruct (N _ Hin) as [A _]. contradiction. }
  split.
  - unfold get_profile. now rewrite Ec.
  - intros k. unfold get_value. now rewrite Ec.
Qed.

Lemma profile_lookup_is_case_sensitive_witness :
  (forall n, In n (list_profiles
                     (handler_of
                        (ConfigHandler_init
                           (single_file "config.ini"
                              (text_of ["[Prod]"; "Key = V"]))
                           "config.ini" false))) ->
             lower n = n /\ strip n = n)
  /\ forall profile_name,
      lower (strip profile_name) <> strip profile_name ->
      strip profile_name <> default_section ->
      get_profile
        (handler_of
           (ConfigHandler_init
              (single_file "config.ini" (text_of ["[Prod]"; "Key = V"]))
              "config.ini" false))
        profile_name
      = Raise (KeyError (profile_not_found_message (strip profile_name)))
      /\ forall key_name,
          get_value
            (handler_of
               (ConfigHandler_init
                  (single_file "config.ini" (text_of ["[Prod]"; "Key = V"]))
                  "config.ini" false))
            profile_name key_name
          = Raise (KeyError
                     (profile_not_found_message (strip profile_name))).
Proof.
  apply (profile_lookup_is_case_sensitive
           (single_file "config.ini" (text_of ["[Prod]"; "Key = V"]))
           "config.ini").
  vm_compute. reflexivity.
Defined.

(** ** [display_config] and [get_config] *)





(** ** Lines that are no header and no assignment *)

Lemma read_clean_errors (pc : bool) (st st' : read_state) (n : nat)
  (line x : str) :
  read_clean pc st n line x = Ok st' ->
  (rs_e st <> [] -> rs_e st' <> [])
  /\ (malformed_line x = true -> rs_e st' <> []).
Proof.
  unfold read_clean, malformed_line.
  destruct (SECTCRE x) as [hd|] eqn:Es.
  - unfold read_header. intros H. split; [|discriminate].
    destruct (dict_mem _ _).
    + destruct (set_mem _ _); [discriminate|]. now injection H as <-.
    + destruct (str_eqb _ _); now injection H as <-.
  - destruct (rs_sectname st) as [s|]; [|discriminate].
    unfold read_option. destruct (OPTCRE x) as [[k0 v0]|].
    + destruct (pair_mem _ _); [discriminate|].
      intros H. injection H as <-.
      match goal with |- context [cursect_set ?st1 ?a ?b ?c] =>
        destruct (cursect_set_fields st1 a b c) as [_ [_ [_ [_ [_ F]]]]] end.
      rewrite F. cbn [rs_e]. unfold handle_error.
      destruct (nonempty k0); cbn [negb].
      * split; [trivial|discriminate].
      * split; intros _; destruct (rs_e st); discriminate.
    + intros H. injection H as <-. cbn [rs_e]. unfold handle_error.
      split; intros _; destruct (rs_e st); discriminate.
Qed.

Lemma read_clean_lines_errors (pc : bool) (ls : list str) :
  forall st st' n,
    read_clean_lines pc st n ls = Ok st' ->
    (rs_e st <> [] -> rs_e st' <> [])
    /\ (existsb malformed_line ls = true -> rs_e st' <> []).
Proof.
  induction ls as [|x r IH]; intros st st' n; cbn [read_clean_lines existsb].
  - intros H. injection H as <-. split; [trivial|discriminate].
  - destruct (read_clean pc st n _ x) as [st1|] eqn:E; cbn [bind];
      [|discriminate].
    intros H. destruct (read_clean_errors _ _ _ _ _ _ E) as [A B].
    destruct (IH _ _ _ H) as [C D]. split; [auto|].
    intros M. apply orb_true_iff in M as [M|M]; auto.
Qed.

Lemma read_string_malformed (pc : bool) (content l : str) :
  In l (processed_lines_of content) ->
  malformed_line l = true ->
  exists ce,
    read_string pc (preprocess_file content) = Raise (ConfigParserError ce).
Proof.
  intros Hl Hm. rewrite read_string_preprocessed.
  destruct (read_clean_lines pc read_state_init 1
              (processed_lines_of content)) as [st|e] eqn:E; cbn [bind].
  - destruct (read_clean_lines_errors _ _ _ _ _ E) as [_ B].
    destruct (rs_e st) eqn:Ee; [|eauto].
    exfalso. apply B; [|reflexivity].
    apply existsb_exists. eauto.
  - destruct (read_clean_lines_raises _ _ _ _ _ E) as [ce ->]. eauto.
Qed.

(** X8: a line of the preprocessed text that is neither a section
    header nor an assignment with a key (it has no [=] and no [:], or
    starts with one) makes construction fail with the parse error,
    wherever it stands in the file. *)
Theorem malformed_line_fails
  (fs : filesystem) (path content : str) (pc : bool) (l : str) :
  fs path = TextFile content ->
  In l (processed_lines_of content) ->
  malformed_line l = true ->
  exists ce,
    ConfigHandler_init fs path pc
    = Raise (ValueError (parse_error_message ce)).
Proof.
  intros Hfs Hl Hm.
  destruct (read_string_malformed pc content l Hl Hm) as [ce R]. exists ce.
  unfold ConfigHandler_init, load_config, load_config_try.
  rewrite Hfs, R. reflexivity.
Qed.

Lemma malformed_line_fails_witness :
  exists ce,
    ConfigHandler_init
      (single_file "config.ini" (text_of ["[a]"; "k = v"; "just text"]))
      "config.ini" false
    = Raise (ValueError (parse_error_message ce)).
Proof.
  apply (malformed_line_fails
           (single_file "config.ini" (text_of ["[a]"; "k = v"; "just text"]))
           "config.ini" (text_of ["[a]"; "k = v"; "just text"]) false
           "just text").
  - reflexivity.
  - vm_compute. right. right. left. reflexivity.
  - reflexivity.
Defined.

(** ** What [_read] holds after the preprocessed lines *)

Lemma map_dict_set_ext {V W} (F F' : str * V -> W) (s : str) (d d' : V) :
  forall D : dict V,
    NoDup (dict_keys D) -> dict_get D s = Some d ->
    F' (s, d') = F (s, d) ->
    (forall sd, In sd D -> fst sd <> s -> F' sd = F sd) ->
    map F' (dict_set D s d') = map F D.
Proof.
  induction D as [|[s0 d0] D IH]; intros N G E1 E2; simpl in *;
    [discriminate|].
  inversion N as [|? ? Hs0 N']. subst.
  destruct (str_eqb s0 s) eqn:Es.
  - apply str_eqb_eq in Es. subst s0. injection G as ->. simpl.
    f_equal; [exact E1|].
    apply map_ext_in. intros [s1 d1] H1. apply E2; [now right|].
    simpl. intros ->. apply Hs0. unfold dict_keys.
    change s with (fst (s, d1)). now apply in_map.
  - simpl. f_equal.
    + apply E2; [now left|]. simpl. now apply str_eqb_neq.
    + apply IH; auto.
Qed.

Lemma entries_from_header (pc : bool) (name : str) (cur : option str)
  (x h : str) (r : list str) :
  SECTCRE x = Some h ->
  entries_from pc name cur (x :: r) = entries_from pc name (Some h) r.
Proof. intros E. cbn [entries_from]. now rewrite E. Qed.

Lemma entries_from_other (pc : bool) (name : str) (cur : option str)
  (x : str) (r : list str) :
  SECTCRE x = None -> OPTCRE x = None ->
  entries_from pc name cur (x :: r) = entries_from pc name cur r.
Proof.
  intros E1 E2. cbn [entries_from]. rewrite E1, E2. now destruct cur.
Qed.

Lemma entries_from_entry (pc : bool) (name c : str)
  (x k0 v0 : str) (r : list str) :
  SECTCRE x = None -> OPTCRE x = Some (k0, v0) ->
  entries_from pc name (Some c) (x :: r)
  = if str_eqb c name
    then (optionxform pc k0, v0) :: entries_from pc name (Some c) r
    else entries_from pc name (Some c) r.
Proof. intros E1 E2. cbn [entries_from]. now rewrite E1, E2. Qed.

Lemma read_clean_exact (pc : bool) (done : list str) (st st1 : read_state)
  (n : nat) (line x : str) (r : list str) :
  clean_line x -> read_inv pc done st -> options_tracked st ->
  (forall s, In s (filter (fun h => negb (is_default h)) (header_names r)) ->
             ~ In s (dict_keys (rs_sections st))) ->
  read_clean pc st n line x = Ok st1 ->
  rs_defaults st1
    ++ map box (entries_from pc default_section (rs_sectname st1) r)
  = rs_defaults st
      ++ map box (entries_from pc default_section (rs_sectname st) (x :: r))
  /\ map (extend_section pc (rs_sectname st1) r) (rs_sections st1)
       ++ map (new_section pc (rs_sectname st1) r)
            (filter (fun h => negb (is_default h)) (header_names r))
     = map (extend_section pc (rs_sectname st) (x :: r)) (rs_sections st)
         ++ map (new_section pc (rs_sectname st) (x :: r))
              (filter (fun h => negb (is_default h)) (header_names (x :: r)))
  /\ options_tracked st1.
Proof.
  intros Hx I [T1 T2] Hnew. unfold read_clean.
  destruct (SECTCRE x) as [h|] eqn:Es.
  - (* a section header *)
    unfold read_header.
    destruct (dict_mem (rs_sections st) h) eqn:Em.
    { rewrite (ri_added _ _ _ I h Em). discriminate. }
    assert (Ehd : forall name, entries_from pc name (rs_sectname st) (x :: r)
                               = entries_from pc name (Some h) r)
      by (intros; now apply entries_from_header).
    cbn [header_names]. rewrite Es.
    destruct (str_eqb h default_section) eqn:Ed; intros H; injection H as <-;
      cbn [rs_defaults rs_sections rs_sectname rs_added_options filter].
    + unfold is_default. rewrite Ed. cbn [negb].
      split; [now rewrite Ehd|]. split; [|now split].
      f_equal.
      * apply map_ext. intros sd. unfold extend_section. now rewrite Ehd.
      * apply map_ext. intros s. unfold new_section. now rewrite Ehd.
    + unfold is_default. rewrite Ed. cbn [negb map].
      split; [now rewrite Ehd|]. split.
      * rewrite map_app, <- app_assoc. f_equal.
        { apply map_ext. intros sd. unfold extend_section. now rewrite Ehd. }
        cbn [map app]. f_equal.
        { unfold extend_section, new_section. cbn [fst snd app].
          now rewrite Ehd. }
        apply map_ext. intros s. unfold new_section. now rewrite Ehd.
      * split; [exact T1|]. intros s d k Hin Hk.
        apply in_app_or in Hin as [Hin|[Hin|[]]]; [eauto|].
        injection Hin as <- <-. destruct Hk.
  - (* an option line *)
    destruct (rs_sectname st) as [s|] eqn:Hs; [|discriminate].
    unfold read_option.
    destruct (OPTCRE x) as [[k0 v0]|] eqn:Eo.
    2:{ intros H. injection H as <-.
        cbn [rs_defaults rs_sections rs_sectname rs_added_options
             header_names]. rewrite Es.
        assert (Eo' : forall name,
                   entries_from pc name (Some s) (x :: r)
                   = entries_from pc name (Some s) r)
          by (intros; now apply entries_from_other).
        rewrite Hs. split; [now rewrite Eo'|]. split; [|now split].
        f_equal.
        - apply map_ext. intros sd. unfold extend_section. now rewrite Eo'.
        - apply map_ext. intros s0. unfold new_section. now rewrite Eo'. }
    destruct (OPTCRE_clean _ _ _ Hx Eo) as [_ [Rk [Sv _]]].
    rewrite Rk, Sv.
    destruct (pair_mem (s, optionxform pc k0) (rs_added_options st)) eqn:Ep;
      [discriminate|].
    assert (Hfresh : ~ In (s, optionxform pc k0) (rs_added_options st)).
    { intros F. apply pair_mem_in in F. congruence. }
    intros H. injection H as <-.
    assert (Een : forall name,
               entries_from pc name (Some s) (x :: r)
               = if str_eqb s name
                 then (optionxform pc k0, v0)
                        :: entries_from pc name (Some s) r
                 else entries_from pc name (Some s) r)
      by (intros; now apply entries_from_entry).
    cbn [header_names]. rewrite Es.
    match goal with |- context [cursect_set ?st1 ?a ?b ?c] =>
      destruct (cursect_set_fields st1 a b c) as [_ [_ [_ [F4 _]]]] end.
    rewrite F4. cbn [rs_sectname]. rewrite Hs. clear F4.
    unfold options_tracked, cursect_set.
    destruct (str_eqb s default_section) eqn:Ed;
      cbn [rs_defaults rs_sections rs_sectname rs_added_options].
    + (* under the default section *)
      apply str_eqb_eq in Ed. subst s.
      assert (Hk : ~ In (optionxform pc k0) (dict_keys (rs_defaults st))).
      { intros F. apply Hfresh. now apply T1. }
      rewrite (dict_set_fresh _ _ _ Hk). split; [|split].
      * rewrite Een, str_eqb_refl, <- app_assoc. reflexivity.
      * f_equal.
        2:{ apply map_ext_in. intros s0 Hin. unfold new_section.
            rewrite Een. destruct (str_eqb default_section s0) eqn:E0;
              [|reflexivity].
            apply str_eqb_eq in E0. subst s0.
            apply filter_In in Hin as [_ Hd].
            unfold is_default in Hd. now rewrite str_eqb_refl in Hd. }
        apply map_ext_in. intros [s0 d0] Hin. unfold extend_section.
        cbn [fst snd]. rewrite Een.
        destruct (str_eqb default_section s0) eqn:E0; [|reflexivity].
        apply str_eqb_eq in E0. subst s0. exfalso.
        pose proof (ri_sections _ _ _ I) as K.
        assert (Hin' : In default_section (dict_keys (rs_sections st))).
        { unfold dict_keys.
          change default_section with (fst (default_section, d0)).
          now apply in_map. }
        rewrite K in Hin'. apply filter_In in Hin' as [_ Hd].
        unfold is_default in Hd. now rewrite str_eqb_refl in Hd.
      * split.
        { intros k Hk'. unfold dict_keys in Hk'. rewrite map_app in Hk'.
          apply in_app_or in Hk' as [Hk'|[<-|[]]]; [right; now apply T1|].
          now left. }
        intros s0 d0 k Hin Hk'. right. eauto.
    + (* under a section of its own *)
      assert (Hsec : dict_mem (rs_sections st) s = true).
      { destruct (ri_sectname _ _ _ I s Hs) as [->|M]; [|exact M].
        now rewrite str_eqb_refl in Ed. }
      destruct (dict_get (rs_sections st) s) as [d|] eqn:Eg.
      2:{ unfold dict_mem in Hsec. rewrite Eg in Hsec. discriminate. }
      cbn [rs_defaults rs_sections rs_sectname rs_added_options].
      assert (Hk : ~ In (optionxform pc k0) (dict_keys d)).
      { intros F. apply Hfresh. apply (T2 s d); [|exact F].
        now apply dict_get_in. }
      rewrite (dict_set_fresh _ _ _ Hk). split; [|split].
      * rewrite Een. rewrite (proj2 (str_eqb_neq s default_section));
          [reflexivity|]. now apply str_eqb_neq.
      * f_equal.
        2:{ apply map_ext_in. intros s0 Hin. unfold new_section.
            rewrite Een. destruct (str_eqb s s0) eqn:E0; [|reflexivity].
            apply str_eqb_eq in E0. subst s0. exfalso.
            apply (Hnew s Hin). now apply dict_mem_keys. }
        apply map_dict_set_ext with (d := d); [apply I|exact Eg| |].
        { unfold extend_section. cbn [fst snd]. rewrite Een, str_eqb_refl.
          now rewrite <- app_assoc. }
        intros [s0 d0] Hin Hne. unfold extend_section. cbn [fst snd] in *.
        rewrite Een. rewrite (proj2 (str_eqb_neq s s0)); [reflexivity|].
        congruence.
      * split; [intros k Hk'; right; now apply T1|].
        intros s0 d0 k Hin Hk'.
        apply dict_set_in in Hin as [[-> ->]|Hin]; [|right; eauto].
        unfold dict_keys in Hk'. rewrite map_app in Hk'.
        apply in_app_or in Hk' as [Hk'|[<-|[]]]; [right|now left].
        apply (T2 s d); [now apply dict_get_in|exact Hk'].
Qed.

Lemma nodup_app_disjoint {A} (a b : list A) (x : A) :
  NoDup (a ++ b) -> In x a -> In x b -> False.
Proof.
  induction a as [|y a IH]; cbn [app]; [intros _ []|].
  intros N [->|Ha] Hb; inversion N as [|? ? Hy N']; subst.
  - apply Hy. apply in_or_app. now right.
  - now apply IH.
Qed.

Lemma read_clean_lines_exact (pc : bool) (ls : list str) :
  Forall clean_line ls ->
  forall done st st' n,
    read_inv pc done st -> options_tracked st ->
    read_clean_lines pc st n ls = Ok st' ->
    rs_defaults st'
    = rs_defaults st
        ++ map box (entries_from pc default_section (rs_sectname st) ls)
    /\ rs_sections st'
       = map (extend_section pc (rs_sectname st) ls) (rs_sections st)
           ++ map (new_section pc (rs_sectname st) ls)
                (filter (fun h => negb (is_default h)) (header_names ls)).
Proof.
  induction 1 as [|x r Hx Hr IH]; intros done st st' n I T.
  - cbn [read_clean_lines]. intros H. injection H as <-.
    cbn [entries_from header_names filter map]. rewrite !app_nil_r.
    split; [reflexivity|].
    rewrite <- (map_id (rs_sections st)) at 1. apply map_ext.
    intros [s d]. unfold extend_section. cbn [fst snd entries_from map].
    now rewrite app_nil_r.
  - intros H.
    pose proof (read_clean_lines_inv pc (x :: r) (Forall_cons _ Hx Hr)
                  done st st' n I H) as I'.
    cbn [read_clean_lines] in H.
    destruct (read_clean pc st n _ x) as [st1|] eqn:E; cbn [bind] in H;
      [|discriminate].
    assert (Hnew : forall s,
               In s (filter (fun h => negb (is_default h)) (header_names r)) ->
               ~ In s (dict_keys (rs_sections st))).
    { intros s Hs Hin. pose proof (ri_nodup _ _ _ I') as N.
      rewrite (ri_sections _ _ _ I'), header_names_app, filter_app in N.
      rewrite (ri_sections _ _ _ I) in Hin.
      change (x :: r) with ([x] ++ r) in N.
      rewrite header_names_app, filter_app in N.
      apply (nodup_app_disjoint _ _ s N Hin).
      apply in_or_app. now right. }
    destruct (read_clean_exact pc done st st1 n _ x r Hx I T Hnew E)
      as [A [B T1]].
    destruct (IH (done ++ [x]) st1 st' (S n)
                (read_clean_inv _ _ _ _ _ _ _ Hx I E) T1 H) as [C D].
    rewrite C, D. split; [exact A|exact B].
Qed.

(** ** The parser that [read_string] returns, line by line *)

Lemma entries_from_in (pc : bool) (name : str) (ls : list str) :
  forall cur k v,
    In (k, v) (entries_from pc name cur ls) ->
    exists l, In l ls /\ entry_of pc l = Some (k, v).
Proof.
  induction ls as [|x r IH]; intros cur k v; cbn [entries_from]; [intros []|].
  destruct (SECTCRE x) as [h|] eqn:Es.
  - intros H. destruct (IH _ _ _ H) as [l [Hl He]]. exists l. split; auto.
    now right.
  - assert (G : In (k, v) (entries_from pc name cur r) ->
                exists l, In l (x :: r) /\ entry_of pc l = Some (k, v)).
    { intros H. destruct (IH _ _ _ H) as [l [Hl He]]. exists l. split; auto.
      now right. }
    destruct cur as [c|]; [|exact G].
    destruct (OPTCRE x) as [[k0 v0]|] eqn:Eo; [|exact G].
    destruct (str_eqb c name); [|exact G].
    intros [H|H]; [|now apply G].
    injection H as <- <-. exists x. split; [now left|].
    unfold entry_of. now rewrite Es, Eo.
Qed.

Lemma entries_from_trimmed (pc : bool) (name : str) (cur : option str)
  (ls : list str) :
  Forall clean_line ls ->
  forall k v, In (k, v) (entries_from pc name cur ls) -> strip v = v.
Proof.
  intros C k v H. destruct (entries_from_in _ _ _ _ _ _ H) as [l [Hl He]].
  rewrite Forall_forall in C.
  now destruct (entry_of_clean pc l k v (C l Hl) He) as [_ [B _]].
Qed.

Lemma read_string_exact (pc : bool) (content : str) (raw : parser) :
  read_string pc (preprocess_file content) = Ok raw ->
  _defaults raw
  = section_entries pc default_section (processed_lines_of content)
  /\ _sections raw
     = map (fun s => (s, section_entries pc s (processed_lines_of content)))
         (filter (fun h => negb (is_default h))
            (header_names (processed_lines_of content))).
Proof.
  rewrite read_string_preprocessed.
  pose proof (processed_lines_clean content) as C.
  destruct (read_clean_lines pc read_state_init 1 (processed_lines_of content))
    as [st|] eqn:E; cbn [bind]; [|discriminate].
  destruct (rs_e st); [|discriminate].
  intros H. injection H as <-. cbn [_defaults _sections].
  destruct (read_clean_lines_exact pc _ C [] read_state_init st 1
              (read_inv_init pc)) as [A B]; [|exact E|].
  { split; [intros k []|intros s d k []]. }
  cbn [read_state_init rs_defaults rs_sections rs_sectname app map] in A, B.
  rewrite A, B. split.
  - apply join_values_box. intros k v. now apply entries_from_trimmed.
  - rewrite map_map. apply map_ext. intros s. unfold new_section.
    cbn [fst snd]. f_equal. apply join_values_box.
    intros k v. now apply entries_from_trimmed.
Qed.

Lemma raw_items (pc : bool) (content : str) (raw : parser) (s : str) :
  read_string pc (preprocess_file content) = Ok raw ->
  In s (sections raw) ->
  items raw s = Ok (file_items pc (processed_lines_of content) s)
  /\ NoDup (dict_keys (file_items pc (processed_lines_of content) s))
  /\ forall k v,
      In (k, v) (file_items pc (processed_lines_of content) s) ->
      parser_pairs raw k v.
Proof.
  intros Hr Hs.
  pose proof (read_string_inv pc content raw Hr) as R.
  destruct (read_string_exact pc content raw Hr) as [D S].
  assert (G : dict_get (_sections raw) s
              = Some (section_entries pc s (processed_lines_of content))).
  { apply in_dict_get; [apply R|]. rewrite S.
    unfold sections in Hs. rewrite S in Hs. unfold dict_keys in Hs.
    rewrite map_map in Hs. cbn [fst] in Hs. rewrite map_id in Hs.
    apply in_map_iff. exists s. now split. }
  unfold file_items. rewrite <- D. split; [|split].
  - apply items_raw; [apply R|apply R|exact G].
  - apply dict_update_nodup. apply R.
  - intros k v H. apply dict_update_in in H as [H|H].
    + now left.
    + right. exists s, (section_entries pc s (processed_lines_of content)).
      split; [now apply dict_get_in|exact H].
Qed.

(** ** The parser that [load_config] keeps, section by section *)

Lemma clean_sections_exact (pc : bool) (raw : parser)
  (Mof : str -> dict str) :
  forall todo done seen,
    (forall s, In s (done ++ todo) ->
       items raw s = Ok (Mof s)
       /\ NoDup (dict_keys (Mof s))
       /\ (forall k v, In (k, v) (Mof s) -> entry_wf pc k v)
       /\ name_wf pc (clean_section_name pc s)) ->
    NoDup (map (clean_section_name pc) (done ++ todo)) ->
    (forall n, In n seen -> In n (map (clean_section_name pc) done)) ->
    exists seen',
      for_each (clean_section pc raw) todo
        (seen,
         parser_of pc BasicInterpolation
           (map (fun s => (clean_section_name pc s, Mof s)) done))
      = Ok (seen',
            parser_of pc BasicInterpolation
              (map (fun s => (clean_section_name pc s, Mof s))
                 (done ++ todo))).
Proof.
  induction todo as [|s todo IH]; intros done seen W N Hseen.
  - exists seen. now rewrite app_nil_r.
  - destruct (W s) as [Hi [Nk [We Wn]]];
      [apply in_or_app; right; now left|].
    set (n := clean_section_name pc s) in *.
    set (G1 := map (fun s => (clean_section_name pc s, Mof s)) done).
    assert (K1 : dict_keys G1 = map (clean_section_name pc) done).
    { unfold G1, dict_keys. rewrite map_map. reflexivity. }
    assert (Hfresh : ~ In n (dict_keys G1)).
    { rewrite K1. rewrite map_app in N. cbn [map] in N.
      apply NoDup_remove_2 in N. intros H. apply N.
      apply in_or_app. now left. }
    assert (Estep : clean_section pc raw
                      (seen, parser_of pc BasicInterpolation G1) s
                    = Ok (n :: seen,
                          parser_of pc BasicInterpolation
                            (G1 ++ [(n, Mof s)]))).
    { unfold clean_section. fold n.
      assert (Es : set_mem n seen = false).
      { apply set_mem_false. intros H. apply Hfresh. rewrite K1.
        now apply Hseen. }
      rewrite Es.
      assert (Ec : contains (parser_of pc BasicInterpolation G1) n = false).
      { unfold contains, has_section, parser_of. cbn [_sections].
        apply orb_false_iff. split; [apply str_eqb_neq, Wn|].
        now apply dict_mem_false. }
      rewrite Ec. cbn [negb]. unfold add_section.
      replace (str_eqb n default_section) with false
        by (symmetry; apply str_eqb_neq, Wn).
      replace (dict_mem (_sections (parser_of pc BasicInterpolation G1)) n)
        with false by (symmetry; now apply dict_mem_false).
      cbn [bind]. rewrite Hi. cbn [bind].
      destruct (clean_back_entries pc G1 n Wn Hfresh (Mof s) [] []) as [ks E].
      - intros k [].
      - exact Nk.
      - exact We.
      - unfold parser_of in *.
        cbn [p_preserve_case p_interpolation _defaults _sections].
        match type of E with ?L = _ =>
          match goal with |- bind ?X _ = _ => change X with L end end.
        rewrite E. reflexivity. }
    cbn [for_each]. rewrite Estep. cbn [bind].
    destruct (IH (done ++ [s]) (n :: seen)) as [seen' E].
    + intros s0 H. apply W. now rewrite <- app_assoc in H.
    + now rewrite <- app_assoc.
    + intros n0 [<-|H]; rewrite map_app; apply in_or_app.
      * right. now left.
      * left. now apply Hseen.
    + exists seen'. unfold G1.
      rewrite map_app in E. cbn [map] in E. fold n in E.
      rewrite <- app_assoc in E. exact E.
Qed.

Lemma header_name_text (ls : list str) (s : str) :
  Forall clean_line ls -> In s (header_names ls) ->
  forallb text_char s = true.
Proof.
  intros C Hs. apply header_names_in in Hs as [l [Hl Hsect]].
  rewrite Forall_forall in C. destruct (C l Hl) as [_ [_ [_ Tl]]].
  apply forallb_forall. intros x Hx.
  eapply forallb_forall in Tl; [exact Tl|].
  now apply (SECTCRE_incl l s x Hsect).
Qed.

Lemma file_config_keys (pc : bool) (ls : list str) :
  dict_keys (file_config pc ls)
  = map (clean_section_name pc)
      (filter (fun n => negb (is_default n)) (header_names ls)).
Proof. unfold file_config, dict_keys. now rewrite map_map. Qed.

(** Construction from a text that the parser accepts, without percent
    signs and with ordinary profile names that differ. *)
Lemma init_exact (fs : filesystem) (path content : str) (pc : bool)
  (raw : parser) :
  fs path = TextFile content ->
  read_string pc (preprocess_file content) = Ok raw ->
  has_char PERCENT content = false ->
  ordinary_names pc (processed_lines_of content) ->
  NoDup (map (clean_section_name pc) (sections raw)) ->
  ConfigHandler_init fs path pc
  = Ok (mkConfigHandler path pc
          (parser_of pc BasicInterpolation
             (file_config pc (processed_lines_of content)))).
Proof.
  intros Hfs Hr Hc Hn N.
  pose proof (read_string_inv pc content raw Hr) as R.
  pose proof (processed_lines_clean content) as C.
  set (ls := processed_lines_of content) in *.
  unfold ConfigHandler_init, load_config, load_config_try.
  rewrite Hfs, Hr. cbn [bind].
  destruct (clean_sections_exact pc raw (file_items pc ls)
              (sections raw) [] []) as [seen' E].
  - cbn [app]. intros s Hs.
    destruct (raw_items pc content raw s Hr Hs) as [A [B P]].
    split; [exact A|]. split; [exact B|]. split.
    + intros k v H. apply (constructed_entry_wf pc content raw k v Hc).
      * apply R.
      * now apply P.
    + rewrite (rw_sections _ _ _ R) in Hs. apply filter_In in Hs as [Hs Hd].
      assert (Hne : s <> default_section).
      { intros ->. unfold is_default in Hd.
        now rewrite str_eqb_refl in Hd. }
      destruct (Hn s Hs Hne) as [N1 N2]. constructor; auto.
      * apply clean_section_name_trimmed.
      * apply clean_section_name_idem.
      * apply clean_section_name_text.
        now apply (header_name_text ls).
  - exact N.
  - intros n [].
  - change (ConfigParser pc) with (parser_of pc BasicInterpolation []).
    cbn [map app] in E.
    match type of E with ?L = _ =>
      match goal with |- context [bind ?X _] => change X with L end end.
    rewrite E. cbn [bind snd]. unfold file_config, file_items.
    now rewrite (rw_sections _ _ _ R).
Qed.

(** ** The configuration of a file *)

Lemma file_config_wf (pc : bool) (content : str) (raw : parser) :
  read_string pc (preprocess_file content) = Ok raw ->
  has_char PERCENT content = false ->
  ordinary_names pc (processed_lines_of content) ->
  NoDup (map (clean_section_name pc) (sections raw)) ->
  config_wf pc (file_config pc (processed_lines_of content)).
Proof.
  intros Hr Hc Hn N.
  pose proof (read_string_inv pc content raw Hr) as R.
  pose proof (processed_lines_clean content) as C.
  set (ls := processed_lines_of content) in *.
  assert (Hin : forall n M,
             In (n, M) (file_config pc ls) ->
             exists s, In s (sections raw) /\ n = clean_section_name pc s
                       /\ M = file_items pc ls s).
  { intros n M H. unfold file_config in H. apply in_map_iff in H.
    destruct H as [s [H Hs]]. injection H as <- <-.
    exists s. rewrite (rw_sections _ _ _ R). auto. }
  constructor.
  - rewrite file_config_keys, <- (rw_sections _ _ _ R). exact N.
  - intros n M H. destruct (Hin n M H) as [s [Hs [-> _]]].
    rewrite (rw_sections _ _ _ R) in Hs. apply filter_In in Hs as [Hs Hd].
    assert (Hne : s <> default_section).
    { intros ->. unfold is_default in Hd. now rewrite str_eqb_refl in Hd. }
    destruct (Hn s Hs Hne) as [N1 N2]. constructor; auto.
    + apply clean_section_name_trimmed.
    + apply clean_section_name_idem.
    + apply clean_section_name_text. now apply (header_name_text ls).
  - intros n M H. destruct (Hin n M H) as [s [Hs [_ ->]]].
    now destruct (raw_items pc content raw s Hr Hs) as [_ [B _]].
  - intros n M k v H Hk. destruct (Hin n M H) as [s [Hs [_ ->]]].
    destruct (raw_items pc content raw s Hr Hs) as [_ [_ P]].
    apply (constructed_entry_wf pc content raw k v Hc); [apply R|].
    now apply P.
Qed.

Lemma get_config_parser_of (path : str) (pc : bool) (G : dict (dict str)) :
  config_wf pc G ->
  get_config (mkConfigHandler path pc (parser_of pc BasicInterpolation G))
  = Ok G.
Proof.
  intros W. apply get_config_of; [apply W|reflexivity|].
  intros n M Hin. apply items_plain.
  - unfold unify_values, parser_of. cbn [config _sections _defaults].
    rewrite (in_dict_get G n M (cw_names _ _ W) Hin).
    now rewrite (dict_update_fresh M [])
      by (simpl; apply (cw_keys _ _ W n M Hin)).
  - apply (cw_keys _ _ W n M Hin).
  - intros k v H. apply (ew_value_plain pc k v).
    apply (cw_entry _ _ W n M k v Hin H).
Qed.

Lemma init_get_config (fs : filesystem) (path content : str) (pc : bool)
  (raw : parser) :
  fs path = TextFile content ->
  read_string pc (preprocess_file content) = Ok raw ->
  has_char PERCENT content = false ->
  ordinary_names pc (processed_lines_of content) ->
  NoDup (map (clean_section_name pc) (sections raw)) ->
  exists h,
    ConfigHandler_init fs path pc = Ok h
    /\ get_config h = Ok (file_config pc (processed_lines_of content))
    /\ list_profiles h
       = dict_keys (file_config pc (processed_lines_of content)).
Proof.
  intros Hfs Hr Hc Hn N. eexists.
  split; [exact (init_exact fs path content pc raw Hfs Hr Hc Hn N)|].
  split; [|reflexivity].
  apply get_config_parser_of. now apply (file_config_wf pc content raw).
Qed.

(** X9: what [get_config] returns, read off the file.  For a handler
    constructed from a file without percent signs whose headers have
    ordinary names (no header other than [DEFAULT] has a normalized
    name that is empty or [DEFAULT]), [get_config] returns the
    configuration that the preprocessed lines write down: per header
    other than [DEFAULT], in the order of the file, the normalized name
    with the pairs of the assignment lines under [DEFAULT] overlaid by
    those under the header, each key under the case mode and each
    value as the line gives it.  [list_profiles] returns its keys. *)
Theorem get_config_of_file
  (fs : filesystem) (path content : str) (pc : bool) (h : ConfigHandler) :
  fs path = TextFile content ->
  ConfigHandler_init fs path pc = Ok h ->
  has_char PERCENT content = false ->
  ordinary_names pc (processed_lines_of content) ->
  get_config h = Ok (file_config pc (processed_lines_of content))
  /\ list_profiles h = dict_keys (file_config pc (processed_lines_of content)).
Proof.
  intros Hfs H Hc Hn.
  destruct (init_ok _ _ _ _ H) as [content' [raw [seen [Hfs' [Hr [R [C _]]]]]]].
  rewrite Hfs in Hfs'. injection Hfs' as <-.
  destruct (init_get_config fs path content pc raw Hfs Hr Hc Hn
              (ci_nodup _ _ _ _ C)) as [h' [E G]].
  rewrite H in E. injection E as <-. exact G.
Qed.

Lemma get_config_of_file_witness :
  get_config
    (handler_of
       (ConfigHandler_init
          (single_file "config.ini"
             (text_of ["[DEFAULT]"; "region = eu"; "Key = d"; "[Prod]";
                       "key = 1 # one"; "[Test]"]))
          "config.ini" false))
  = Ok [("prod" : str, [("region" : str, "eu" : str); ("key" : str, "1" : str)]);
        ("test" : str, [("region" : str, "eu" : str); ("key" : str, "d" : str)])]
  /\ list_profiles
       (handler_of
          (ConfigHandler_init
             (single_file "config.ini"
                (text_of ["[DEFAULT]"; "region = eu"; "Key = d"; "[Prod]";
                          "key = 1 # one"; "[Test]"]))
             "config.ini" false))
     = ["prod" : str; "test" : str].
Proof.
  apply (get_config_of_file
           (single_file "config.ini"
              (text_of ["[DEFAULT]"; "region = eu"; "Key = d"; "[Prod]";
                        "key = 1 # one"; "[Test]"]))
           "config.ini"
           (text_of ["[DEFAULT]"; "region = eu"; "Key = d"; "[Prod]";
                     "key = 1 # one"; "[Test]"])
           false).
  - reflexivity.
  - vm_compute. reflexivity.
  - reflexivity.
  - intros s Hs Hd. vm_compute in Hs.
    destruct Hs as [<-|[<-|[<-|[]]]]; split; discriminate.
Defined.

(** ** Texts that [_read] accepts *)

Lemma sections_after_keys (pc : bool) (st : read_state) (ls : list str) :
  dict_keys (sections_after pc st ls)
  = dict_keys (rs_sections st)
      ++ filter (fun h => negb (is_default h)) (header_names ls).
Proof.
  unfold sections_after, dict_keys. rewrite map_app, !map_map.
  cbn [extend_section new_section fst]. now rewrite map_id.
Qed.

Lemma headers_after_fresh (pc : bool) (st : read_state) (x : str)
  (r : list str) :
  no_duplicates_after pc st (x :: r) ->
  forall s, In s (filter (fun h => negb (is_default h)) (header_names r)) ->
            ~ In s (dict_keys (rs_sections st)).
Proof.
  intros [N _] s Hs Hin. rewrite sections_after_keys in N.
  apply (nodup_app_disjoint _ _ s N Hin).
  change (x :: r) with ([x] ++ r).
  rewrite header_names_app, filter_app. apply in_or_app. now right.
Qed.

Lemma read_clean_after (pc : bool) (done : list str) (st st1 : read_state)
  (n : nat) (line x : str) (r : list str) :
  clean_line x -> read_inv pc done st -> options_tracked st ->
  no_duplicates_after pc st (x :: r) ->
  read_clean pc st n line x = Ok st1 ->
  no_duplicates_after pc st1 r /\ options_tracked st1.
Proof.
  intros Hx I T N E.
  destruct (read_clean_exact pc done st st1 n line x r Hx I T
              (headers_after_fresh pc st x r N) E) as [A [B T1]].
  split; [|exact T1]. unfold no_duplicates_after, sections_after,
    defaults_after in *. now rewrite A, B.
Qed.

Lemma read_clean_total (pc : bool) (done : list str) (st : read_state)
  (n : nat) (line x : str) (r : list str) :
  clean_line x -> read_inv pc done st ->
  options_stored st ->
  no_duplicates_after pc st (x :: r) ->
  malformed_line x = false ->
  (rs_sectname st = None -> SECTCRE x <> None) ->
  exists st1,
    read_clean pc st n line x = Ok st1
    /\ rs_e st1 = rs_e st
    /\ options_stored st1
    /\ rs_sectname st1 <> None.
Proof.
  intros Hx I S [N1 [N2 N3]] Hm Hstart. unfold read_clean.
  unfold malformed_line in Hm.
  destruct (SECTCRE x) as [h|] eqn:Es.
  - (* a section header *)
    unfold read_header.
    assert (Em : dict_mem (rs_sections st) h = false).
    { apply dict_mem_false. intros Hin.
      destruct (str_eqb h default_section) eqn:Ed.
      - apply str_eqb_eq in Ed. subst h.
        rewrite (ri_sections _ _ _ I) in Hin.
        apply filter_In in Hin as [_ Hd]. unfold is_default in Hd.
        now rewrite str_eqb_refl in Hd.
      - rewrite sections_after_keys in N1.
        apply (nodup_app_disjoint _ _ h N1 Hin).
        cbn [header_names]. rewrite Es. cbn [filter]. unfold is_default.
        rewrite Ed. now left. }
    rewrite Em.
    destruct (str_eqb h default_section) eqn:Ed; eexists;
      (split; [reflexivity|]); cbn [rs_e rs_sectname rs_added_options
                                    rs_defaults rs_sections];
      (split; [reflexivity|]); (split; [|discriminate]).
    + exact S.
    + intros s k Hin. specialize (S s k Hin).
      destruct (str_eqb s default_section); [exact S|].
      destruct S as [d [Hg Hk]]. exists d. split; [|exact Hk].
      assert (Hne : str_eqb h s = false).
      { apply str_eqb_neq. intros ->. unfold dict_mem in Em.
        now rewrite Hg in Em. }
      cbn [rs_sections]. rewrite dict_get_app_fresh by exact Em.
      now rewrite Hne.
  - (* an assignment *)
    destruct (rs_sectname st) as [s|] eqn:Hs;
      [|now destruct Hstart].
    unfold read_option.
    destruct (OPTCRE x) as [[k0 v0]|] eqn:Eo; [|discriminate].
    destruct (nonempty k0) eqn:Ek; [|discriminate].
    destruct (OPTCRE_clean _ _ _ Hx Eo) as [_ [Rk [Sv _]]].
    rewrite Rk, Sv.
    assert (Een : forall name,
               entries_from pc name (Some s) (x :: r)
               = if str_eqb s name
                 then (optionxform pc k0, v0)
                        :: entries_from pc name (Some s) r
                 else entries_from pc name (Some s) r)
      by (intros; now apply entries_from_entry).
    assert (Ep : pair_mem (s, optionxform pc k0) (rs_added_options st)
                 = false).
    { destruct (pair_mem _ _) eqn:Ep; [|reflexivity]. exfalso.
      apply pair_mem_in in Ep. specialize (S _ _ Ep).
      destruct (str_eqb s default_section) eqn:Ed.
      - apply str_eqb_eq in Ed. subst s.
        unfold defaults_after in N3. rewrite Hs, Een, str_eqb_refl in N3.
        unfold dict_keys in N3. rewrite map_app in N3. cbn [map fst box] in N3.
        apply NoDup_remove_2 in N3. apply N3. apply in_or_app. now left.
      - destruct S as [d [Hg Hk]].
        assert (Hin : In (extend_section pc (Some s) (x :: r) (s, d))
                        (sections_after pc st (x :: r))).
        { unfold sections_after. apply in_or_app. left. rewrite Hs.
          apply in_map. now apply dict_get_in. }
        unfold extend_section in Hin. cbn [fst snd] in Hin.
        apply N2 in Hin. rewrite Een, str_eqb_refl in Hin.
        unfold dict_keys in Hin. rewrite map_app in Hin.
        cbn [map fst box] in Hin.
        apply NoDup_remove_2 in Hin. apply Hin. apply in_or_app. now left. }
    rewrite Ep. eexists. split; [reflexivity|].
    assert (Hsec : str_eqb s default_section = false ->
                   exists d, dict_get (rs_sections st) s = Some d).
    { intros Ed. destruct (ri_sectname _ _ _ I s Hs) as [->|M].
      - now rewrite str_eqb_refl in Ed.
      - unfold dict_mem in M.
        destruct (dict_get (rs_sections st) s); [eauto|discriminate]. }
    assert (Hset : forall (d : dict (list str)) k,
               In k (dict_keys d) ->
               In k (dict_keys (dict_set d (optionxform pc k0) [v0]))).
    { intros d k Hk. rewrite dict_keys_set.
      destruct (dict_mem d (optionxform pc k0)); [exact Hk|].
      apply in_or_app. now left. }
    assert (Hnew : forall d : dict (list str),
               In (optionxform pc k0)
                 (dict_keys (dict_set d (optionxform pc k0) [v0]))).
    { intros d. rewrite dict_keys_set.
      destruct (dict_mem d (optionxform pc k0)) eqn:Em.
      - now apply dict_mem_keys.
      - apply in_or_app. right. now left. }
    unfold options_stored, cursect_set.
    cbn [rs_e rs_sectname rs_added_options rs_defaults rs_sections
         rs_added_sections rs_optname rs_indent_level].
    destruct (str_eqb s default_section) eqn:Ed.
    + cbn [rs_e rs_sectname rs_added_options rs_defaults rs_sections].
      split; [reflexivity|]. split; [|rewrite Hs; discriminate].
      intros s1 k1 [Hin|Hin].
      * injection Hin as <- <-. rewrite Ed. apply Hnew.
      * specialize (S _ _ Hin).
        destruct (str_eqb s1 default_section); [|exact S]. now apply Hset.
    + destruct (Hsec eq_refl) as [d Hg]. rewrite Hg.
      cbn [rs_e rs_sectname rs_added_options rs_defaults rs_sections].
      split; [reflexivity|]. split; [|rewrite Hs; discriminate].
      intros s1 k1 [Hin|Hin].
      * injection Hin as <- <-. rewrite Ed.
        exists (dict_set d (optionxform pc k0) [v0]).
        split; [apply dict_get_set_same|apply Hnew].
      * specialize (S _ _ Hin).
        destruct (str_eqb s1 default_section) eqn:E1; [exact S|].
        destruct S as [d1 [Hg1 Hk1]].
        destruct (str_eqb s s1) eqn:E2.
        { apply str_eqb_eq in E2. subst s1. rewrite Hg in Hg1.
          injection Hg1 as <-.
          exists (dict_set d (optionxform pc k0) [v0]).
          split; [apply dict_get_set_same|now apply Hset]. }
        exists d1. split; [|exact Hk1].
        rewrite dict_get_set_other; [exact Hg1|].
        intros ->. now rewrite str_eqb_refl in E2.
Qed.

Lemma read_clean_lines_total (pc : bool) (ls : list str) :
  Forall clean_line ls ->
  forall done st n,
    read_inv pc done st -> options_tracked st -> options_stored st ->
    no_duplicates_after pc st ls ->
    existsb malformed_line ls = false ->
    (rs_sectname st = None -> starts_with_header ls = true) ->
    exists st',
      read_clean_lines pc st n ls = Ok st' /\ rs_e st' = rs_e st.
Proof.
  induction 1 as [|x r Hx Hr IH]; intros done st n I T St N Hm Hstart.
  - exists st. now split.
  - cbn [existsb] in Hm. apply orb_false_iff in Hm as [Hm1 Hm2].
    cbn [read_clean_lines].
    destruct (read_clean_total pc done st n
                (match r with [] => x | _ => x ++ [NL] end) x r Hx I St N Hm1)
      as [st1 [E [Ee [S1 Hs1]]]].
    { intros Hn. specialize (Hstart Hn). cbn [starts_with_header] in Hstart.
      destruct (SECTCRE x); [discriminate|discriminate]. }
    rewrite E. cbn [bind].
    destruct (read_clean_after pc done st st1 n _ x r Hx I T N E) as [N1 T1].
    destruct (IH (done ++ [x]) st1 (S n)
                (read_clean_inv _ _ _ _ _ _ _ Hx I E) T1 S1 N1 Hm2)
      as [st' [E' Ee']].
    { intros Hn. contradiction. }
    exists st'. split; [exact E'|congruence].
Qed.

(** ** Files that construction accepts *)

Lemma dict_keys_box (M : dict str) : dict_keys (map box M) = dict_keys M.
Proof. unfold dict_keys. rewrite map_map. reflexivity. Qed.

Lemma nodup_map_inv {A B} (f : A -> B) (l : list A) :
  NoDup (map f l) -> NoDup l.
Proof.
  induction l as [|x l IH]; cbn [map]; intros N; [constructor|].
  inversion N as [|? ? Hx N']. subst. constructor; [|auto].
  intros H. apply Hx. now apply in_map.
Qed.

Lemma read_string_valid (pc : bool) (content : str) :
  valid_lines pc (processed_lines_of content) ->
  exists raw, read_string pc (preprocess_file content) = Ok raw.
Proof.
  intros V. set (ls := processed_lines_of content) in *.
  pose proof (processed_lines_clean content) as C. fold ls in C.
  destruct (read_clean_lines_total pc ls C [] read_state_init 1
              (read_inv_init pc)) as [st [E Ee]].
  - split; [intros k []|intros s d k []].
  - intros s k [].
  - unfold no_duplicates_after, sections_after, defaults_after.
    cbn [read_state_init rs_sections rs_defaults rs_sectname map app].
    split; [|split].
    + unfold dict_keys. rewrite map_map. cbn [new_section fst].
      rewrite map_id. exact (nodup_map_inv _ _ (vl_names _ _ V)).
    + intros s d H. apply in_map_iff in H as [s0 [H Hs]].
      unfold new_section in H. injection H as <- <-.
      rewrite dict_keys_box. apply (vl_keys _ _ V). right.
      now apply filter_In in Hs as [Hs _].
    + rewrite dict_keys_box. apply (vl_keys _ _ V). now left.
  - exact (vl_lines _ _ V).
  - intros _. exact (vl_start _ _ V).
  - rewrite read_string_preprocessed. fold ls. rewrite E. cbn [bind].
    rewrite Ee. cbn [read_state_init rs_e]. eauto.
Qed.

(** X10: construction accepts every valid file.  When the file holds no
    percent sign and its preprocessed text starts with a section
    header, has no line other than headers and assignments with a key,
    has headers with ordinary normalized names that differ, and sets no
    key twice under one header (nor under the [DEFAULT] headers taken
    together), construction succeeds, and [get_config] returns the
    configuration that the lines write down. *)
Theorem valid_file_is_loaded
  (fs : filesystem) (path content : str) (pc : bool) :
  fs path = TextFile content ->
  has_char PERCENT content = false ->
  valid_lines pc (processed_lines_of content) ->
  exists h,
    ConfigHandler_init fs path pc = Ok h
    /\ get_config h = Ok (file_config pc (processed_lines_of content))
    /\ list_profiles h
       = dict_keys (file_config pc (processed_lines_of content)).
Proof.
  intros Hfs Hc V.
  destruct (read_string_valid pc content V) as [raw Hr].
  pose proof (read_string_inv pc content raw Hr) as R.
  assert (N : NoDup (map (clean_section_name pc) (sections raw))).
  { rewrite (rw_sections _ _ _ R). exact (vl_names _ _ V). }
  exact (init_get_config fs path content pc raw Hfs Hr Hc
           (vl_ordinary _ _ V) N).
Qed.

Lemma valid_file_is_loaded_witness :
  exists h,
    ConfigHandler_init (single_file "config.ini" fixture) "config.ini" true
    = Ok h
    /\ get_config h = Ok (file_config true (processed_lines_of fixture))
    /\ list_profiles h
       = dict_keys (file_config true (processed_lines_of fixture)).
Proof.
  apply (valid_file_is_loaded (single_file "config.ini" fixture)
           "config.ini" fixture true).
  - reflexivity.
  - reflexivity.
  - constructor.
    + reflexivity.
    + reflexivity.
    + vm_compute. repeat (constructor; [cbn; intuition discriminate|]).
      constructor.
    + intros s Hs Hd. vm_compute in Hs.
      destruct Hs as [<-|[<-|[<-|[]]]]; split; discriminate.
    + intros s Hs. vm_compute in Hs.
      destruct Hs as [->|[<-|[<-|[<-|[]]]]]; vm_compute;
        repeat (constructor; [cbn; intuition discriminate|]); constructor.
Defined.

(** X11: construction accepts no other file.  The preprocessed text of
    a file from which a handler was constructed starts with a section
    header (or is empty), has no line other than headers and
    assignments with a key, has headers other than [DEFAULT] whose
    normalized names differ, and sets no key twice under one header. *)
Theorem loaded_file_is_valid
  (fs : filesystem) (path content : str) (pc : bool) (h : ConfigHandler) :
  fs path = TextFile content ->
  ConfigHandler_init fs path pc = Ok h ->
  starts_with_header (processed_lines_of content) = true
  /\ existsb malformed_line (processed_lines_of content) = false
  /\ NoDup (map (clean_section_name pc)
              (filter (fun n => negb (is_default n))
                 (header_names (processed_lines_of content))))
  /\ forall s,
      s = default_section \/ In s (header_names (processed_lines_of content)) ->
      NoDup (dict_keys (section_entries pc s (processed_lines_of content))).
Proof.
  intros Hfs H.
  destruct (init_ok _ _ _ _ H) as [content' [raw [seen [Hfs' [Hr [R [C _]]]]]]].
  rewrite Hfs in Hfs'. injection Hfs' as <-.
  set (ls := processed_lines_of content) in *.
  destruct (read_string_exact pc content raw Hr) as [D S]. fold ls in D, S.
  split; [|split; [|split]].
  - destruct ls as [|l r] eqn:El; [reflexivity|]. cbn [starts_with_header].
    destruct (SECTCRE l) eqn:Es; [reflexivity|]. exfalso.
    rewrite read_string_preprocessed in Hr. fold ls in Hr. rewrite El in Hr.
    cbn [read_clean_lines] in Hr. unfold read_clean in Hr.
    rewrite Es in Hr. discriminate.
  - destruct (existsb malformed_line ls) eqn:Em; [|reflexivity]. exfalso.
    apply existsb_exists in Em as [l [Hl Hm]].
    destruct (read_string_malformed pc content l Hl Hm) as [ce F].
    congruence.
  - rewrite <- (rw_sections _ _ _ R). exact (ci_nodup _ _ _ _ C).
  - intros s [->|Hs].
    + rewrite <- D. apply R.
    + destruct (str_eqb s default_section) eqn:Ed.
      * apply str_eqb_eq in Ed. subst s. rewrite <- D. apply R.
      * apply (pi_keys_sections _ _ _ (rw_pairs _ _ _ R) s).
        rewrite S. apply in_map_iff. exists s. split; [reflexivity|].
        apply filter_In. split; [exact Hs|]. unfold is_default.
        now rewrite Ed.
Qed.

Lemma loaded_file_is_valid_witness :
  starts_with_header (processed_lines_of fixture) = true
  /\ existsb malformed_line (processed_lines_of fixture) = false
  /\ NoDup (map (clean_section_name false)
              (filter (fun n => negb (is_default n))
                 (header_names (processed_lines_of fixture))))
  /\ forall s,
      s = default_section \/ In s (header_names (processed_lines_of fixture)) ->
      NoDup (dict_keys (section_entries false s (processed_lines_of fixture))).
Proof.
  apply (loaded_file_is_valid (single_file "config.ini" fixture)
           "config.ini" fixture false (fixture_handler false)).
  - reflexivity.
  - vm_compute. reflexivity.
Defined.

(** ** Keys of the default section *)

Lemma dict_get_update {V} (E D : dict V) (k : str) :
  NoDup (dict_keys E) ->
  dict_get (dict_update D E) k
  = match dict_get E k with
    | Some x => Some x
    | None => dict_get D k
    end.
Proof.
  unfold dict_update. revert D.
  induction E as [|[k0 v0] E IH]; intros D N; cbn [fold_left dict_get fst snd];
    [reflexivity|].
  inversion N as [|? ? Hk N']. subst. rewrite IH by exact N'.
  destruct (str_eqb k0 k) eqn:Ek.
  - apply str_eqb_eq in Ek. subst k0.
    assert (G : dict_get E k = None).
    { apply dict_get_none, dict_mem_false. exact Hk. }
    rewrite G. apply dict_get_set_same.
  - destruct (dict_get E k); [reflexivity|].
    apply dict_get_set_other. intros ->. now rewrite str_eqb_refl in Ek.
Qed.

(** X12: the pairs under [DEFAULT] are inherited.  For a handler
    constructed from a file without percent signs and with ordinary
    header names, every key that an assignment line sets under a
    [DEFAULT] header is a key of every profile of [get_config]; its
    value there is the one the profile's own lines give it, and the
    value of the [DEFAULT] line when they give none. *)
Theorem default_entries_are_inherited
  (fs : filesystem) (path content : str) (pc : bool) (h : ConfigHandler)
  (cfg : dict (dict str)) (n : str) (M : dict str) (k v : str) :
  fs path = TextFile content ->
  ConfigHandler_init fs path pc = Ok h ->
  has_char PERCENT content = false ->
  ordinary_names pc (processed_lines_of content) ->
  get_config h = Ok cfg ->
  In (n, M) cfg ->
  In (k, v) (section_entries pc default_section (processed_lines_of content)) ->
  exists s,
    In s (header_names (processed_lines_of content))
    /\ n = clean_section_name pc s
    /\ dict_get M k
       = Some match dict_get
                      (section_entries pc s (processed_lines_of content)) k
              with
              | Some v' => v'
              | None => v
              end.
Proof.
  intros Hfs H Hc Hn Hcfg Hin Hk.
  destruct (init_ok _ _ _ _ H) as [content' [raw [seen [Hfs' [Hr [R [C _]]]]]]].
  rewrite Hfs in Hfs'. injection Hfs' as <-.
  destruct (init_get_config fs path content pc raw Hfs Hr Hc Hn
              (ci_nodup _ _ _ _ C)) as [h' [E [G _]]].
  rewrite H in E. injection E as <-. rewrite Hcfg in G. injection G as ->.
  destruct (read_string_exact pc content raw Hr) as [D S].
  unfold file_config in Hin. apply in_map_iff in Hin as [s [E Hs]].
  injection E as <- <-. exists s.
  assert (Hs' : In s (sections raw)) by now rewrite (rw_sections _ _ _ R).
  apply filter_In in Hs as [Hs _]. split; [exact Hs|].
  split; [reflexivity|].
  rewrite dict_get_update.
  - destruct (dict_get (section_entries pc s (processed_lines_of content)) k);
      [reflexivity|].
    apply in_dict_get; [|exact Hk]. rewrite <- D. apply R.
  - apply (pi_keys_sections _ _ _ (rw_pairs _ _ _ R) s).
    rewrite S. apply in_map_iff. exists s. split; [reflexivity|].
    now rewrite <- (rw_sections _ _ _ R).
Qed.

Lemma default_entries_are_inherited_witness :
  exists s,
    In s (header_names
            (processed_lines_of
               (text_of ["[DEFAULT]"; "region = eu"; "Key = d"; "[Prod]";
                         "key = 1 # one"; "[Test]"])))
    /\ ("test" : str) = clean_section_name false s
    /\ dict_get [("region" : str, "eu" : str); ("key" : str, "d" : str)] "key"
       = Some match dict_get
                      (section_entries false s
                         (processed_lines_of
                            (text_of ["[DEFAULT]"; "region = eu"; "Key = d";
                                      "[Prod]"; "key = 1 # one"; "[Test]"])))
                      "key"
              with
              | Some v' => v'
              | None => "d" : str
              end.
Proof.
  apply (default_entries_are_inherited
           (single_file "config.ini"
              (text_of ["[DEFAULT]"; "region = eu"; "Key = d"; "[Prod]";
                        "key = 1 # one"; "[Test]"]))
           "config.ini"
           (text_of ["[DEFAULT]"; "region = eu"; "Key = d"; "[Prod]";
                     "key = 1 # one"; "[Test]"])
           false
           (handler_of
              (ConfigHandler_init
                 (single_file "config.ini"
                    (text_of ["[DEFAULT]"; "region = eu"; "Key = d"; "[Prod]";
                              "key = 1 # one"; "[Test]"]))
                 "config.ini" false))
           [("prod" : str,
             [("region" : str, "eu" : str); ("key" : str, "1" : str)]);
            ("test" : str,
             [("region" : str, "eu" : str); ("key" : str, "d" : str)])]).
  - reflexivity.
  - vm_compute. reflexivity.
  - reflexivity.
  - intros s Hs Hd. vm_compute in Hs.
    destruct Hs as [<-|[<-|[<-|[]]]]; split; discriminate.
  - vm_compute. reflexivity.
  - right. left. reflexivity.
  - vm_compute. right. left. reflexivity.
Defined.

(** ** Percent signs *)

Lemma set_option_ok (p p' : parser) (n k v : str) :
  set_option p n k v = Ok p' ->
  p_interpolation p' = p_interpolation p
  /\ (p_interpolation p = BasicInterpolation -> invalid_percent v = false).
Proof.
  unfold set_option.
  assert (B : forall v',
             (if nonempty v then before_set p v else Ok v) = Ok v' ->
             p_interpolation p = BasicInterpolation ->
             invalid_percent v = false).
  { intros v'. destruct v as [|c v0]; [reflexivity|]. cbn [nonempty].
    unfold before_set, invalid_percent. intros E Hi. rewrite Hi in E.
    destruct (has_char PERCENT _); [discriminate|reflexivity]. }
  destruct (if nonempty v then before_set p v else Ok v) as [v'|] eqn:E;
    cbn [bind]; [|discriminate].
  specialize (B v' eq_refl).
  destruct (negb (nonempty n) || str_eqb n default_section).
  - intros H. injection H as <-. now split.
  - destruct (dict_get (_sections p) n); [|discriminate].
    intros H. injection H as <-. now split.
Qed.

Lemma clean_option_loop_ok (n : str) :
  forall pairs ks p ks' p',
    for_each (clean_option n) pairs (ks, p) = Ok (ks', p') ->
    p_interpolation p = BasicInterpolation ->
    p_interpolation p' = BasicInterpolation
    /\ forall k v, In (k, v) pairs -> invalid_percent (strip v) = false.
Proof.
  induction pairs as [|[k v] pairs IH]; intros ks p ks' p'; cbn [for_each].
  - intros H Hi. injection H as <- <-. split; [exact Hi|intros k v []].
  - unfold clean_option at 1. cbn [fst snd].
    destruct (set_mem (strip k) ks); [discriminate|].
    destruct (set_option p n (strip k) (strip v)) as [p1|] eqn:E;
      cbn [bind]; [|discriminate].
    intros H Hi. destruct (set_option_ok _ _ _ _ _ E) as [A B].
    destruct (IH _ _ _ _ H) as [C D]; [congruence|].
    split; [exact C|]. intros k0 v0 [Hin|Hin]; [|eauto].
    injection Hin as <- <-. auto.
Qed.

Lemma clean_section_loop_ok (pc : bool) (raw : parser) :
  forall todo state state',
    for_each (clean_section pc raw) todo state = Ok state' ->
    p_interpolation (snd state) = BasicInterpolation ->
    forall s d k v,
      In s todo -> items raw s = Ok d -> In (k, v) d ->
      invalid_percent (strip v) = false.
Proof.
  induction todo as [|x todo IH]; intros [seen p] state'; cbn [for_each];
    [intros _ _ s d k v []|].
  unfold clean_section at 1.
  destruct (set_mem (clean_section_name pc x) seen); [discriminate|].
  destruct (if negb (contains p (clean_section_name pc x))
            then add_section p (clean_section_name pc x)
            else Ok p) as [p1|] eqn:Ea; cbn [bind]; [|discriminate].
  destruct (items raw x) as [pairs|] eqn:Ei; cbn [bind]; [|discriminate].
  destruct (for_each (clean_option (clean_section_name pc x)) pairs ([], p1))
    as [[ks p2]|] eqn:El; cbn [bind snd]; [|discriminate].
  intros H Hi.
  assert (Hi1 : p_interpolation p1 = BasicInterpolation).
  { destruct (negb (contains p (clean_section_name pc x))).
    - unfold add_section in Ea.
      destruct (str_eqb _ _); [discriminate|].
      destruct (dict_mem _ _); [discriminate|]. now injection Ea as <-.
    - now injection Ea as <-. }
  destruct (clean_option_loop_ok _ _ _ _ _ _ El Hi1) as [Hi2 Hv].
  intros s d k v [<-|Hs] Hd Hk.
  - rewrite Ei in Hd. injection Hd as <-. eauto.
  - exact (IH _ _ H Hi2 s d k v Hs Hd Hk).
Qed.

Lemma file_items_trimmed (pc : bool) (ls : list str) (s k v : str) :
  Forall clean_line ls -> In (k, v) (file_items pc ls s) -> strip v = v.
Proof.
  intros C H. unfold file_items in H.
  apply dict_update_in in H as [H|H];
    exact (entries_from_trimmed pc _ _ ls C k v H).
Qed.

(** X13: a percent sign that is neither doubled nor the start of a
    reference [%(name)s] makes the file unloadable.  When the
    configuration that the preprocessed lines write down holds such a
    value in one of its profiles, construction fails with a
    [ValueError]; in a text that is valid otherwise, it is the parser's
    invalid interpolation error for a value with a percent sign. *)
Theorem invalid_percent_fails
  (fs : filesystem) (path content : str) (pc : bool)
  (n : str) (M : dict str) (k v : str) :
  fs path = TextFile content ->
  In (n, M) (file_config pc (processed_lines_of content)) ->
  In (k, v) M ->
  invalid_percent v = true ->
  (exists m, ConfigHandler_init fs path pc = Raise (ValueError m))
  /\ (valid_lines pc (processed_lines_of content) ->
      exists v' i,
        has_char PERCENT v' = true
        /\ ConfigHandler_init fs path pc
           = Raise (ValueError (invalid_interpolation_message v' i))).
Proof.
  intros Hfs Hin Hk Hv.
  pose proof (processed_lines_clean content) as Cl.
  assert (Hloop : forall raw,
             read_string pc (preprocess_file content) = Ok raw ->
             exists m,
               for_each (clean_section pc raw) (sections raw)
                 ([], ConfigParser pc) = Raise (ValueError m)
               /\ (NoDup (map (clean_section_name pc) (sections raw)) ->
                   exists v' i,
                     has_char PERCENT v' = true
                     /\ m = invalid_interpolation_message v' i)).
  { intros raw Hr.
    pose proof (read_string_inv pc content raw Hr) as R.
    pose proof (clean_loop pc _ raw Cl R (sections raw) [] _
                  (clean_inv_init pc _) (fun s H => H)) as L.
    destruct (for_each (clean_section pc raw) (sections raw)
                ([], ConfigParser pc)) as [state|e] eqn:El.
    - exfalso. unfold file_config in Hin.
      apply in_map_iff in Hin as [s [E Hs]]. injection E as _ <-.
      rewrite <- (rw_sections _ _ _ R) in Hs.
      destruct (raw_items pc content raw s Hr Hs) as [Hi _].
      pose proof (clean_section_loop_ok pc raw _ _ _ El eq_refl
                    s _ k v Hs Hi Hk) as F.
      rewrite (file_items_trimmed pc _ s k v Cl Hk) in F. congruence.
    - destruct L as [m [-> L]]. exists m. split; [reflexivity|].
      intros N. cbn [app] in L.
      destruct L as [[a [s [b [Es [_ [Hd _]]]]]]|[k' [v' [i [_ [Hp ->]]]]]].
      + exfalso. rewrite Es, map_app in N. cbn [map] in N.
        apply NoDup_remove_2 in N. apply N. apply in_or_app. now left.
      + eauto. }
  split.
  - unfold ConfigHandler_init, load_config, load_config_try. rewrite Hfs.
    destruct (read_string pc (preprocess_file content)) as [raw|e] eqn:Er.
    + destruct (Hloop raw eq_refl) as [m [E _]]. cbn [bind]. rewrite E.
      eexists. reflexivity.
    + destruct (read_string_raises pc content e Er) as [ce ->].
      eexists. reflexivity.
  - intros V. destruct (read_string_valid pc content V) as [raw Hr].
    destruct (Hloop raw Hr) as [m [E G]].
    destruct G as [v' [i [Hp ->]]].
    { rewrite (rw_sections _ _ _ (read_string_inv pc content raw Hr)).
      exact (vl_names _ _ V). }
    exists v', i. split; [exact Hp|].
    unfold ConfigHandler_init, load_config, load_config_try.
    rewrite Hfs, Hr. cbn [bind]. rewrite E. reflexivity.
Qed.

Lemma invalid_percent_fails_witness :
  (exists m,
      ConfigHandler_init
        (single_file "config.ini" (text_of ["[a]"; "load = 50%"]))
        "config.ini" false
      = Raise (ValueError m))
  /\ (valid_lines false
        (processed_lines_of (text_of ["[a]"; "load = 50%"])) ->
      exists v' i,
        has_char PERCENT v' = true
        /\ ConfigHandler_init
             (single_file "config.ini" (text_of ["[a]"; "load = 50%"]))
             "config.ini" false
           = Raise (ValueError (invalid_interpolation_message v' i))).
Proof.
  apply (invalid_percent_fails
           (single_file "config.ini" (text_of ["[a]"; "load = 50%"]))
           "config.ini" (text_of ["[a]"; "load = 50%"]) false
           "a" [("load" : str, "50%" : str)] "load" "50%").
  - reflexivity.
  - left. reflexivity.
  - left. reflexivity.
  - reflexivity.
Defined.

(** ** Doubled percent signs *)





(** ** Loading what [display_config] would write *)

(** X15: a configuration is what a handler reads from its own text.
    For a configuration whose profile names are distinct, non-empty,
    not [DEFAULT], normalized and free of line ends and comment
    characters, and whose pairs have distinct, non-empty, normalized
    keys without delimiter and values without percent sign, all trimmed
    and free of line ends and comment characters, with no pair whose
    line would read as a header: constructing a handler from the text
    that [display_config] writes for it succeeds, [list_profiles] and
    [get_config] give the configuration back, and [display_config]
    gives the text back. *)
Theorem rendered_config_is_loaded
  (fs : filesystem) (path : str) (pc : bool) (G : dict (dict str)) :
  config_wf pc G ->
  fs path = TextFile (strip (join [NL] (render_config G))) ->
  exists h,
    ConfigHandler_init fs path pc = Ok h
    /\ list_profiles h = dict_keys G
    /\ get_config h = Ok G
    /\ display_config h = Ok (strip (join [NL] (render_config G))).
Proof.
  intros W Hfs.
  exists (mkConfigHandler path pc (parser_of pc BasicInterpolation G)).
  split; [apply (init_display fs path pc G W Hfs)|].
  split; [reflexivity|]. split; [now apply get_config_parser_of|].
  apply display_config_of; [reflexivity|].
  intros n M Hin.
  apply (get_config_in
           (mkConfigHandler path pc (parser_of pc BasicInterpolation G)) G);
    [now apply get_config_parser_of|exact Hin].
Qed.

Lemma rendered_config_is_loaded_witness :
  exists h,
    ConfigHandler_init
      (single_file "config.ini"
         (strip (join [NL]
                   (render_config
                      [("dev" : str,
                        [("host" : str, "localhost" : str);
                         ("port" : str, "" : str)]);
                       ("prod" : str, [("host" : str, "a = b" : str)])]))))
      "config.ini" false = Ok h
    /\ list_profiles h
       = dict_keys
           [("dev" : str,
             [("host" : str, "localhost" : str); ("port" : str, "" : str)]);
            ("prod" : str, [("host" : str, "a = b" : str)])]
    /\ get_config h
       = Ok [("dev" : str,
              [("host" : str, "localhost" : str); ("port" : str, "" : str)]);
             ("prod" : str, [("host" : str, "a = b" : str)])]
    /\ display_config h
       = Ok (strip (join [NL]
                      (render_config
                         [("dev" : str,
                           [("host" : str, "localhost" : str);
                            ("port" : str, "" : str)]);
                          ("prod" : str, [("host" : str, "a = b" : str)])]))).
Proof.
  apply (rendered_config_is_loaded
           (single_file "config.ini"
              (strip (join [NL]
                        (render_config
                           [("dev" : str,
                             [("host" : str, "localhost" : str);
                              ("port" : str, "" : str)]);
                            ("prod" : str, [("host" : str, "a = b" : str)])]))))
           "config.ini" false).
  - constructor.
    + vm_compute. repeat (constructor; [cbn; intuition discriminate|]).
      constructor.
    + intros n M [H|[H|[]]]; injection H as <- <-;
        (constructor; [discriminate|discriminate|reflexivity..]).
    + intros n M [H|[H|[]]]; injection H as <- <-; vm_compute;
        repeat (constructor; [cbn; intuition discriminate|]); constructor.
    + intros n M k v [H|[H|[]]]; injection H as <- <-;
        cbn [In]; intros Hk;
        repeat (destruct Hk as [Hk|Hk]; [injection Hk as <- <-|]);
        try (destruct Hk);
        (constructor; [discriminate|reflexivity..]).
  - reflexivity.
Defined.

(** ** The shape of the keys and values returned *)

(** X16: what [get_config] returns is clean.  On a handler constructed
    from a file without percent signs, every key of every profile is
    non-empty, trimmed, under the case mode and free of [=] and [:];
    every value is trimmed; neither holds a line end or a comment
    character; and no profile has a key twice. *)
Theorem returned_pairs_are_clean
  (fs : filesystem) (path content : str) (pc : bool) (h : ConfigHandler)
  (cfg : dict (dict str)) (section : str) (pairs : dict str) (k v : str) :
  fs path = TextFile content ->
  ConfigHandler_init fs path pc = Ok h ->
  has_char PERCENT content = false ->
  get_config h = Ok cfg ->
  In (section, pairs) cfg -> In (k, v) pairs ->
  k <> [] /\ strip k = k /\ optionxform pc k = k /\ strip v = v
  /\ (forall c, In c k \/ In c v ->
                c <> NL /\ c <> CR /\ is_comment_char c = false)
  /\ (forall c, In c k -> is_delim c = false)
  /\ NoDup (dict_keys pairs).
Proof.
  intros Hfs H Hp Hcfg Hs Hk.
  pose proof (get_config_in h cfg section pairs Hcfg Hs) as Hi.
  assert (Hc : contains (config h) section = true).
  { unfold contains.
    destruct (str_eqb section default_section) eqn:Ed; [reflexivity|].
    simpl. unfold items, unify_values in Hi. unfold has_section, dict_mem.
    destruct (dict_get (_sections (config h)) section); [reflexivity|].
    rewrite Ed in Hi. discriminate. }
  destruct (constructed_unify fs path pc h section H Hc)
    as [m [Hu [N [_ Hpairs]]]].
  destruct (init_ok _ _ _ _ H)
    as [content' [raw [seen [Hfs' [_ [_ [C _]]]]]]].
  rewrite Hfs in Hfs'. injection Hfs' as <-.
  pose proof (ci_pairs _ _ _ _ C) as P. cbn [snd] in P.
  assert (Em : items (config h) section = Ok m).
  { apply items_plain; [exact Hu|exact N|].
    intros k0 v0 H0. apply (no_percent_pairs pc content (config h) k0 v0 Hp P).
    now apply Hpairs. }
  rewrite Em in Hi. injection Hi as <-.
  pose proof (constructed_entry_wf pc content (config h) k v Hp P
                (Hpairs k v Hk)) as W.
  split; [apply W|]. split; [apply W|]. split; [apply W|].
  split; [apply W|]. split; [|split; [|exact N]].
  - intros c Hc'.
    assert (T : text_char c = true).
    { destruct Hc' as [Hc'|Hc'].
      - pose proof (ew_key_text _ _ _ W) as T.
        eapply forallb_forall in T; [exact T|exact Hc'].
      - pose proof (ew_value_text _ _ _ W) as T.
        eapply forallb_forall in T; [exact T|exact Hc']. }
    unfold text_char in T. apply andb_true_iff in T as [T T3].
    apply andb_true_iff in T as [T1 T2].
    split; [|split].
    + intros ->. unfold NL in T1. discriminate.
    + intros ->. unfold CR in T2. discriminate.
    + now destruct (is_comment_char c).
  - intros c Hc'. pose proof (ew_key_no_delim _ _ _ W) as T.
    eapply forallb_forall in T; [|exact Hc'].
    now destruct (is_delim c).
Qed.

Lemma returned_pairs_are_clean_witness :
  ("keya" : str) <> [] /\ strip "keya" = "keya"
  /\ optionxform false "keya" = "keya" /\ strip "valueA" = "valueA"
  /\ (forall c, In c ("keya" : str) \/ In c ("valueA" : str) ->
                c <> NL /\ c <> CR /\ is_comment_char c = false)
  /\ (forall c, In c ("keya" : str) -> is_delim c = false)
  /\ NoDup (dict_keys
              [("keya" : str, "valueA" : str); ("keyb" : str, "valueB" : str)]).
Proof.
  apply (returned_pairs_are_clean
           (single_file "config.ini" fixture) "config.ini" fixture false
           (fixture_handler false)
           [("profile1" : str,
             [("key1" : str, "value1" : str); ("key2" : str, "value2" : str)]);
            ("profile2" : str,
             [("keya" : str, "valueA" : str); ("keyb" : str, "valueB" : str)]);
            ("profile3" : str,
             [("keyx" : str, "valueX" : str); ("keyy" : str, "valueY" : str)])]
           "profile2").
  - reflexivity.
  - vm_compute. reflexivity.
  - reflexivity.
  - reflexivity.
  - right. left. reflexivity.
  - left. reflexivity.
Defined.

(** ** The accessors on a file without percent signs *)

Lemma constructed_items (fs : filesystem) (path content : str) (pc : bool)
  (h : ConfigHandler) (p : str) :
  fs path = TextFile content ->
  ConfigHandler_init fs path pc = Ok h ->
  has_char PERCENT content = false ->
  contains (config h) p = true ->
  exists m,
    unify_values (config h) p = Ok m
    /\ items (config h) p = Ok m
    /\ (forall k, has_option (config h) p k = dict_mem m (optionxform pc k))
    /\ (forall k v, In (k, v) m -> has_char PERCENT v = false).
Proof.
  intros Hfs H Hp Hc.
  destruct (constructed_unify fs path pc h p H Hc) as [m [Hu [N [Ho Hpairs]]]].
  destruct (init_ok _ _ _ _ H)
    as [content' [raw [seen [Hfs' [_ [_ [C _]]]]]]].
  rewrite Hfs in Hfs'. injection Hfs' as <-.
  pose proof (ci_pairs _ _ _ _ C) as P. cbn [snd] in P.
  assert (Hv : forall k v, In (k, v) m -> has_char PERCENT v = false).
  { intros k v Hin. apply (no_percent_pairs pc content (config h) k v Hp P).
    now apply Hpairs. }
  exists m. split; [exact Hu|]. split; [|split; [exact Ho|exact Hv]].
  now apply items_plain.
Qed.

Lemma for_each_total {S X} (body : S -> X -> result S) (xs : list X) :
  (forall s x, In x xs -> exists s', body s x = Ok s') ->
  forall s, exists s', for_each body xs s = Ok s'.
Proof.
  induction xs as [|x xs IH]; intros Hb s; cbn [for_each]; [eauto|].
  destruct (Hb s x (or_introl eq_refl)) as [s1 E]. rewrite E. cbn [bind].
  apply IH. intros s0 x0 Hin. apply Hb. now right.
Qed.

(** X17: without percent signs the accessors do not fail unexpectedly.
    On a handler constructed from a file without percent signs,
    [get_config] and [display_config] return; [get_profile] returns
    for every listed profile and for [DEFAULT]; and [get_value] either
    returns or fails with a [KeyError]: no error of the parser's
    interpolation is raised by any of them. *)
Theorem accessors_total_without_percent
  (fs : filesystem) (path content : str) (pc : bool) (h : ConfigHandler) :
  fs path = TextFile content ->
  ConfigHandler_init fs path pc = Ok h ->
  has_char PERCENT content = false ->
  (exists cfg, get_config h = Ok cfg)
  /\ (exists text, display_config h = Ok text)
  /\ (forall profile_name,
         In (strip profile_name) (list_profiles h)
         \/ strip profile_name = default_section ->
         exists d, get_profile h profile_name = Ok d)
  /\ (forall profile_name key_name,
         (exists v, get_value h profile_name key_name = Ok v)
         \/ exists m,
             get_value h profile_name key_name = Raise (KeyError m)).
Proof.
  intros Hfs H Hp.
  assert (Hitems : forall n, In n (sections (config h)) ->
                             exists m, items (config h) n = Ok m).
  { intros n Hn.
    destruct (constructed_items fs path content pc h n Hfs H Hp)
      as [m [_ [Hi _]]]; [|eauto].
    apply contains_present. now left. }
  split; [|split; [|split]].
  - unfold get_config. apply for_each_total. intros s x Hx.
    destruct (Hitems x Hx) as [m Hm]. rewrite Hm. cbn [bind]. eauto.
  - unfold display_config.
    destruct (for_each_total (display_section (config h))
                (sections (config h))) with (s := @nil str) as [cs E].
    + intros s x Hx. unfold display_section.
      destruct (Hitems x Hx) as [m Hm]. rewrite Hm. cbn [bind]. eauto.
    + rewrite E. cbn [bind]. eauto.
  - intros p Hin. apply contains_present in Hin.
    destruct (constructed_items fs path content pc h _ Hfs H Hp Hin)
      as [m [_ [Hi _]]].
    exists m. unfold get_profile. now rewrite Hin.
  - intros p k. unfold get_value.
    destruct (contains (config h) (strip p)) eqn:Ec; [|right; eauto].
    destruct (has_option (config h) (strip p) (strip k)) eqn:Eh;
      [|right; eauto].
    left. unfold proxy_getitem. rewrite Eh.
    destruct (constructed_items fs path content pc h _ Hfs H Hp Ec)
      as [m [Hu [_ [Ho Hv]]]].
    rewrite Ho in Eh. unfold dict_mem in Eh.
    destruct (dict_get m (optionxform pc (strip k))) as [raw|] eqn:Eg;
      [|discriminate].
    exists raw. unfold get. rewrite Hu. cbn [bind].
    rewrite (constructed_case _ _ _ _ H), Eg.
    apply before_get_plain. apply (Hv (optionxform pc (strip k))).
    now apply dict_get_in.
Qed.

Lemma accessors_total_without_percent_witness :
  (exists cfg, get_config (fixture_handler true) = Ok cfg)
  /\ (exists text, display_config (fixture_handler true) = Ok text)
  /\ (forall profile_name,
         In (strip profile_name) (list_profiles (fixture_handler true))
         \/ strip profile_name = default_section ->
         exists d, get_profile (fixture_handler true) profile_name = Ok d)
  /\ (forall profile_name key_name,
         (exists v,
             get_value (fixture_handler true) profile_name key_name = Ok v)
         \/ exists m,
             get_value (fixture_handler true) profile_name key_name
             = Raise (KeyError m)).
Proof.
  apply (accessors_total_without_percent
           (single_file "config.ini" fixture) "config.ini" fixture true).
  - reflexivity.
  - vm_compute. reflexivity.
  - reflexivity.
Defined.

(** * Construction on any path and the default section *)

(** ** Construction on any path *)

(** X1: construction fails in five ways only.  When nothing exists at
    the path it is the [FileNotFoundError] that names the path.  When
    something exists that [open] or [readlines] fails on (a directory,
    a file without read permission, bytes that are no UTF-8), it is the
    exception they raise, passed on as it is.  On a text it is a
    [ValueError]: the parse error that wraps the message of the error
    the parser raised on the preprocessed text; or the duplicate
    profile error for the normalized name of a section of the parser;
    or the parser's invalid interpolation error for a value of the file
    that holds a percent sign.  No [KeyError] and no error of
    [configparser] leaves the constructor. *)
Theorem construction_failure_kinds
  (fs : filesystem) (path : str) (pc : bool) :
  (fs path = NoSuchPath ->
   ConfigHandler_init fs path pc
   = Raise (FileNotFoundError
              ("Config file '" ++ path ++ "' does not exist.")))
  /\ (forall class_name msg,
         fs path = Unreadable class_name msg ->
         ConfigHandler_init fs path pc
         = Raise (ReadError class_name msg))
  /\ forall e,
      ConfigHandler_init fs path pc = Raise e ->
      (fs path = NoSuchPath
       /\ e = FileNotFoundError
                ("Config file '" ++ path ++ "' does not exist."))
      \/ (exists class_name msg,
             fs path = Unreadable class_name msg
             /\ e = ReadError class_name msg)
      \/ exists content,
          fs path = TextFile content
          /\ ((exists ce,
                  read_string pc (preprocess_file content)
                  = Raise (ConfigParserError ce)
                  /\ e = ValueError (parse_error_message ce))
              \/ exists raw,
                  read_string pc (preprocess_file content) = Ok raw
                  /\ ((exists s,
                          In s (sections raw)
                          /\ e = ValueError
                                   (duplicate_profile_message
                                      (clean_section_name pc s)))
                      \/ exists k v i,
                          parser_pairs raw k v
                          /\ has_char PERCENT v = true
                          /\ e = ValueError
                                   (invalid_interpolation_message v i))).
Proof.
  split; [|split].
  - intros E. unfold ConfigHandler_init, load_config. now rewrite E.
  - intros c m E. unfold ConfigHandler_init, load_config. now rewrite E.
  - intros e H. destruct (fs path) as [|c m|content] eqn:E.
    + left. split; [reflexivity|].
      unfold ConfigHandler_init, load_config in H. rewrite E in H.
      cbn [bind] in H. now injection H as <-.
    + right. left. exists c, m. split; [reflexivity|].
      unfold ConfigHandler_init, load_config in H. rewrite E in H.
      cbn [bind] in H. now injection H as <-.
    + right. right. exists content. split; [reflexivity|].
      exact (load_failure_kinds fs path content pc e E H).
Qed.

Lemma construction_failure_kinds_witness :
  ConfigHandler_init example_paths "missing.ini" false
  = Raise (FileNotFoundError "Config file 'missing.ini' does not exist.")
  /\ ConfigHandler_init example_paths "a_directory" false
     = Raise (ReadError "IsADirectoryError"
                "[Errno 21] Is a directory: 'a_directory'").
Proof.
  split.
  - destruct (construction_failure_kinds example_paths "missing.ini" false)
      as [A _].
    apply A. reflexivity.
  - destruct (construction_failure_kinds example_paths "a_directory" false)
      as [_ [A _]].
    apply A. reflexivity.
Defined.

(** ** The default section of a constructed handler *)

Lemma interpolate_loop_fails (deeper : str -> str -> result str) (pc : bool)
  (o s rv : str) (m : dict str) :
  (forall v acc e, deeper v acc = Raise e -> is_interpolation_error e) ->
  forall rest skip accum e,
    interpolate_loop deeper pc o s rv m skip rest accum = Raise e ->
    is_interpolation_error e.
Proof.
  intros Hd. induction rest as [|c r IH]; intros skip accum e;
    [discriminate|].
  cbn [interpolate_loop]. destruct skip as [|k]; [|apply IH].
  destruct (negb (Ascii.eqb c PERCENT)); [apply IH|].
  destruct r as [|c' r'].
  { intros H. injection H as <-. exact I. }
  destruct (Ascii.eqb c' PERCENT); [apply IH|].
  destruct (Ascii.eqb c' "("%char).
  2:{ intros H. injection H as <-. exact I. }
  destruct (KEYCRE_match (c :: c' :: r')) as [[name m_end]|].
  2:{ intros H. injection H as <-. exact I. }
  destruct (dict_get m (optionxform pc name)) as [v|].
  2:{ intros H. injection H as <-. exact I. }
  destruct (has_char PERCENT v).
  - destruct (deeper v accum) eqn:E; cbn [bind]; [apply IH|].
    intros H. injection H as <-. eauto.
  - cbn [bind]. apply IH.
Qed.

Lemma interpolate_some_fails (p : parser) (option section : str)
  (map : dict str) :
  forall fuel accum rest e,
    _interpolate_some fuel p option accum rest section map = Raise e ->
    is_interpolation_error e.
Proof.
  induction fuel as [|fuel IH]; intros accum rest e; cbn [_interpolate_some].
  - intros H. injection H as <-. exact I.
  - apply interpolate_loop_fails. intros v acc e'. apply IH.
Qed.

Lemma before_get_fails (p : parser) (section option value : str)
  (d : dict str) (e : exn) :
  before_get p section option value d = Raise e -> is_interpolation_error e.
Proof.
  unfold before_get. destruct (p_interpolation p); [discriminate|].
  apply interpolate_some_fails.
Qed.

Lemma items_default_fails (p : parser) (e : exn) :
  dict_get (_sections p) default_section = None ->
  items p default_section = Raise e -> is_interpolation_error e.
Proof.
  intros N. unfold items, unify_values. rewrite N, str_eqb_refl. cbn [bind].
  apply for_each_raises. intros acc option e'.
  destruct (dict_get (_defaults p) option) as [raw|]; [|discriminate].
  destruct (before_get p default_section option raw (_defaults p)) eqn:B;
    cbn [bind]; [discriminate|].
  intros H. injection H as <-. eapply before_get_fails; eauto.
Qed.

Lemma init_loop (fs : filesystem) (path content : str) (pc : bool)
  (h : ConfigHandler) :
  fs path = TextFile content ->
  ConfigHandler_init fs path pc = Ok h ->
  exists raw seen,
    read_string pc (preprocess_file content) = Ok raw
    /\ for_each (clean_section pc raw) (sections raw) ([], ConfigParser pc)
       = Ok (seen, config h).
Proof.
  intros Hfs. unfold ConfigHandler_init, load_config. rewrite Hfs.
  unfold load_config_try.
  destruct (read_string pc (preprocess_file content)) as [raw|e] eqn:Er;
    cbn [bind].
  2:{ destruct e; discriminate. }
  destruct (for_each (clean_section pc raw) (sections raw)
              ([], ConfigParser pc)) as [[seen cfg]|e] eqn:El;
    cbn [bind snd].
  - intros H. injection H as <-. exists raw, seen. split; [reflexivity|].
    exact El.
  - destruct e; discriminate.
Qed.

Lemma set_option_defaults (p p' : parser) (n k v : str) :
  set_option p n k v = Ok p' ->
  p_preserve_case p' = p_preserve_case p
  /\ (forall k0, In k0 (dict_keys (_defaults p)) ->
                 In k0 (dict_keys (_defaults p')))
  /\ (n = [] \/ n = default_section ->
      In (optionxform (p_preserve_case p) k) (dict_keys (_defaults p')))
  /\ (n <> [] -> n <> default_section -> _defaults p' = _defaults p).
Proof.
  unfold set_option.
  destruct (if nonempty v then before_set p v else Ok v) as [v'|];
    cbn [bind]; [|discriminate].
  destruct (negb (nonempty n) || str_eqb n default_section) eqn:En.
  - intros H. injection H as <-.
    cbn [p_preserve_case _defaults]. split; [reflexivity|].
    split; [|split].
    + intros k0 Hk. rewrite dict_keys_set.
      destruct (dict_mem _ _); [exact Hk|]. apply in_or_app. now left.
    + intros _. rewrite dict_keys_set.
      destruct (dict_mem _ _) eqn:Em; [now apply dict_mem_keys|].
      apply in_or_app. right. now left.
    + intros H1 H2. exfalso. apply orb_true_iff in En as [En|En].
      * destruct n; [now apply H1|discriminate].
      * apply str_eqb_eq in En. contradiction.
  - destruct (dict_get (_sections p) n); [|discriminate].
    intros H. injection H as <-.
    cbn [p_preserve_case _defaults]. split; [reflexivity|].
    split; [auto|]. split; [|reflexivity].
    apply orb_false_iff in En as [En1 En2]. intros [-> | ->].
    + discriminate.
    + now rewrite str_eqb_refl in En2.
Qed.

Lemma clean_option_loop_defaults (pc : bool) (n : str) :
  forall pairs ks p ks' p',
    for_each (clean_option n) pairs (ks, p) = Ok (ks', p') ->
    p_preserve_case p = pc ->
    p_preserve_case p' = pc
    /\ (forall k0, In k0 (dict_keys (_defaults p)) ->
                   In k0 (dict_keys (_defaults p')))
    /\ (n = [] \/ n = default_section ->
        forall k v, In (k, v) pairs ->
                    In (optionxform pc (strip k)) (dict_keys (_defaults p')))
    /\ (n <> [] -> n <> default_section -> _defaults p' = _defaults p).
Proof.
  induction pairs as [|[k v] pairs IH]; intros ks p ks' p'; cbn [for_each].
  - intros H Hc. injection H as <- <-.
    split; [exact Hc|]. split; [auto|]. split; [intros _ k v []|reflexivity].
  - unfold clean_option at 1. cbn [fst snd].
    destruct (set_mem (strip k) ks); [discriminate|].
    destruct (set_option p n (strip k) (strip v)) as [p1|] eqn:E;
      cbn [bind]; [|discriminate].
    intros H Hc.
    destruct (set_option_defaults _ _ _ _ _ E) as [A [B [C D]]].
    destruct (IH _ _ _ _ H) as [A' [B' [C' D']]]; [congruence|].
    split; [exact A'|]. split; [auto|]. split.
    + intros Hn k0 v0 [Hin|Hin]; [|eauto].
      injection Hin as <- <-. apply B'. rewrite <- Hc. now apply C.
    + intros H1 H2. rewrite D', D; auto.
Qed.

Lemma clean_section_loop_defaults (pc : bool) (raw : parser) :
  forall todo state state',
    for_each (clean_section pc raw) todo state = Ok state' ->
    p_preserve_case (snd state) = pc ->
    p_preserve_case (snd state') = pc
    /\ (forall k0, In k0 (dict_keys (_defaults (snd state))) ->
                   In k0 (dict_keys (_defaults (snd state'))))
    /\ (forall s d k v,
           In s todo ->
           clean_section_name pc s = []
           \/ clean_section_name pc s = default_section ->
           items raw s = Ok d -> In (k, v) d ->
           In (optionxform pc (strip k))
             (dict_keys (_defaults (snd state'))))
    /\ ((forall s, In s todo ->
                   clean_section_name pc s <> []
                   /\ clean_section_name pc s <> default_section) ->
        _defaults (snd state') = _defaults (snd state)).
Proof.
  induction todo as [|x todo IH]; intros [seen p] state'; cbn [for_each].
  - intros H Hc. injection H as <-.
    split; [exact Hc|]. split; [auto|].
    split; [intros s d k v []|reflexivity].
  - unfold clean_section at 1.
    destruct (set_mem (clean_section_name pc x) seen); [discriminate|].
    destruct (if negb (contains p (clean_section_name pc x))
              then add_section p (clean_section_name pc x)
              else Ok p) as [p1|] eqn:Ea; cbn [bind]; [|discriminate].
    destruct (items raw x) as [pairs|] eqn:Ei; cbn [bind]; [|discriminate].
    destruct (for_each (clean_option (clean_section_name pc x)) pairs
                ([], p1)) as [[ks p2]|] eqn:El; cbn [bind snd];
      [|discriminate].
    intros H Hc. cbn [snd] in Hc.
    assert (H1 : p_preserve_case p1 = pc /\ _defaults p1 = _defaults p).
    { destruct (negb (contains p (clean_section_name pc x))).
      - unfold add_section in Ea.
        destruct (str_eqb _ _); [discriminate|].
        destruct (dict_mem _ _); [discriminate|].
        injection Ea as <-. now split.
      - injection Ea as <-. now split. }
    destruct H1 as [Hc1 Hd1].
    destruct (clean_option_loop_defaults pc _ _ _ _ _ _ El Hc1)
      as [A [B [C D]]].
    destruct (IH _ _ H A) as [A' [B' [C' D']]]. cbn [snd] in *.
    split; [exact A'|]. split; [|split].
    + intros k0 Hk. apply B', B. now rewrite Hd1.
    + intros s d k v [<-|Hs] Hn Hd Hk.
      * rewrite Ei in Hd. injection Hd as <-. apply B'. eapply C; eauto.
      * eapply C'; eauto.
    + intros Hall. rewrite D'.
      * destruct (Hall x (or_introl eq_refl)) as [N1 N2].
        now rewrite (D N1 N2).
      * intros s Hs. apply Hall. now right.
Qed.

Lemma get_value_default (fs : filesystem) (path : str) (pc : bool)
  (h : ConfigHandler) (key_name : str) :
  ConfigHandler_init fs path pc = Ok h ->
  exists m,
    unify_values (config h) default_section = Ok m
    /\ NoDup (dict_keys m)
    /\ get_value h default_section key_name
       = match dict_get m (optionxform pc (strip key_name)) with
         | Some raw =>
             before_get (config h) default_section
               (optionxform pc (strip key_name)) raw m
         | None =>
             Raise (KeyError
                      (key_not_found_message (strip key_name)
                         default_section))
         end.
Proof.
  intros H.
  assert (Hc : contains (config h) default_section = true).
  { unfold contains. now rewrite str_eqb_refl. }
  destruct (constructed_unify fs path pc h default_section H Hc)
    as [m [Hu [N [Ho _]]]].
  exists m. split; [exact Hu|]. split; [exact N|].
  unfold get_value. rewrite strip_default, Hc, (Ho (strip key_name)).
  unfold dict_mem.
  destruct (dict_get m (optionxform pc (strip key_name))) as [raw|] eqn:Eg;
    [|reflexivity].
  unfold proxy_getitem. rewrite (Ho (strip key_name)). unfold dict_mem.
  rewrite Eg. unfold get. rewrite Hu. cbn [bind].
  now rewrite (constructed_case _ _ _ _ H), Eg.
Qed.

(** C9, as amended: on every constructed handler [DEFAULT] is never a
    listed profile, and yet [get_profile("DEFAULT")] and
    [get_value("DEFAULT", k)] never fail with the profile-not-found
    error: the membership test takes the parser's default section for
    an existing profile.  [get_profile("DEFAULT")] returns the pairs of
    the default section unless the interpolation of one of its values
    fails, and then it raises that error of the parser; it returns
    whenever the file holds no percent sign.  What it returns is empty
    when no header other than [DEFAULT] has a normalized name that is
    empty or [DEFAULT] (the pairs under a [DEFAULT] header are copied
    into the profiles and not kept), and it holds every key of the
    sections with such a name.  [get_value("DEFAULT", k)] is the look-up
    of the trimmed key under the case mode in what [get_profile]
    returns, and fails with the key-not-found error when it is not
    there. *)
Theorem default_section_is_a_profile
  (fs : filesystem) (path content : str) (pc : bool) (h : ConfigHandler) :
  fs path = TextFile content ->
  ConfigHandler_init fs path pc = Ok h ->
  ~ In default_section (list_profiles h)
  /\ get_profile h default_section
     <> Raise (KeyError (profile_not_found_message default_section))
  /\ (forall key_name,
         get_value h default_section key_name
         <> Raise (KeyError (profile_not_found_message default_section)))
  /\ (forall e,
         get_profile h default_section = Raise e ->
         is_interpolation_error e)
  /\ (forall key_name e,
         get_value h default_section key_name = Raise e ->
         e = KeyError (key_not_found_message (strip key_name) default_section)
         \/ is_interpolation_error e)
  /\ (forall d,
         get_profile h default_section = Ok d ->
         (forall s k v,
             In s (header_names (processed_lines_of content)) ->
             default_like pc s ->
             In (k, v) (file_items pc (processed_lines_of content) s) ->
             In k (dict_keys d))
         /\ forall key_name,
             get_value h default_section key_name
             = match dict_get d (optionxform pc (strip key_name)) with
               | Some v => Ok v
               | None =>
                   Raise (KeyError
                            (key_not_found_message (strip key_name)
                               default_section))
               end)
  /\ (has_char PERCENT content = false ->
      exists d, get_profile h default_section = Ok d)
  /\ (ordinary_names pc (processed_lines_of content) ->
      get_profile h default_section = Ok []).
Proof.
  intros Hfs H.
  pose proof (default_not_a_section _ _ _ _ H) as Hnot.
  assert (Hsec : dict_get (_sections (config h)) default_section = None).
  { apply dict_get_none, dict_mem_false. exact Hnot. }
  assert (G : get_profile h default_section = items (config h) default_section).
  { unfold get_profile. rewrite strip_default. unfold contains.
    now rewrite str_eqb_refl. }
  destruct (init_loop fs path content pc h Hfs H) as [raw [seen [Hr Hl]]].
  pose proof (read_string_inv pc content raw Hr) as R.
  destruct (clean_section_loop_defaults pc raw _ _ _ Hl eq_refl)
    as [_ [_ [Hkeys Hempty]]]. cbn [snd ConfigParser _defaults] in *.
  assert (Pf : forall e, get_profile h default_section = Raise e ->
                         is_interpolation_error e).
  { intros e E. rewrite G in E. now apply (items_default_fails (config h)). }
  assert (Vf : forall key_name e,
             get_value h default_section key_name = Raise e ->
             e = KeyError (key_not_found_message (strip key_name)
                             default_section)
             \/ is_interpolation_error e).
  { intros key_name e E.
    destruct (get_value_default fs path pc h key_name H) as [m [_ [_ V]]].
    rewrite V in E.
    destruct (dict_get m (optionxform pc (strip key_name))) as [r|].
    - right. now apply before_get_fails in E.
    - left. now injection E as <-. }
  split; [exact Hnot|]. split; [|split; [|split; [|split; [|split; [|split]]]]].
  - intros E. exact (Pf _ E).
  - intros key_name E. destruct (Vf _ _ E) as [F|F]; [|exact F].
    apply (messages_differ (strip key_name) default_section).
    exact (f_equal (fun x => match x with KeyError m => m | _ => [] end) F).
  - exact Pf.
  - exact Vf.
  - intros d E. rewrite G in E.
    destruct (get_value_default fs path pc h default_section H)
      as [m [Hu [N _]]].
    pose proof (items_spec _ _ _ _ Hu N E) as F.
    pose proof (Forall2_keys _ _ _ _ _ F) as K.
    assert (Em : m = _defaults (config h)).
    { unfold unify_values in Hu. rewrite Hsec, str_eqb_refl in Hu.
      now injection Hu as <-. }
    split.
    + intros s k v Hs [Hne Hn] Hk. rewrite K, Em.
      assert (Hs' : In s (sections raw)).
      { rewrite (rw_sections _ _ _ R). apply filter_In. split; [exact Hs|].
        unfold is_default. now rewrite (proj2 (str_eqb_neq _ _) Hne). }
      destruct (raw_items pc content raw s Hr Hs') as [Hi [_ P]].
      pose proof (Hkeys s _ k v Hs' Hn Hi Hk) as Hin.
      destruct (pi_pairs _ _ _ (rw_pairs _ _ _ R) k v (P k v Hk))
        as [l [Hl' [He _]]].
      pose proof (processed_lines_clean content) as Cl.
      rewrite Forall_forall in Cl.
      destruct (entry_of_clean pc l k v (Cl l Hl') He) as [A [_ [B _]]].
      now rewrite A, B in Hin.
    + intros key_name.
      destruct (get_value_default fs path pc h key_name H)
        as [m' [Hu' [_ V]]].
      rewrite Hu in Hu'. injection Hu' as <-. rewrite V.
      destruct (dict_get m (optionxform pc (strip key_name))) as [r|] eqn:Eg.
      * destruct (Forall2_pairs_forward _ _ _ _ _ _ _ F (dict_get_in _ _ _ Eg))
          as [v [Hv Hb]].
        rewrite (in_dict_get d _ v); [exact Hb| |exact Hv].
        now rewrite K.
      * assert (Ed : dict_get d (optionxform pc (strip key_name)) = None).
        { apply dict_get_none. apply dict_get_none in Eg.
          rewrite <- Eg. now apply dict_mem_same_keys. }
        now rewrite Ed.
  - intros Hp. rewrite G.
    assert (Hc : contains (config h) default_section = true).
    { unfold contains. now rewrite str_eqb_refl. }
    destruct (constructed_items fs path content pc h default_section
                Hfs H Hp Hc) as [m [_ [Hi _]]].
    eauto.
  - intros Hord. rewrite G. unfold items, unify_values.
    rewrite Hsec, str_eqb_refl. rewrite Hempty; [reflexivity|].
    intros s Hs. rewrite (rw_sections _ _ _ R) in Hs.
    apply filter_In in Hs as [Hs Hd]. apply Hord; [exact Hs|].
    intros ->. unfold is_default in Hd. now rewrite str_eqb_refl in Hd.
Qed.

Lemma default_section_is_a_profile_witness :
  ~ In default_section
      (list_profiles
         (handler_of
          (ConfigHandler_init (single_file "config.ini" empty_name_file)
             "config.ini" false)))
  /\ get_profile
       (handler_of
          (ConfigHandler_init (single_file "config.ini" empty_name_file)
             "config.ini" false))
       default_section
     <> Raise (KeyError (profile_not_found_message default_section))
  /\ (forall key_name,
         get_value
           (handler_of
          (ConfigHandler_init (single_file "config.ini" empty_name_file)
             "config.ini" false))
           default_section key_name
         <> Raise (KeyError (profile_not_found_message default_section)))
  /\ (forall e,
         get_profile
           (handler_of
          (ConfigHandler_init (single_file "config.ini" empty_name_file)
             "config.ini" false))
           default_section = Raise e ->
         is_interpolation_error e)
  /\ (forall key_name e,
         get_value
           (handler_of
          (ConfigHandler_init (single_file "config.ini" empty_name_file)
             "config.ini" false))
           default_section key_name = Raise e ->
         e = KeyError (key_not_found_message (strip key_name) default_section)
         \/ is_interpolation_error e)
  /\ (forall d,
         get_profile
           (handler_of
          (ConfigHandler_init (single_file "config.ini" empty_name_file)
             "config.ini" false))
           default_section = Ok d ->
         (forall s k v,
             In s (header_names (processed_lines_of empty_name_file)) ->
             default_like false s ->
             In (k, v)
               (file_items false (processed_lines_of empty_name_file) s) ->
             In k (dict_keys d))
         /\ forall key_name,
             get_value
               (handler_of
          (ConfigHandler_init (single_file "config.ini" empty_name_file)
             "config.ini" false))
               default_section key_name
             = match dict_get d (optionxform false (strip key_name)) with
               | Some v => Ok v
               | None =>
                   Raise (KeyError
                            (key_not_found_message (strip key_name)
                               default_section))
               end)
  /\ (has_char PERCENT empty_name_file = false ->
      exists d,
        get_profile
          (handler_of
          (ConfigHandler_init (single_file "config.ini" empty_name_file)
             "config.ini" false))
          default_section = Ok d)
  /\ (ordinary_names false (processed_lines_of empty_name_file) ->
      get_profile
        (handler_of
          (ConfigHandler_init (single_file "config.ini" empty_name_file)
             "config.ini" false))
        default_section = Ok []).
Proof.
  apply (default_section_is_a_profile
           (single_file "config.ini" empty_name_file) "config.ini"
           empty_name_file false).
  - reflexivity.
  - vm_compute. reflexivity.
Defined.

(** The file with a header of empty name, as the code runs on it. *)
Example default_profile_of_empty_name_file :
  exists h,
    ConfigHandler_init (single_file "config.ini" empty_name_file)
      "config.ini" false = Ok h
    /\ list_profiles h = [[]; "a" : str]
    /\ get_profile h "DEFAULT"
       = Ok [("region" : str, "eu" : str); ("k" : str, "v" : str)]
    /\ get_value h "DEFAULT" " K " = Ok ("v" : str)
    /\ get_value h "DEFAULT" "missing"
       = Raise (KeyError "Key 'missing' not found in profile 'DEFAULT'").
Proof.
  eexists. split; [vm_compute; reflexivity|].
  repeat split; vm_compute; reflexivity.
Qed.

(** C9 as the specification states it fails where it says that
    [get_profile("DEFAULT")] returns instead of raising: a header with
    an empty name puts its pairs into the default section of the
    parser, construction accepts a reference to a key that does not
    exist, and [get_profile("DEFAULT")] then raises the parser's
    interpolation error. *)
Lemma get_profile_default_can_raise :
  exists h,
    ConfigHandler_init
      (single_file "config.ini" (text_of ["[ ]"; "k = %(nope)s"]))
      "config.ini" false = Ok h
    /\ list_profiles h = [[]]
    /\ get_profile h "DEFAULT"
       = Raise (ConfigParserError
                  (InterpolationMissingOptionError "k" "DEFAULT" "%(nope)s"
                     "nope"))
    /\ Error_str
         (InterpolationMissingOptionError "k" "DEFAULT" "%(nope)s" "nope")
       = "Bad value substitution: option 'k' in section 'DEFAULT' contains "
           ++ "an interpolation key 'nope' which is not a valid option name."
           ++ " Raw value: '%(nope)s'".
Proof.
  eexists. split; [vm_compute; reflexivity|].
  split; [reflexivity|]. split; reflexivity.
Qed.
